(** * shoturl_collect: the shot/video-URL pipeline, embedded and verified

    The repository has two Python scripts built on pandas:

    - [shot_collect.py]: [load_all_shot_data_for_year] and
      [load_all_shot_data] read the team files of the seasons into one
      table; [merge_with_uuid_data] left-joins the shot table
      with the UUID backup table and derives the [video_url] column;
      [save_data_by_year_and_team] writes one CSV per (year, team) group;
      the statements at top level run the three in a row.
    - [collect_data.py]: [combine_shot_data] reads every CSV back,
      concatenates, sorts and writes one combined file.

    The embedding keeps the shape of the code: a table is a list of column
    labels and a list of rows, a row is a labelled sequence of cells (what
    pandas hands to [apply(..., axis=1)]), Python exceptions are a [Raise]
    result, and the objects the functions mutate (the caller's table, the
    file system, standard output) live in an explicit [World] threaded
    through a small state-and-exception monad. *)

From Stdlib Require Import ZArith Ascii String List Bool Sorting.Sorted Sorting.Permutation.
From Stdlib Require Import DecimalString DecimalZ.
From stdpp Require Import base option list strings gmap.

Open Scope Z_scope.

(** ** Python values and exceptions *)

Module Py.

(** A cell of a table.  [NaN] is the missing value (pandas' NaN; a [None]
    stored in an object column is missing in the same way).  [Int] is an
    integer, [Float z] is a float64 cell holding the integral value [z]
    (what an int64 column becomes once a missing value is introduced next
    to it; fractional floats are outside the model), [Str] is a string. *)
Inductive value :=
| NaN
| Int (z : Z)
| Float (z : Z)
| Str (s : string).

Inductive exn :=
| KeyError (key : string)
| ValueError
| TypeError
| OverflowError
| FileNotFoundError (path : string)
| OSError.

Inductive result (A : Type) :=
| Ok (a : A)
| Raise (e : exn).
Arguments Ok {A} a.
Arguments Raise {A} e.

#[global] Instance value_eq_dec : EqDecision value.
Proof. solve_decision. Defined.
#[global] Instance exn_eq_dec : EqDecision exn.
Proof. solve_decision. Defined.

#[global] Instance result_ret : MRet result := @Ok.
#[global] Instance result_bind : MBind result := fun A B f m =>
  match m with
  | Ok a => f a
  | Raise e => Raise e
  end.
#[global] Instance result_fmap : FMap result := fun A B f m =>
  match m with
  | Ok a => Ok (f a)
  | Raise e => Raise e
  end.

(** [[f(x) for x in xs]] where [f] may raise: the first exception wins. *)
Fixpoint traverse {A B} (f : A -> result B) (xs : list A) : result (list B) :=
  match xs with
  | [] => Ok []
  | x :: xs' =>
      match f x with
      | Ok y =>
          match traverse f xs' with
          | Ok ys => Ok (y :: ys)
          | Raise e => Raise e
          end
      | Raise e => Raise e
      end
  end.

(** [str(n)] for an integer: decimal digits, a leading minus sign for a
    negative number, no padding. *)
Definition dec (z : Z) : string := NilZero.string_of_int (Z.to_int z).

(** [pd.isna(x)] on a scalar. *)
Definition isna (v : value) : bool :=
  match v with
  | NaN => true
  | _ => false
  end.

(** [str(x)], also what an f-string substitutes for [{x}].  The float
    case is the repr of an integral float below 1e16. *)
Definition str (v : value) : string :=
  match v with
  | NaN => "nan"
  | Int z => dec z
  | Float z => dec z +:+ ".0"
  | Str s => s
  end.

(** [x == s] for a string literal [s]. *)
Definition eq_str (v : value) (s : string) : bool :=
  match v with
  | Str t => bool_decide (t = s)
  | _ => false
  end.

(** *** [int(x)] *)

Definition is_space (c : ascii) : bool :=
  let n := nat_of_ascii c in
  (Nat.eqb n 32 || (Nat.leb 9 n && Nat.leb n 13)
   || (Nat.leb 28 n && Nat.leb n 31))%bool.

Definition is_digit (c : ascii) : bool :=
  let n := nat_of_ascii c in
  (Nat.leb 48 n && Nat.leb n 57)%bool.

Fixpoint lstrip (s : string) : string :=
  match s with
  | String c s' => if is_space c then lstrip s' else s
  | EmptyString => EmptyString
  end.

Fixpoint rstrip (s : string) : string :=
  match s with
  | String c s' =>
      match rstrip s' with
      | EmptyString => if is_space c then EmptyString else String c EmptyString
      | t => String c t
      end
  | EmptyString => EmptyString
  end.

(** Digits of an integer literal with the grouping underscores removed:
    an underscore is accepted only between two digits. *)
Fixpoint digits_of (prev_digit : bool) (s : string) : option string :=
  match s with
  | EmptyString => if prev_digit then Some EmptyString else None
  | String c s' =>
      if is_digit c then String c <$> digits_of true s'
      else if (Ascii.eqb c "_" && prev_digit)%bool then
        match s' with
        | String c' _ => if is_digit c' then digits_of false s' else None
        | EmptyString => None
        end
      else None
  end.

Definition nat_of_digits (s : string) : option Z :=
  match s with
  | EmptyString => None
  | _ => (fun d => Z.of_uint d) <$> NilEmpty.uint_of_string s
  end.

(** [int(s)] for a string, base 10: surrounding white space, an optional
    sign, digits with single underscores between them. *)
Definition int_of_str (s : string) : result Z :=
  let body := rstrip (lstrip s) in
  let '(neg, rest) :=
    match body with
    | String "-" r => (true, r)
    | String "+" r => (false, r)
    | _ => (false, body)
    end in
  match digits_of false rest ≫= nat_of_digits with
  | Some n => Ok (if neg then - n else n)
  | None => Raise ValueError
  end.

(** [int(x)]: an integer is itself, an integral float is its value, a
    string is parsed, a missing value cannot be converted. *)
Definition int (v : value) : result Z :=
  match v with
  | NaN => Raise ValueError
  | Int z => Ok z
  | Float z => Ok z
  | Str s => int_of_str s
  end.

End Py.

(** ** Tables *)

Module Frame.
Import Py.

(** A row as [apply(..., axis=1)] and [groupby] hand it out: the cells in
    column order, each under its column label. *)
Definition Series := list (string * value).

(** A table: the column labels in order, and the rows.  The tables the
    scripts build have pairwise different labels ([read_csv] renames a
    repeated header), and the operations below are written for such
    tables. *)
Record DataFrame := {
  columns : list string;
  rows : list Series
}.

(** Every row carries exactly the labels of the table, in order. *)
Definition wf (df : DataFrame) : Prop :=
  Forall (fun r : Series => r.*1 = columns df) (rows df).

Fixpoint lookup_label (c : string) (r : Series) : option value :=
  match r with
  | [] => None
  | (k, v) :: r' => if decide (k = c) then Some v else lookup_label c r'
  end.

(** [row[c]] *)
Definition get (r : Series) (c : string) : result value :=
  match lookup_label c r with
  | Some v => Ok v
  | None => Raise (KeyError c)
  end.

(** [c in df.columns] *)
Definition has_column (c : string) (df : DataFrame) : bool :=
  bool_decide (c ∈ columns df).

(** [len(df)] *)
Definition len (df : DataFrame) : nat := length (rows df).

(** [df.drop(columns=cs)]: every label must exist. *)
Definition drop (cs : list string) (df : DataFrame) : result DataFrame :=
  match filter (fun c => c ∉ columns df) cs with
  | c :: _ => Raise (KeyError c)
  | [] =>
      Ok {| columns := filter (fun c => c ∉ cs) (columns df);
            rows := (fun r : Series => filter (fun p => p.1 ∉ cs) r) <$> rows df |}
  end.

(** [df[cs]] for a list of labels. *)
Definition select (cs : list string) (df : DataFrame) : result DataFrame :=
  match filter (fun c => c ∉ columns df) cs with
  | c :: _ => Raise (KeyError c)
  | [] =>
      match traverse (fun r => traverse (fun c => pair c <$> get r c) cs) (rows df) with
      | Ok rs => Ok {| columns := cs; rows := rs |}
      | Raise e => Raise e
      end
  end.

(** Elementwise conversions behind [astype]. *)
Definition int64_min : Z := - 2 ^ 63.
Definition int64_max : Z := 2 ^ 63 - 1.

Definition to_int64 (v : value) : result value :=
  match int v with
  | Ok z =>
      if bool_decide (int64_min <= z <= int64_max) then Ok (Int z)
      else Raise OverflowError
  | Raise e => Raise e
  end.

Definition to_str (v : value) : result value := Ok (Str (str v)).

Definition convert_cell (c : string) (conv : value -> result value)
    (p : string * value) : result (string * value) :=
  if decide (p.1 = c) then pair p.1 <$> conv p.2 else Ok p.

(** [df[c] = df[c].astype(T)]: the column must exist, every cell must
    convert, and only then is the column replaced. *)
Definition astype (c : string) (conv : value -> result value)
    (df : DataFrame) : result DataFrame :=
  if has_column c df then
    match traverse (traverse (convert_cell c conv)) (rows df) with
    | Ok rs => Ok {| columns := columns df; rows := rs |}
    | Raise e => Raise e
    end
  else Raise (KeyError c).

Definition set_cell (c : string) (v : value) (r : Series) : Series :=
  match lookup_label c r with
  | Some _ => (fun p : string * value => if decide (p.1 = c) then (p.1, v) else p) <$> r
  | None => r ++ [(c, v)]
  end.

(** [df[c] = vals]: an existing column is overwritten where it stands, a
    new one is appended as the last column. *)
Definition assign (c : string) (vals : list value) (df : DataFrame) : DataFrame :=
  {| columns := if has_column c df then columns df else columns df ++ [c];
     rows := zip_with (set_cell c) vals (rows df) |}.

(** [df.apply(f, axis=1)] *)
Definition apply (f : Series -> result value) (df : DataFrame) : result (list value) :=
  traverse f (rows df).

(** [df[c]] as the list of its cells. *)
Definition column (c : string) (df : DataFrame) : result (list value) :=
  if has_column c df then traverse (fun r => get r c) (rows df)
  else Raise (KeyError c).

(** *** [pd.merge(left, right, left_on=..., right_on=..., how='left')] *)

Definition is_int (v : value) : bool :=
  match v with
  | Int _ => true
  | _ => false
  end.

Definition to_float (v : value) : value :=
  match v with
  | Int z => Float z
  | _ => v
  end.

(** A column is stored as int64 when all its cells are integers. *)
Definition int64_column (c : string) (df : DataFrame) : bool :=
  forallb (fun r => from_option is_int false (lookup_label c r)) (rows df).

Definition key_of (on : list string) (r : Series) : list (option value) :=
  (fun c => lookup_label c r) <$> on.

Definition matches (left_on right_on : list string) (l : Series)
    (right : DataFrame) : list Series :=
  filter (fun r => key_of right_on r = key_of left_on l) (rows right).

Definition suffixed (overlap : list string) (sfx c : string) : string :=
  if decide (c ∈ overlap) then c +:+ sfx else c.

Definition relabel (f : string -> string) (r : Series) : Series :=
  prod_map f id <$> r.

(** Left join, for key labels that differ between the two sides (as in the
    one call of the script): both key columns are kept.  The rows of the
    left table come out in their order; a row with matches is repeated
    once per matching right row, in the right table's order; a row
    without a match gets missing values in the right-hand columns.  A
    label that occurs on both sides gets the suffixes [_x] and [_y].  When
    some left row has no match, the int64 columns of the right table turn
    into float64, since they now hold a missing value. *)
Definition merge_left (left right : DataFrame) (left_on right_on : list string)
    : result DataFrame :=
  match filter (fun c => c ∉ columns left) left_on,
        filter (fun c => c ∉ columns right) right_on with
  | c :: _, _ => Raise (KeyError c)
  | [], c :: _ => Raise (KeyError c)
  | [], [] =>
      let overlap := filter (fun c => c ∈ columns right) (columns left) in
      let unmatched :=
        existsb (fun l => bool_decide (matches left_on right_on l right = []))
                (rows left) in
      let widen (p : string * value) :=
        if (unmatched && int64_column p.1 right)%bool then (p.1, to_float p.2) else p in
      let right_side (l : Series) : list Series :=
        match matches left_on right_on l right with
        | [] => [ (fun c => (suffixed overlap "_y" c, NaN)) <$> columns right ]
        | ms => (fun r => relabel (suffixed overlap "_y") (widen <$> r)) <$> ms
        end in
      Ok {| columns := (suffixed overlap "_x" <$> columns left)
                       ++ (suffixed overlap "_y" <$> columns right);
            rows := l ← rows left;
                    (fun r => relabel (suffixed overlap "_x") l ++ r) <$> right_side l |}
  end.

(** *** [pd.concat(dfs, ignore_index=True)] *)

Definition is_str (v : value) : bool :=
  match v with
  | Str _ => true
  | _ => false
  end.

Definition union_columns (dfs : list DataFrame) : list string :=
  foldl (fun acc df => acc ++ filter (fun c => c ∉ acc) (columns df)) [] dfs.

Definition reindex (cols : list string) (r : Series) : Series :=
  (fun c => (c, default NaN (lookup_label c r))) <$> cols.

(** The columns are the union of the frames' columns in order of first
    appearance, the rows follow frame after frame, and a frame that lacks
    a column has missing values there.  A numeric column that ends up with
    a missing value or a float in it is float64 as a whole. *)
Definition concat (dfs : list DataFrame) : DataFrame :=
  let cols := union_columns dfs in
  let filled := reindex cols <$> (dfs ≫= rows) in
  let cells c := (fun r => default NaN (lookup_label c r)) <$> filled in
  let float64 c := (negb (existsb is_str (cells c)) && negb (forallb is_int (cells c)))%bool in
  let widen (p : string * value) := if float64 p.1 then (p.1, to_float p.2) else p in
  {| columns := cols; rows := fmap widen <$> filled |}.

(** *** [df.sort_values(by=[...])] on several columns *)

(** What a cell counts as when sorting: numbers by value, strings by
    code units, missing values after everything else
    ([na_position='last']). *)
Inductive skey :=
| KNum (z : Z)
| KStr (s : string)
| KNaN.

#[global] Instance skey_eq_dec : EqDecision skey.
Proof. solve_decision. Defined.

Definition sort_key (v : value) : skey :=
  match v with
  | NaN => KNaN
  | Int z => KNum z
  | Float z => KNum z
  | Str s => KStr s
  end.

Definition skey_compare (a b : skey) : comparison :=
  match a, b with
  | KNum x, KNum y => Z.compare x y
  | KNum _, _ => Lt
  | KStr _, KNum _ => Gt
  | KStr s, KStr t => String.compare s t
  | KStr _, KNaN => Lt
  | KNaN, KNaN => Eq
  | KNaN, _ => Gt
  end.

Fixpoint lex_compare (a b : list skey) : comparison :=
  match a, b with
  | [], [] => Eq
  | [], _ :: _ => Lt
  | _ :: _, [] => Gt
  | x :: a', y :: b' =>
      match skey_compare x y with
      | Eq => lex_compare a' b'
      | c => c
      end
  end.

Definition row_key (by_ : list string) (r : Series) : list skey :=
  (fun c => sort_key (default NaN (lookup_label c r))) <$> by_.

Definition row_leb (by_ : list string) (r1 r2 : Series) : bool :=
  match lex_compare (row_key by_ r1) (row_key by_ r2) with
  | Gt => false
  | _ => true
  end.

(** A stable sort: an element goes in front of the first element that is
    not smaller, so it stays ahead of the equal elements that followed it
    in the input. *)
Fixpoint insert_sorted {A} (leb : A -> A -> bool) (x : A) (l : list A) : list A :=
  match l with
  | [] => [x]
  | y :: l' => if leb x y then x :: l else y :: insert_sorted leb x l'
  end.

Definition stable_sort {A} (leb : A -> A -> bool) (l : list A) : list A :=
  foldr (insert_sorted leb) [] l.

(** A column that holds both strings and numbers cannot be ordered. *)
Definition unorderable (c : string) (df : DataFrame) : bool :=
  let cells := (fun r => default NaN (lookup_label c r)) <$> rows df in
  (existsb is_str cells
   && existsb (fun v => negb (is_str v) && negb (isna v)) cells)%bool.

(** With several keys pandas sorts an index by the lexicographic order of
    the keys with a stable algorithm, whatever [kind] says. *)
Definition sort_values (by_ : list string) (df : DataFrame) : result DataFrame :=
  match filter (fun c => c ∉ columns df) by_ with
  | c :: _ => Raise (KeyError c)
  | [] =>
      if existsb (fun c => unorderable c df) by_ then Raise TypeError
      else Ok {| columns := columns df;
                 rows := stable_sort (row_leb by_) (rows df) |}
  end.

(** *** [df.groupby([c1, c2])] on two int64 columns *)

Definition int_cell (c : string) (r : Series) : option Z :=
  match lookup_label c r with
  | Some (Int z) => Some z
  | _ => None
  end.

Definition group_key (c1 c2 : string) (r : Series) : option (Z * Z) :=
  match int_cell c1 r, int_cell c2 r with
  | Some a, Some b => Some (a, b)
  | _, _ => None
  end.

Definition pair_leb (a b : Z * Z) : bool :=
  ((a.1 <? b.1) || ((a.1 =? b.1) && (a.2 <=? b.2)))%bool.

(** The groups come in ascending key order ([sort=True]); each holds the
    rows with that key in their original order; a row with a missing key
    is in no group ([dropna=True]). *)
Definition groupby (c1 c2 : string) (df : DataFrame)
    : list ((Z * Z) * DataFrame) :=
  let keys := stable_sort pair_leb
                (remove_dups (omap (group_key c1 c2) (rows df))) in
  (fun k => (k, {| columns := columns df;
                   rows := filter (fun r => group_key c1 c2 r = Some k) (rows df) |}))
    <$> keys.

(** *** [df.to_csv(path, index=False)] *)

Definition dquote : ascii := ascii_of_nat 34.
Definition newline : ascii := ascii_of_nat 10.
Definition cr : ascii := ascii_of_nat 13.

Fixpoint needs_quoting (s : string) : bool :=
  match s with
  | EmptyString => false
  | String c s' =>
      (Ascii.eqb c "," || Ascii.eqb c dquote || Ascii.eqb c newline
       || Ascii.eqb c cr || needs_quoting s')%bool
  end.

Fixpoint double_quotes (s : string) : string :=
  match s with
  | EmptyString => EmptyString
  | String c s' =>
      if Ascii.eqb c dquote then String c (String c (double_quotes s'))
      else String c (double_quotes s')
  end.

(** Minimal quoting: a field is quoted only when it holds a comma, a
    quote or a line break. *)
Definition csv_field (s : string) : string :=
  if needs_quoting s then String dquote (double_quotes s +:+ String dquote EmptyString)
  else s.

Definition csv_cell (v : value) : string :=
  match v with
  | NaN => EmptyString
  | Int z => dec z
  | Float z => dec z +:+ ".0"
  | Str s => csv_field s
  end.

Fixpoint join_fields (fields : list string) : string :=
  match fields with
  | [] => EmptyString
  | [f] => f
  | f :: fs => f +:+ "," +:+ join_fields fs
  end.

Definition csv_line (fields : list string) : string :=
  join_fields fields +:+ String newline EmptyString.

(** The header line, then one line per row, cells in column order. *)
Definition to_csv (df : DataFrame) : string :=
  csv_line (csv_field <$> columns df)
  +:+ foldr (fun (r : Series) rest => csv_line ((fun p => csv_cell p.2) <$> r) +:+ rest)
        EmptyString (rows df).

End Frame.

(** ** The world the scripts run in *)

Module Runtime.
Import Py Frame.

(** What the scripts print, as the data each message is built from. *)
Inductive message :=
| LoadingUuidBackup
| MergingRows (shots backup : nat)
| GeneratingUrls
| MergeComplete (matched total : nat)
| GeneratedUrls (urls no_video : nat)
| SavingInto (base_output_dir : string)
| ErrorMissingColumns
| SavedShots (shots groups : nat)
| DirectoryNotFound (base_dir : string)
| RunCollectionFirst
| NoCsvFound (base_dir : string)
| FoundCsv (n : nat)
| CouldNotRead (filename : string) (e : exn)
| NoDataLoaded
| Combining
| SavingCombined (output_file : string)
| ProcessComplete
| TotalShots (n : nat)
| SavedTo (output_file : string).

(** What a run can change: the table object the caller passed in (pandas
    mutates it in place), the directories and files on disk, and standard
    output. *)
Record World := {
  table : DataFrame;
  dirs : gset string;
  files : gmap string string;
  stdout : list message
}.

(** What a run only observes: the table [pd.read_csv] parses from a path
    (or the exception it raises), [os.path.isdir], and the list
    [glob.glob(pattern, recursive=True)] returns for the CSV files below a
    directory, in the order the operating system lists them. *)
Record Env := {
  read_csv : string -> result DataFrame;
  isdir : string -> bool;
  glob_csv : string -> list string
}.

Definition set_table (df : DataFrame) (w : World) : World :=
  {| table := df; dirs := dirs w; files := files w; stdout := stdout w |}.
Definition add_dirs (ds : gset string) (w : World) : World :=
  {| table := table w; dirs := dirs w ∪ ds; files := files w; stdout := stdout w |}.
Definition write_file (path content : string) (w : World) : World :=
  {| table := table w; dirs := dirs w; files := <[path := content]> (files w);
     stdout := stdout w |}.
Definition add_stdout (m : message) (w : World) : World :=
  {| table := table w; dirs := dirs w; files := files w; stdout := stdout w ++ [m] |}.

(** State and exceptions: a raised exception keeps the changes made
    before it. *)
Definition M (A : Type) : Type := World -> result A * World.

#[global] Instance M_ret : MRet M := fun A a w => (Ok a, w).
#[global] Instance M_bind : MBind M := fun A B f m w =>
  match m w with
  | (Ok a, w') => f a w'
  | (Raise e, w') => (Raise e, w')
  end.

Definition lift {A} (r : result A) : M A := fun w => (r, w).
Definition print (m : message) : M unit := fun w => (Ok tt, add_stdout m w).
Definition get_table : M DataFrame := fun w => (Ok (table w), w).

(** An in-place update of the caller's table; when the update raises the
    table is left as it was. *)
Definition update_table (f : DataFrame -> result DataFrame) : M unit := fun w =>
  match f (table w) with
  | Ok df => (Ok tt, set_table df w)
  | Raise e => (Raise e, w)
  end.

(** [for x in xs: body(x)] *)
Fixpoint for_each {A} (xs : list A) (body : A -> M unit) : M unit :=
  match xs with
  | [] => mret tt
  | x :: xs' => body x ;; for_each xs' body
  end.

(** [os.path.join(a, b)] on a POSIX system. *)
Definition starts_with_slash (s : string) : bool :=
  match s with
  | String c _ => Ascii.eqb c "/"
  | EmptyString => false
  end.

Fixpoint ends_with_slash (s : string) : bool :=
  match s with
  | EmptyString => false
  | String c EmptyString => Ascii.eqb c "/"
  | String _ s' => ends_with_slash s'
  end.

Definition path_join (a b : string) : string :=
  if starts_with_slash b then b
  else if (bool_decide (a = EmptyString) || ends_with_slash a)%bool then a +:+ b
  else a +:+ "/" +:+ b.

(** The directories [os.makedirs(path, exist_ok=True)] makes sure exist:
    the path and each of its leading directories. *)
Fixpoint leading_dirs (seen rest : string) : list string :=
  match rest with
  | EmptyString => [seen]
  | String c rest' =>
      (if Ascii.eqb c "/" then [seen] else [])
      ++ leading_dirs (seen +:+ String c EmptyString) rest'
  end.

Definition makedirs (path : string) : M unit := fun w =>
  (Ok tt,
   add_dirs (list_to_set (filter (fun d => d ≠ EmptyString) (leading_dirs EmptyString path))) w).

(** [df.to_csv(path, index=False)]: the file is opened for writing, so
    whatever was at [path] is replaced. *)
Definition to_csv_file (df : DataFrame) (path : string) : M unit := fun w =>
  (Ok tt, write_file path (to_csv df) w).

End Runtime.

(** ** shot_collect.py *)

Module ShotCollect.
Import Py Frame Runtime.

Definition url_prefix : string := "https://videos.nba.com/nba/pbp/media/".
Definition url_suffix : string := "_1280x720.mp4".

(** The f-string of [generate_video_url]. *)
Definition video_url (year month day : Z) (api_game_id : string) (event_id : Z)
    (uuid : string) : string :=
  url_prefix +:+ dec year +:+ "/" +:+ dec month +:+ "/" +:+ dec day +:+ "/"
    +:+ api_game_id +:+ "/" +:+ dec event_id +:+ "/" +:+ uuid +:+ url_suffix.

Definition generate_video_url (row : Series) : result value :=
  uuid ← get row "uuid";
  if (isna uuid || eq_str uuid "NO_VIDEO")%bool then Ok NaN
  else
    year ← get row "year" ≫= int;
    month ← get row "month" ≫= int;
    day ← get row "day" ≫= int;
    api_game_id ← get row "api_game_id";
    event_id ← get row "GAME_EVENT_ID" ≫= int;
    uuid ← get row "uuid";
    Ok (Str (video_url year month day (str api_game_id) event_id (str uuid))).

Definition count (p : value -> bool) (vs : list value) : nat :=
  length (List.filter p vs).

Definition backup_columns : list string :=
  ["game_id"; "action_number"; "year"; "month"; "day"; "api_game_id"; "uuid"].

Definition merge_with_uuid_data (env : Env) (backup_file_path : string) : M DataFrame :=
  print LoadingUuidBackup;;
  backup_df ← lift (read_csv env backup_file_path);
  shot_data_df ← get_table;
  (if has_column "year" shot_data_df then update_table (drop ["year"]) else mret tt);;
  update_table (astype "GAME_ID" to_str);;
  update_table (astype "GAME_EVENT_ID" to_int64);;
  backup_df ← lift (astype "game_id" to_str backup_df);
  backup_df ← lift (astype "action_number" to_int64 backup_df);
  shot_data_df ← get_table;
  print (MergingRows (len shot_data_df) (len backup_df));;
  right ← lift (select backup_columns backup_df);
  merged_df ← lift (merge_left shot_data_df right
                      ["GAME_ID"; "GAME_EVENT_ID"] ["game_id"; "action_number"]);
  merged_df ← lift (drop ["game_id"; "action_number"] merged_df);
  print GeneratingUrls;;
  urls ← lift (apply generate_video_url merged_df);
  let merged_df := assign "video_url" urls merged_df in
  uuids ← lift (column "uuid" merged_df);
  video_urls ← lift (column "video_url" merged_df);
  print (MergeComplete (count (fun v => negb (isna v)) uuids) (len merged_df));;
  print (GeneratedUrls (count (fun v => negb (isna v)) video_urls)
                       (count (fun v => eq_str v "NO_VIDEO") uuids));;
  mret merged_df.

(** [os.path.join(os.path.join(base_output_dir, str(year)), f'{team_id}.csv')] *)
Definition output_path (base_output_dir : string) (year team_id : Z) : string :=
  path_join (path_join base_output_dir (dec year)) (dec team_id +:+ ".csv").

(** [['SHOT_ID', 'video_url'] + [col for col in df.columns if col not in
    ['SHOT_ID', 'video_url']]] *)
Definition final_columns (df : DataFrame) : list string :=
  ["SHOT_ID"; "video_url"]
  ++ filter (fun col => col ∉ ["SHOT_ID"; "video_url"]) (columns df).

(** The body of the loop over the groups. *)
Definition save_group (base_output_dir : string) (g : (Z * Z) * DataFrame) : M unit :=
  let '((year, team_id), group_df) := g in
  let year_dir := path_join base_output_dir (dec year) in
  makedirs year_dir;;
  let output_path := path_join year_dir (dec team_id +:+ ".csv") in
  final_group_df ← lift (select (final_columns group_df) group_df);
  to_csv_file final_group_df output_path.

Definition save_data_by_year_and_team (base_output_dir : string) : M unit :=
  print (SavingInto base_output_dir);;
  merged_df ← get_table;
  if (negb (has_column "year_source" merged_df)
      || negb (has_column "team_id" merged_df))%bool then
    print ErrorMissingColumns
  else
    update_table (astype "year_source" to_int64);;
    update_table (astype "team_id" to_int64);;
    merged_df ← get_table;
    let grouped := groupby "year_source" "team_id" merged_df in
    for_each grouped (save_group base_output_dir);;
    print (SavedShots (len merged_df) (length grouped)).

End ShotCollect.

(** ** collect_data.py *)

Module CollectData.
Import Py Frame Runtime.

(** The loop that reads the files: a file that cannot be read is reported
    and skipped. *)
Fixpoint read_all (env : Env) (all_csv_files : list string) (df_list : list DataFrame)
    : M (list DataFrame) :=
  match all_csv_files with
  | [] => mret df_list
  | filename :: rest =>
      match read_csv env filename with
      | Ok df => read_all env rest (df_list ++ [df])
      | Raise e => print (CouldNotRead filename e);; read_all env rest df_list
      end
  end.

Definition sort_columns : list string := ["year"; "month"; "day"; "SHOT_ID"].

Definition combine_shot_data (env : Env) (base_dir output_file : string) : M unit :=
  if negb (isdir env base_dir) then
    print (DirectoryNotFound base_dir);;
    print RunCollectionFirst
  else
    let all_csv_files := glob_csv env base_dir in
    if bool_decide (all_csv_files = []) then
      print (NoCsvFound base_dir)
    else
      print (FoundCsv (length all_csv_files));;
      df_list ← read_all env all_csv_files [];
      if bool_decide (df_list = []) then
        print NoDataLoaded
      else
        print Combining;;
        combined_df ← lift (sort_values sort_columns (concat df_list));
        print (SavingCombined output_file);;
        to_csv_file combined_df output_file;;
        print ProcessComplete;;
        print (TotalShots (len combined_df));;
        print (SavedTo output_file).

End CollectData.

(** ** shot_collect.py: the loaders and the workflow *)

Module Loader.
Import Py Frame Runtime.

(** What the loaders print.  They change nothing else, so their output is
    kept as a log of its own, ahead of what the later stages print. *)
Inductive load_message :=
| LoadingYears (years : list Z)
| Processing (year : Z)
| Complete (rs_count ps_count : nat)
| NoDataFound
| NoDataLoadedForAnyYear
| TotalShotsLoaded (shots years : nat).

(** [pd.DataFrame()] *)
Definition empty_frame : DataFrame := {| columns := []; rows := [] |}.

(** [df.empty]: no rows or no columns. *)
Definition is_empty (df : DataFrame) : bool :=
  (bool_decide (rows df = []) || bool_decide (columns df = []))%bool.

(** [s.drop_duplicates()]: the first occurrence of each value, in order. *)
Fixpoint drop_duplicates_seen (seen l : list value) : list value :=
  match l with
  | [] => []
  | x :: l' =>
      if decide (x ∈ seen) then drop_duplicates_seen seen l'
      else x :: drop_duplicates_seen (x :: seen) l'
  end.

Definition drop_duplicates (l : list value) : list value := drop_duplicates_seen [] l.

(** [df[c] = v] for a scalar [v]. *)
Definition assign_scalar (c : string) (v : value) (df : DataFrame) : DataFrame :=
  assign c (replicate (len df) v) df.

(** One [try: ... except FileNotFoundError: pass] block: a file that is
    there is tagged with its season type and kept; a file that is not
    there is passed over; any other failure of the read is not caught. *)
Definition read_season (env : Env) (path label : string) (season_dfs : list DataFrame)
    : result (list DataFrame) :=
  match read_csv env path with
  | Ok df => Ok (season_dfs ++ [assign_scalar "season_type" (Str label) df])
  | Raise (FileNotFoundError _) => Ok season_dfs
  | Raise e => Raise e
  end.

Definition reg_season_path (base_path : string) (year : Z) (team_id : value) : string :=
  path_join (path_join base_path (dec year)) (str team_id +:+ ".csv").

Definition post_season_path (base_path : string) (year : Z) (team_id : value) : string :=
  path_join (path_join base_path (dec year +:+ "ps")) (str team_id +:+ ".csv").

(** The loop over the teams. *)
Fixpoint load_teams (env : Env) (year : Z) (base_path : string)
    (unique_teams : list value) (all_shot_data : list DataFrame)
    : result (list DataFrame) :=
  match unique_teams with
  | [] => Ok all_shot_data
  | team_id :: rest =>
      match read_season env (reg_season_path base_path year team_id) "REG" [] with
      | Raise e => Raise e
      | Ok season_dfs =>
          match read_season env (post_season_path base_path year team_id) "PS" season_dfs with
          | Raise e => Raise e
          | Ok [] => load_teams env year base_path rest all_shot_data
          | Ok season_dfs =>
              let combined_df := concat season_dfs in
              let combined_df := assign_scalar "year_source" (Int year) combined_df in
              let combined_df := assign_scalar "team_id" team_id combined_df in
              load_teams env year base_path rest (all_shot_data ++ [combined_df])
          end
      end
  end.

(** [GAME_DATES], the table read once when the module is loaded, is passed
    in. *)
Definition load_all_shot_data_for_year (env : Env) (GAME_DATES : DataFrame)
    (year : Z) (base_path : string) : result DataFrame :=
  match column "TEAM_ID" GAME_DATES with
  | Raise e => Raise e
  | Ok team_ids =>
      match load_teams env year base_path (drop_duplicates team_ids) [] with
      | Raise e => Raise e
      | Ok [] => Ok empty_frame
      | Ok all_shot_data => Ok (concat all_shot_data)
      end
  end.

(** The loop over the years, with what has been printed so far. *)
Fixpoint load_years (env : Env) (GAME_DATES : DataFrame) (base_path : string)
    (years : list Z) (all_years_data : list DataFrame) (out : list load_message)
    : result (list DataFrame) * list load_message :=
  match years with
  | [] => (Ok all_years_data, out)
  | year :: rest =>
      let out := out ++ [Processing year] in
      match load_all_shot_data_for_year env GAME_DATES year base_path with
      | Raise e => (Raise e, out)
      | Ok year_data =>
          if is_empty year_data then
            load_years env GAME_DATES base_path rest all_years_data (out ++ [NoDataFound])
          else
            match column "season_type" year_data with
            | Raise e => (Raise e, out)
            | Ok season_type =>
                let rs_count := length (List.filter (fun v => eq_str v "REG") season_type) in
                let ps_count := length (List.filter (fun v => eq_str v "PS") season_type) in
                load_years env GAME_DATES base_path rest (all_years_data ++ [year_data])
                  (out ++ [Complete rs_count ps_count])
            end
      end
  end.

Definition load_all_shot_data (env : Env) (GAME_DATES : DataFrame)
    (years : list Z) (base_path : string) : result DataFrame * list load_message :=
  match load_years env GAME_DATES base_path years [] [LoadingYears years] with
  | (Raise e, out) => (Raise e, out)
  | (Ok [], out) => (Ok empty_frame, out ++ [NoDataLoadedForAnyYear])
  | (Ok all_years_data, out) =>
      let final_df := concat all_years_data in
      (Ok final_df, out ++ [TotalShotsLoaded (len final_df) (length years)])
  end.

Definition game_dates_url : string :=
  "https://raw.githubusercontent.com/gabriel1200/shot_data/refs/heads/master/game_dates.csv".

(** The statements the script runs at top level: read [GAME_DATES], load
    the shots, and when there are any, merge and save.  The table object
    of the world is the one handed to the call in progress: first the
    loaded table, then the merged one. *)
Definition workflow (env : Env) (years : list Z)
    (base_path backup_file_path base_output_dir : string) (w : World)
    : (result unit * World) * list load_message :=
  match read_csv env game_dates_url with
  | Raise e => ((Raise e, w), [])
  | Ok GAME_DATES =>
      match load_all_shot_data env GAME_DATES years base_path with
      | (Raise e, out) => ((Raise e, w), out)
      | (Ok all_shot_data, out) =>
          if is_empty all_shot_data then ((Ok tt, w), out)
          else
            ((shot_data_with_uuid ← ShotCollect.merge_with_uuid_data env backup_file_path;
              (fun w' => (Ok tt, set_table shot_data_with_uuid w'));;
              ShotCollect.save_data_by_year_and_team base_output_dir)
               (set_table all_shot_data w),
             out)
      end
  end.

(** [range(2014, 2026)] and the default paths. *)
Definition main (env : Env) (w : World) : (result unit * World) * list load_message :=
  workflow env (seqZ 2014 12) "../shot_data/team" "../data_backup.csv"
    "shot_data_with_urls" w.

End Loader.

(** * Vocabulary of the statements *)

Import Py Frame Runtime ShotCollect CollectData.



(** Every character of [s] satisfies [p]. *)
Fixpoint all_chars (p : ascii -> bool) (s : string) : bool :=
  match s with
  | EmptyString => true
  | String c s' => (p c && all_chars p s')%bool
  end.



(** The in-place preparation of the caller's table, and the preparation
    of the backup table, as the two pipelines they are. *)
Definition prepare_shots (t : DataFrame) : result DataFrame :=
  t0 ← (if has_column "year" t then drop ["year"] t else Ok t);
  t1 ← astype "GAME_ID" to_str t0;
  astype "GAME_EVENT_ID" to_int64 t1.

Definition prepare_backup (b : DataFrame) : result DataFrame :=
  b1 ← astype "game_id" to_str b;
  b2 ← astype "action_number" to_int64 b1;
  select backup_columns b2.

(** The keys the join looks up in the mapping table: game identifier as a
    string, action number as an integer, as [merge_with_uuid_data] prepares
    them. *)
Definition mapping_keys (backup_df : DataFrame) : result (list (list (option value))) :=
  (fun right => key_of ["game_id"; "action_number"] <$> rows right)
    <$> prepare_backup backup_df.

(** The same keys as the cells stand in the mapping table that was read. *)
Definition raw_keys (backup_df : DataFrame) : list (list (option value)) :=
  key_of ["game_id"; "action_number"] <$> rows backup_df.

(** A mapping table as [read_csv] types it when no cell is missing: the
    action numbers are integers, and the game identifiers are all integers
    or all strings. *)
Definition typed_mapping (backup_df : DataFrame) : Prop :=
  (forall r, r ∈ rows backup_df ->
     exists a, lookup_label "action_number" r = Some (Int a)) /\
  ((forall r, r ∈ rows backup_df -> exists g, lookup_label "game_id" r = Some (Int g))
   \/ (forall r, r ∈ rows backup_df -> exists g, lookup_label "game_id" r = Some (Str g))).

(** The key the join uses, from the key as it stands in the table. *)
Definition coerced_key (raw : list (option value)) : list (option value) :=
  match raw with
  | [Some g; a] => [Some (Str (str g)); a]
  | _ => raw
  end.

(** The coercion of the two grouping columns, in the order of the script. *)
Definition coerce_keys (t : DataFrame) : result DataFrame :=
  t1 ← astype "year_source" to_int64 t;
  astype "team_id" to_int64 t1.

(** The frame written for a group: the group with its columns reordered. *)
Definition group_frame (g : (Z * Z) * DataFrame) : result ((Z * Z) * DataFrame) :=
  pair g.1 <$> select (final_columns g.2) g.2.

(** The path and the content of the file of a group. *)
Definition file_of (base_output_dir : string) (g : (Z * Z) * DataFrame) : string * string :=
  (output_path base_output_dir g.1.1 g.1.2, to_csv g.2).

(** Writes in sequence: a later write to a path replaces an earlier one. *)
Definition apply_writes (ws : list (string * string)) (f : gmap string string)
    : gmap string string :=
  foldl (fun f p => <[p.1 := p.2]> f) f ws.

(** The writes of the loop up to the first group that raises. *)
Fixpoint loop_writes (base_output_dir : string) (gs : list ((Z * Z) * DataFrame))
    : list (string * string) :=
  match gs with
  | [] => []
  | g :: gs' =>
      match group_frame g with
      | Ok g' => file_of base_output_dir g' :: loop_writes base_output_dir gs'
      | Raise _ => []
      end
  end.

(** The guard of [save_data_by_year_and_team]. *)
Definition lacks_key_columns (t : DataFrame) : bool :=
  (negb (has_column "year_source" t) || negb (has_column "team_id" t))%bool.

(** What a call leaves in the caller's table and what it writes, whether
    it returns or raises. *)
Definition saved_table (t : DataFrame) : DataFrame :=
  if lacks_key_columns t then t
  else
    match astype "year_source" to_int64 t with
    | Raise _ => t
    | Ok t1 =>
        match astype "team_id" to_int64 t1 with
        | Raise _ => t1
        | Ok t2 => t2
        end
    end.

Definition saved_writes (base : string) (t : DataFrame) : list (string * string) :=
  if lacks_key_columns t then []
  else
    match coerce_keys t with
    | Ok t2 => loop_writes base (groupby "year_source" "team_id" t2)
    | Raise _ => []
    end.

(** The content of the last write to [p] in a sequence of writes. *)
Fixpoint last_write (p : string) (ws : list (string * string)) : option string :=
  match ws with
  | [] => None
  | q :: ws' =>
      match last_write p ws' with
      | Some c => Some c
      | None => if decide (q.1 = p) then Some q.2 else None
      end
  end.



(** The tables read successfully, and the messages for the files that
    could not be read, in the order of the file list. *)
Definition loaded (env : Env) (all_csv_files : list string) : list DataFrame :=
  omap (fun f => match read_csv env f with Ok df => Some df | Raise _ => None end)
       all_csv_files.

Definition read_errors (env : Env) (all_csv_files : list string) : list message :=
  omap (fun f => match read_csv env f with
                 | Ok _ => None
                 | Raise e => Some (CouldNotRead f e)
                 end) all_csv_files.

(** Several messages printed in a row. *)
Definition add_stdouts (ms : list message) (w : World) : World :=
  {| table := table w; dirs := dirs w; files := files w; stdout := stdout w ++ ms |}.

(** * A worked scenario

    Three shots of two teams, and a mapping table with a video for the
    first and the third and the sentinel for the second. *)

Module Scenario.

Definition shot (game event shot_id team : Z) : Series :=
  [("GAME_ID", Int game); ("GAME_EVENT_ID", Int event); ("SHOT_ID", Int shot_id);
   ("year", Int 2021); ("year_source", Int 2021); ("team_id", Int team)].

Definition shots : DataFrame :=
  {| columns := ["GAME_ID"; "GAME_EVENT_ID"; "SHOT_ID"; "year"; "year_source"; "team_id"];
     rows := [shot 101 5 1 7; shot 101 6 2 7; shot 102 1 3 8] |}.

Definition mapping (game action day : Z) (uuid : string) : Series :=
  [("game_id", Int game); ("action_number", Int action); ("year", Int 2021);
   ("month", Int 3); ("day", Int day); ("api_game_id", Int 9999); ("uuid", Str uuid)].

Definition backup : DataFrame :=
  {| columns := backup_columns;
     rows := [mapping 101 5 4 "abc"; mapping 101 6 4 "NO_VIDEO"; mapping 102 1 2 "def"] |}.

Definition backup_path : string := "../data_backup.csv".
Definition base_output_dir : string := "shot_data_with_urls".
Definition output_file : string := "all_shot_data_combined.csv".

(** The partition files exist on disk; one more CSV file cannot be read. *)
Definition env : Env :=
  {| read_csv := fun path =>
       if decide (path = backup_path) then Ok backup
       else if decide (path = "shot_data_with_urls/2021/7.csv") then
         Ok {| columns := ["SHOT_ID"; "year"; "month"; "day"];
               rows := [ [("SHOT_ID", Int 2); ("year", Int 2021); ("month", Int 3); ("day", Int 4)];
                         [("SHOT_ID", Int 1); ("year", Int 2021); ("month", Int 3); ("day", Int 4)];
                         [("SHOT_ID", Int 1); ("year", Int 2021); ("month", Int 3); ("day", Int 4)] ] |}
       else if decide (path = "shot_data_with_urls/2021/8.csv") then
         Ok {| columns := ["SHOT_ID"; "year"; "month"; "day"];
               rows := [ [("SHOT_ID", Int 3); ("year", Int 2021); ("month", Int 3); ("day", Int 2)] ] |}
       else Raise (FileNotFoundError path);
     isdir := fun path => bool_decide (path = base_output_dir);
     glob_csv := fun path =>
       if decide (path = base_output_dir) then
         ["shot_data_with_urls/2021/7.csv"; "shot_data_with_urls/2021/broken.csv";
          "shot_data_with_urls/2021/8.csv"]
       else [] |}.

Definition world : World :=
  {| table := shots; dirs := ∅; files := ∅; stdout := [] |}.

(** The table [merge_with_uuid_data] returns, and the world after it. *)
Definition merged : DataFrame :=
  match (merge_with_uuid_data env backup_path world).1 with
  | Ok df => df
  | Raise _ => shots
  end.

Definition after_merge : World := (merge_with_uuid_data env backup_path world).2.

Definition first_row : Series := default [] (head (rows merged)).

(** [save_data_by_year_and_team(shot_data_with_uuid)] is then called on the
    returned table. *)
Definition enriched_world : World := set_table merged after_merge.

Definition coerced : DataFrame :=
  match coerce_keys merged with
  | Ok t => t
  | Raise _ => merged
  end.

Definition keys : list (list (option value)) :=
  match mapping_keys backup with
  | Ok ks => ks
  | Raise _ => []
  end.

End Scenario.

(** * More vocabulary *)

(** No column of the shot table bears the name of a mapping column. *)
Definition no_label_clash (t : DataFrame) : Prop :=
  Forall (fun c => c ∉ backup_columns) (columns t).

(** The mapping columns that stay in the merged table. *)
Definition mapping_fields : list string := ["year"; "month"; "day"; "api_game_id"; "uuid"].

(** The columns after [df['video_url'] = ...]. *)
Definition with_video_url (cs : list string) : list string :=
  if decide ("video_url"%string ∈ cs) then cs else cs ++ ["video_url"%string].

(** The keys of the join on the two sides. *)
Definition shot_key (shot : Series) : list (option value) :=
  key_of ["GAME_ID"; "GAME_EVENT_ID"] shot.

Definition mapping_key (m : Series) : list (option value) :=
  key_of ["game_id"; "action_number"] m.




(** The two files of a team for a year, with the label each is tagged
    with. *)
Definition season_paths (base_path : string) (year : Z) (team_id : value)
    : list (string * string) :=
  [(Loader.reg_season_path base_path year team_id, "REG"%string);
   (Loader.post_season_path base_path year team_id, "PS"%string)].

(** Those of them that can be read, tagged. *)
Definition season_frames (env : Env) (base_path : string) (year : Z) (team_id : value)
    : list DataFrame :=
  omap (fun pl : string * string =>
          match read_csv env pl.1 with
          | Ok df => Some (Loader.assign_scalar "season_type" (Str pl.2) df)
          | Raise _ => None
          end) (season_paths base_path year team_id).

(** The table of a team for a year, when it has a file. *)
Definition team_frame (env : Env) (base_path : string) (year : Z) (team_id : value)
    : option DataFrame :=
  match season_frames env base_path year team_id with
  | [] => None
  | season_dfs =>
      Some (Loader.assign_scalar "team_id" team_id
              (Loader.assign_scalar "year_source" (Int year) (concat season_dfs)))
  end.

(** A read the loader survives: the file is read, or it is not there. *)
Definition found_or_absent (env : Env) (path : string) : Prop :=
  match read_csv env path with
  | Ok _ => True
  | Raise (FileNotFoundError _) => True
  | Raise _ => False
  end.

(** The files the loader reads for a year, team after team. *)
Definition year_paths (base_path : string) (year : Z) (teams : list value) : list string :=
  teams ≫= (fun team_id => (season_paths base_path year team_id).*1).

(** The table of a year: the tables of the teams that have a file, one
    after the other. *)
Definition year_frame (env : Env) (base_path : string) (year : Z) (teams : list value)
    : DataFrame :=
  match omap (team_frame env base_path year) teams with
  | [] => Loader.empty_frame
  | all_shot_data => concat all_shot_data
  end.

(** The labels the loader adds. *)
Definition tag_columns : list string := ["season_type"; "year_source"; "team_id"].

(** The years the log says were processed, and the shots it reports for
    them. *)
Definition processed_years (out : list Loader.load_message) : list Z :=
  omap (fun m => match m with Loader.Processing year => Some year | _ => None end) out.

Definition reported_shots (out : list Loader.load_message) : nat :=
  sum_list (omap (fun m => match m with
                           | Loader.Complete rs_count ps_count => Some (rs_count + ps_count)%nat
                           | _ => None
                           end) out).

(** A row as [pd.concat] lays it out among the frames [dfs]. *)
Definition laid_out (dfs : list DataFrame) (r : Series) : Series :=
  let cols := union_columns dfs in
  let filled := reindex cols <$> (dfs ≫= rows) in
  let cells c := (fun r => default NaN (lookup_label c r)) <$> filled in
  let float64 c := (negb (existsb is_str (cells c)) && negb (forallb is_int (cells c)))%bool in
  (fun p : string * value => if float64 p.1 then (p.1, to_float p.2) else p)
    <$> reindex cols r.

(** Where a loaded row comes from: the team, the season label, the file
    and the row of the file. *)
Definition source : Type := value * string * DataFrame * Series.

(** The rows of the files of a team, regular season first, and of all
    the teams, in the order the loader reads them. *)
Definition team_sources (env : Env) (base_path : string) (year : Z) (team_id : value)
    : list source :=
  pl ← season_paths base_path year team_id;
  match read_csv env pl.1 with
  | Ok file => (fun r => (team_id, pl.2, file, r)) <$> rows file
  | Raise _ => []
  end.

Definition year_sources (env : Env) (base_path : string) (year : Z) (teams : list value)
    : list source :=
  teams ≫= team_sources env base_path year.

(** What the loader makes of a row of a file. *)
Definition team_row (env : Env) (base_path : string) (year : Z) (s : source) : Series :=
  set_cell "team_id" s.1.1.1
    (set_cell "year_source" (Int year)
       (laid_out (season_frames env base_path year s.1.1.1)
          (set_cell "season_type" (Str s.1.1.2) s.2))).

Definition year_row (env : Env) (base_path : string) (year : Z) (teams : list value)
    (s : source) : Series :=
  laid_out (omap (team_frame env base_path year) teams) (team_row env base_path year s).

(** A loaded row carries the tags of its source and the cells of the
    row of the file. *)
Definition loaded_from (year : Z) (s : source) (row : Series) : Prop :=
  lookup_label "season_type" row = Some (Str s.1.1.2) /\
  lookup_label "year_source" row = Some (Int year) /\
  (lookup_label "team_id" row = Some s.1.1.1
   \/ lookup_label "team_id" row = Some (to_float s.1.1.1)) /\
  forall c, c ∈ columns s.1.2 -> c ∉ tag_columns ->
    lookup_label c row = Some (default NaN (lookup_label c s.2)) \/
    lookup_label c row = Some (to_float (default NaN (lookup_label c s.2))).

(** A computation that touches neither the caller's table nor the disk. *)
Definition quiet {A} (m : M A) : Prop :=
  forall w r w', m w = (r, w') ->
    table w' = table w /\ dirs w' = dirs w /\ files w' = files w.

(** * A season on disk

    The registry lists team 7 twice and team 8 once.  For 2021 team 7 has
    a regular-season file and a postseason file and team 8 a
    regular-season file; for 2020 there is no file at all. *)

Module Season.
Import Loader.

Definition raw_shot (game event shot_id : Z) : Series :=
  [("GAME_ID", Int game); ("GAME_EVENT_ID", Int event); ("SHOT_ID", Int shot_id)].

Definition raw_columns : list string := ["GAME_ID"; "GAME_EVENT_ID"; "SHOT_ID"].

Definition game_dates : DataFrame :=
  {| columns := ["TEAM_ID"];
     rows := [ [("TEAM_ID", Int 7)]; [("TEAM_ID", Int 8)]; [("TEAM_ID", Int 7)] ] |}.

Definition base_path : string := "../shot_data/team".

Definition env : Env :=
  {| read_csv := fun path =>
       if decide (path = game_dates_url) then Ok game_dates
       else if decide (path = Scenario.backup_path) then Ok Scenario.backup
       else if decide (path = "../shot_data/team/2021/7.csv") then
         Ok {| columns := raw_columns; rows := [raw_shot 101 5 1; raw_shot 101 6 2] |}
       else if decide (path = "../shot_data/team/2021ps/7.csv") then
         Ok {| columns := raw_columns; rows := [raw_shot 103 9 4] |}
       else if decide (path = "../shot_data/team/2021/8.csv") then
         Ok {| columns := raw_columns; rows := [raw_shot 102 1 3] |}
       else Raise (FileNotFoundError path);
     isdir := fun _ => false;
     glob_csv := fun _ => [] |}.

(** The same disk with a file for team 8 in 2020 that cannot be parsed. *)
Definition env_broken : Env :=
  {| read_csv := fun path =>
       if decide (path = "../shot_data/team/2020/8.csv") then Raise ValueError
       else read_csv env path;
     isdir := isdir env;
     glob_csv := glob_csv env |}.

Definition years : list Z := [2020; 2021].

Definition year_2021 : DataFrame :=
  match load_all_shot_data_for_year env game_dates 2021 base_path with
  | Ok df => df
  | Raise _ => empty_frame
  end.

Definition loaded_shots : DataFrame :=
  match (load_all_shot_data env game_dates years base_path).1 with
  | Ok df => df
  | Raise _ => empty_frame
  end.

Definition load_log : list load_message :=
  (load_all_shot_data env game_dates years base_path).2.

Definition after_workflow : World :=
  (workflow env years base_path Scenario.backup_path Scenario.base_output_dir
     Scenario.world).1.2.

(** The workflow's call of [merge_with_uuid_data] on what was loaded. *)
Definition loaded_world : World := set_table loaded_shots Scenario.world.

Definition merged : DataFrame :=
  match (merge_with_uuid_data env Scenario.backup_path loaded_world).1 with
  | Ok df => df
  | Raise _ => empty_frame
  end.

Definition after_merge : World :=
  (merge_with_uuid_data env Scenario.backup_path loaded_world).2.

(** The mapping table as the join sees it. *)
Definition mapping_table : DataFrame :=
  match prepare_backup Scenario.backup with
  | Ok df => df
  | Raise _ => empty_frame
  end.

(** The postseason shot of team 7, which has no mapping row. *)
Definition unmatched_row : Series := default [] (rows merged !! 2%nat).

(** The same shot as it stands in the caller's table after the merge. *)
Definition raw_shot_prepared : Series := default [] (rows (table after_merge) !! 2%nat).

(** [save_data_by_year_and_team(shot_data_with_uuid)] on the merged table. *)
Definition enriched_world : World := set_table merged after_merge.

Definition coerced : DataFrame :=
  match coerce_keys merged with
  | Ok t => t
  | Raise _ => merged
  end.



(** A directory of partition files none of which has a [month] column. *)
Definition env_without_month : Env :=
  {| read_csv := fun path =>
       if decide (path = "shot_data_with_urls/2021/7.csv") then
         Ok {| columns := ["SHOT_ID"; "year"];
               rows := [ [("SHOT_ID", Int 1); ("year", Int 2021)] ] |}
       else Raise (FileNotFoundError path);
     isdir := fun _ => true;
     glob_csv := fun _ => ["shot_data_with_urls/2021/7.csv"] |}.

(** A mapping file that lacks the [uuid] column. *)
Definition backup_without_uuid : DataFrame :=
  {| columns := ["game_id"; "action_number"; "year"; "month"; "day"; "api_game_id"];
     rows := [ [("game_id", Int 101); ("action_number", Int 5); ("year", Int 2021);
                ("month", Int 3); ("day", Int 4); ("api_game_id", Int 9999)] ] |}.

Definition env_without_uuid : Env :=
  {| read_csv := fun path =>
       if decide (path = Scenario.backup_path) then Ok backup_without_uuid
       else read_csv env path;
     isdir := isdir env;
     glob_csv := glob_csv env |}.

Definition failed_merge : result DataFrame * World :=
  merge_with_uuid_data env_without_uuid Scenario.backup_path Scenario.world.

End Season.

(** * Facts about the embedding *)

(** ** Decimal rendering *)

Section Decimal.

Lemma all_chars_app p s t :
  all_chars p (s +:+ t) = (all_chars p s && all_chars p t)%bool.
Proof.
  induction s as [|c s IH]; simpl; [done|].
  rewrite IH. by rewrite andb_assoc.
Qed.







Lemma to_int_nonnil z : Z.to_int z <> Decimal.Pos Decimal.Nil /\ Z.to_int z <> Decimal.Neg Decimal.Nil.
Proof.
  destruct z; simpl; split; try discriminate;
    intros [= H]; by apply DecimalPos.Unsigned.to_uint_nonnil in H.
Qed.

Lemma dec_inj a b : dec a = dec b -> a = b.
Proof.
  unfold dec. intros H. apply DecimalZ.to_int_inj.
  destruct (to_int_nonnil a), (to_int_nonnil b).
  apply (f_equal NilZero.int_of_string) in H.
  rewrite !NilZero.isi in H by done. congruence.
Qed.




End Decimal.

(** ** Running a computation *)

Section Monad.

Lemma bind_run {A B} (m : M A) (f : A -> M B) w :
  (m ≫= f) w =
  match m w with
  | (Ok a, w1) => f a w1
  | (Raise e, w1) => (Raise e, w1)
  end.
Proof. done. Qed.

Lemma bind_Ok {A B} (m : M A) (f : A -> M B) w b w' :
  (m ≫= f) w = (Ok b, w') ->
  exists a w1, m w = (Ok a, w1) /\ f a w1 = (Ok b, w').
Proof.
  rewrite bind_run. destruct (m w) as [[a|e] w1]; [eauto | done].
Qed.

Lemma lift_Ok {A} (r : result A) w a w' :
  lift r w = (Ok a, w') -> r = Ok a /\ w' = w.
Proof. unfold lift. by intros [= -> ->]. Qed.

Lemma print_Ok m w u w' : print m w = (Ok u, w') -> w' = add_stdout m w.
Proof. unfold print. by intros [= <-]. Qed.

Lemma get_table_Ok w df w' : get_table w = (Ok df, w') -> df = table w /\ w' = w.
Proof. unfold get_table. by intros [= <- <-]. Qed.

Lemma update_table_Ok f w u w' :
  update_table f w = (Ok u, w') ->
  exists df, f (table w) = Ok df /\ w' = set_table df w.
Proof.
  unfold update_table. destruct (f (table w)) as [df|e]; [|done].
  intros [= <-]. eauto.
Qed.

End Monad.

(** Takes a successful run apart, statement by statement. *)
Ltac run_inv H :=
  repeat match type of H with
  | (_ ≫= _) _ = (Ok _, _) =>
      let a := fresh "a" in let w := fresh "w" in let H1 := fresh "Hrun" in
      apply bind_Ok in H as (a & w & H1 & H);
      first
        [ apply print_Ok in H1; subst w
        | apply get_table_Ok in H1 as [-> ->]
        | apply lift_Ok in H1 as [H1 ->]
        | apply update_table_Ok in H1 as (? & H1 & ->)
        | idtac ]
  | mret _ _ = (Ok _, _) => injection H as <- <-
  end.

(** ** Tables *)

Section FrameFacts.

Lemma traverse_Forall2 {A B} (f : A -> result B) xs ys :
  traverse f xs = Ok ys -> Forall2 (fun x y => f x = Ok y) xs ys.
Proof.
  revert ys. induction xs as [|x xs IH]; simpl; intros ys.
  - intros [= <-]. constructor.
  - destruct (f x) as [y|] eqn:Hx; [|done].
    destruct (traverse f xs) as [ys'|]; [|done].
    intros [= <-]. constructor; auto.
Qed.

Lemma traverse_length {A B} (f : A -> result B) xs ys :
  traverse f xs = Ok ys -> length ys = length xs.
Proof. intros H%traverse_Forall2. symmetry. by eapply Forall2_length. Qed.

Lemma lookup_set_cell_eq c v r : lookup_label c (set_cell c v r) = Some v.
Proof.
  unfold set_cell. destruct (lookup_label c r) as [x|] eqn:Hl.
  - induction r as [|[k y] r IH]; simpl in *; [done|].
    destruct (decide (k = c)); simpl.
    + by rewrite decide_True.
    + rewrite decide_False by done. auto.
  - induction r as [|[k y] r IH]; simpl in *.
    + by rewrite decide_True.
    + destruct (decide (k = c)); [done|auto].
Qed.

Lemma lookup_set_cell_ne c c' v r :
  c <> c' -> lookup_label c' (set_cell c v r) = lookup_label c' r.
Proof.
  intros Hne. unfold set_cell. destruct (lookup_label c r) as [x|] eqn:Hl; clear Hl.
  - induction r as [|[k y] r IH]; simpl in *; [done|].
    destruct (decide (k = c)); simpl.
    + subst k. by rewrite !decide_False.
    + destruct (decide (k = c')); auto.
  - induction r as [|[k y] r IH]; simpl in *.
    + by rewrite decide_False.
    + destruct (decide (k = c')); auto.
Qed.



(** A row of a table after [df[c] = apply(f)] is a row of the table before,
    with [f] of that row under [c]. *)
Lemma assign_apply_rows f c df vals row :
  apply f df = Ok vals ->
  row ∈ rows (assign c vals df) ->
  exists r v, r ∈ rows df /\ f r = Ok v /\ row = set_cell c v r.
Proof.
  unfold apply, assign. simpl. intros H%traverse_Forall2.
  induction H as [|r v rs vs Hf _ IH]; simpl.
  - by intros ?%elem_of_nil.
  - intros [->|Hin]%elem_of_cons.
    + exists r, v. split; [left|done].
    + destruct (IH Hin) as (r' & v' & ? & ? & ?). exists r', v'. split; [by right|done].
Qed.

Lemma assign_apply_length f c df vals :
  apply f df = Ok vals -> len (assign c vals df) = len df.
Proof.
  unfold apply, assign, len. simpl. intros H%traverse_length.
  rewrite length_zip_with. lia.
Qed.

Lemma astype_Ok c conv df df' :
  astype c conv df = Ok df' ->
  columns df' = columns df /\
  Forall2 (Forall2 (fun p q => convert_cell c conv p = Ok q)) (rows df) (rows df').
Proof.
  unfold astype. destruct (has_column c df); [|done].
  destruct (traverse (traverse (convert_cell c conv)) (rows df)) as [rs|] eqn:Hrs; [|done].
  intros [= <-]. split; [done|]. simpl.
  apply traverse_Forall2 in Hrs.
  eapply Forall2_impl; [done|]. intros r r' ?. by apply traverse_Forall2.
Qed.

Lemma astype_len c conv df df' : astype c conv df = Ok df' -> len df' = len df.
Proof. intros [_ H]%astype_Ok. unfold len. symmetry. by eapply Forall2_length. Qed.

Lemma drop_Ok cs df df' :
  drop cs df = Ok df' ->
  columns df' = filter (fun c => c ∉ cs) (columns df) /\
  rows df' = (fun r : Series => filter (fun p => p.1 ∉ cs) r) <$> rows df.
Proof.
  unfold drop. destruct (filter _ cs); [|done]. by intros [= <-].
Qed.

Lemma drop_len cs df df' : drop cs df = Ok df' -> len df' = len df.
Proof. intros [_ H]%drop_Ok. unfold len. by rewrite H, length_fmap. Qed.

Lemma filter_key_unique {A K} `{EqDecision K} (f : A -> K) (k : K) (l : list A) :
  NoDup (f <$> l) -> (length (filter (fun x => f x = k) l) <= 1)%nat.
Proof.
  induction l as [|x l IH]; simpl; [lia|].
  intros [Hx Hl]%NoDup_cons. rewrite filter_cons.
  destruct (decide (f x = k)) as [<-|]; [|auto].
  assert (filter (fun y => f y = f x) l = []) as ->; [|simpl; lia].
  destruct (filter (fun y => f y = f x) l) as [|y ys] eqn:E; [done|].
  assert (y ∈ filter (fun y => f y = f x) l) as [Hfy Hy]%list_elem_of_filter
    by (rewrite E; left).
  exfalso. apply Hx. rewrite <- Hfy. apply list_elem_of_fmap. eauto.
Qed.

Lemma bind_length_ge {A B} (g : A -> list B) (l : list A) :
  (forall x, x ∈ l -> (1 <= length (g x))%nat) -> (length l <= length (l ≫= g))%nat.
Proof.
  induction l as [|x l IH]; [simpl; lia|]. intros H.
  rewrite bind_cons, length_app. assert (Hx := H x ltac:(left)).
  assert (length l <= length (l ≫= g))%nat; [|simpl; lia].
  apply IH. intros y Hy. apply H. by right.
Qed.

Lemma bind_length_one {A B} (g : A -> list B) (l : list A) :
  (forall x, x ∈ l -> length (g x) = 1%nat) -> length (l ≫= g) = length l.
Proof.
  induction l as [|x l IH]; [done|]. intros H.
  rewrite bind_cons, length_app, (H x) by left. simpl. f_equal.
  apply IH. intros y Hy. apply H. by right.
Qed.

Lemma Forall2_elem_of_r {A B} (R : A -> B -> Prop) l k y :
  Forall2 R l k -> y ∈ k -> exists x, x ∈ l /\ R x y.
Proof.
  intros HF (i & Hi)%list_elem_of_lookup.
  destruct (Forall2_lookup_r _ _ _ _ _ HF Hi) as (x & Hx & HR).
  exists x. split; [|done]. apply list_elem_of_lookup. eauto.
Qed.


(** Where a cell of a table comes from after [astype] on column [c]. *)
Lemma astype_cells c conv df df' r' k v :
  astype c conv df = Ok df' -> r' ∈ rows df' -> (k, v) ∈ r' ->
  exists r v0, r ∈ rows df /\ (k, v0) ∈ r /\
    if decide (k = c) then conv v0 = Ok v else v0 = v.
Proof.
  intros [_ HF]%astype_Ok Hr' Hv.
  destruct (Forall2_elem_of_r _ _ _ _ HF Hr') as (r & Hr & Hrr').
  destruct (Forall2_elem_of_r _ _ _ _ Hrr' Hv) as ([k0 v0] & Hp & Hconv).
  unfold convert_cell in Hconv. simpl in Hconv.
  destruct (decide (k0 = c)) as [->|Hne].
  - destruct (conv v0) as [v1|] eqn:Hc; [|done]. injection Hconv as <- <-.
    exists r, v0. rewrite decide_True by done. done.
  - injection Hconv as <- <-. exists r, v0. rewrite decide_False by done. done.
Qed.

Lemma to_str_is_str v v' : to_str v = Ok v' -> is_str v' = true.
Proof. by intros [= <-]. Qed.

Lemma to_int64_is_int v v' : to_int64 v = Ok v' -> is_int v' = true.
Proof.
  unfold to_int64. destruct (int v); [|done]. case_bool_decide; [|done]. by intros [= <-].
Qed.

(** A left join keeps every row of the left table, and keeps it once when
    no key occurs twice on the right. *)
Lemma merge_left_len left right left_on right_on joined :
  merge_left left right left_on right_on = Ok joined ->
  (len left <= len joined)%nat /\
  (NoDup (key_of right_on <$> rows right) -> len joined = len left).
Proof.
  unfold merge_left.
  destruct (filter _ left_on); [|done]. destruct (filter _ right_on); [|done].
  intros [= <-]. unfold len. simpl. split.
  - apply bind_length_ge. intros l _. rewrite length_fmap.
    destruct (matches left_on right_on l right); simpl; lia.
  - intros Hnd. apply bind_length_one. intros l _. rewrite length_fmap.
    assert (Hle := filter_key_unique (key_of right_on) (key_of left_on l) _ Hnd).
    fold (matches left_on right_on l right) in Hle.
    destruct (matches left_on right_on l right) as [|r [|r' ms]]; simpl in *; [done|done|lia].
Qed.

Lemma traverse_fixed {A} (f : A -> result A) xs :
  Forall (fun x => f x = Ok x) xs -> traverse f xs = Ok xs.
Proof. induction 1 as [|x xs Hx _ IH]; simpl; [done|]. by rewrite Hx, IH. Qed.

(** [astype] changes nothing in a column whose cells already convert to
    themselves. *)
Lemma astype_fixed c conv t :
  has_column c t = true ->
  (forall r v, r ∈ rows t -> (c, v) ∈ r -> conv v = Ok v) ->
  astype c conv t = Ok t.
Proof.
  intros Hc Hfix. unfold astype. rewrite Hc.
  rewrite traverse_fixed; [by destruct t|].
  apply Forall_forall. intros r Hr. apply traverse_fixed, Forall_forall.
  intros [k v] Hv. unfold convert_cell. simpl.
  destruct (decide (k = c)) as [->|]; [|done]. by rewrite (Hfix r v).
Qed.

Lemma to_int64_fixed v v' : to_int64 v = Ok v' -> to_int64 v' = Ok v'.
Proof.
  unfold to_int64. destruct (int v) as [z|]; [|done].
  case_bool_decide as Hz; [|done]. intros [= <-]. simpl. by rewrite bool_decide_true.
Qed.

Lemma astype_has_column c conv t t' c' :
  astype c conv t = Ok t' -> has_column c' t' = has_column c' t.
Proof. intros [Hc _]%astype_Ok. unfold has_column. by rewrite Hc. Qed.


Lemma lookup_label_is_Some c r : c ∈ r.*1 -> is_Some (lookup_label c r).
Proof.
  induction r as [|[k x] r IH]; simpl; [by intros ?%elem_of_nil|].
  destruct (decide (k = c)); [eauto|]. intros [?|?]%elem_of_cons; [congruence|auto].
Qed.

Lemma reindex_labels cs r : (reindex cs r).*1 = cs.
Proof. unfold reindex. induction cs as [|c cs IH]; simpl; [done|]. by f_equal. Qed.

Lemma lookup_reindex cs r c :
  c ∈ cs -> lookup_label c (reindex cs r) = Some (default NaN (lookup_label c r)).
Proof.
  unfold reindex. induction cs as [|c' cs IH]; simpl; [by intros ?%elem_of_nil|].
  destruct (decide (c' = c)) as [->|]; [done|].
  intros [?|?]%elem_of_cons; [congruence|auto].
Qed.

Lemma traverse_get_reindex cs r r' :
  traverse (fun c => pair c <$> get r c) cs = Ok r' -> r' = reindex cs r.
Proof.
  revert r'. induction cs as [|c cs IH]; simpl; intros r'; [by intros [= <-]|].
  unfold get at 1. destruct (lookup_label c r) as [v|]; [|done]. simpl.
  destruct (traverse _ cs) as [r''|]; [|done]. intros [= <-].
  by rewrite (IH r'').
Qed.

Lemma select_Ok cs df df' :
  select cs df = Ok df' -> columns df' = cs /\ rows df' = reindex cs <$> rows df.
Proof.
  unfold select. destruct (filter _ cs); [|done].
  destruct (traverse _ (rows df)) as [rs|] eqn:Hrs; [|done]. intros [= <-]. simpl.
  split; [done|]. apply traverse_Forall2 in Hrs.
  induction Hrs as [|r r' rs rs' Hr _ IH]; simpl; [done|].
  f_equal; [|done]. by apply traverse_get_reindex.
Qed.

Lemma filter_none {B} (P : B -> Prop) `{forall x, Decision (P x)} (l : list B) :
  Forall (fun x => ~ P x) l -> filter P l = [].
Proof.
  induction 1 as [|x l Hx _ IH]; [done|]. by rewrite filter_cons_False.
Qed.



End FrameFacts.

(** * shot_collect.py: the enrichment join *)

Section Merge.


Lemma merge_with_uuid_data_Ok env backup_file_path w merged_df w' :
  merge_with_uuid_data env backup_file_path w = (Ok merged_df, w') ->
  exists backup_df shots right joined trimmed urls,
    read_csv env backup_file_path = Ok backup_df /\
    prepare_shots (table w) = Ok shots /\
    prepare_backup backup_df = Ok right /\
    merge_left shots right ["GAME_ID"; "GAME_EVENT_ID"] ["game_id"; "action_number"]
      = Ok joined /\
    drop ["game_id"; "action_number"] joined = Ok trimmed /\
    apply generate_video_url trimmed = Ok urls /\
    merged_df = assign "video_url" urls trimmed /\
    table w' = shots.
Proof.
  intros Hrun. unfold merge_with_uuid_data in Hrun. run_inv Hrun.
  lazymatch goal with
  | H : (if _ then _ else _) _ = (Ok _, ?x) |- _ => rename H into Hyear, x into w1
  end.
  assert (Hprep : exists t0, (if has_column "year" (table w) then drop ["year"] (table w)
                              else Ok (table w)) = Ok t0 /\ table w1 = t0).
  { simpl in Hyear. destruct (has_column "year" (table w)).
    - apply update_table_Ok in Hyear as (t0 & Ht0 & ->). by exists t0.
    - injection Hyear as _ <-. by eexists. }
  destruct Hprep as (t0 & Ht0 & Hw1). simpl in *. rewrite Hw1 in *.
  lazymatch goal with H : astype "GAME_ID" _ _ = _ |- _ => rename H into Ht1 end.
  lazymatch goal with H : astype "GAME_EVENT_ID" _ _ = _ |- _ => rename H into Ht2 end.
  lazymatch goal with H : astype "game_id" _ _ = _ |- _ => rename H into Hb1 end.
  lazymatch goal with H : astype "action_number" _ _ = _ |- _ => rename H into Hb2 end.
  lazymatch goal with H : select _ _ = _ |- _ => rename H into Hsel end.
  eexists _, _, _, _, _, _. split; [done|]. split.
  { unfold prepare_shots. rewrite Ht0. simpl. rewrite Ht1. simpl. done. }
  split.
  { unfold prepare_backup. rewrite Hb1. simpl. rewrite Hb2. simpl. exact Hsel. }
  repeat split; try done.
Qed.

Lemma convert_lookup c conv r r' k :
  Forall2 (fun p q => convert_cell c conv p = Ok q) r r' ->
  match lookup_label k r with
  | Some v =>
      exists v', lookup_label k r' = Some v' /\
                 if decide (k = c) then conv v = Ok v' else v' = v
  | None => lookup_label k r' = None
  end.
Proof.
  induction 1 as [|[k0 v0] q r r' Hq _ IH]; simpl; [done|].
  unfold convert_cell in Hq. simpl in Hq. destruct (decide (k0 = c)) as [->|Hne].
  - destruct (conv v0) as [v0'|] eqn:Hc; [|done]. injection Hq as <-. simpl.
    destruct (decide (c = k)) as [<-|]; [|done].
    exists v0'. by rewrite decide_True.
  - injection Hq as <-. simpl. destruct (decide (k0 = k)) as [<-|]; [|done].
    exists v0. by rewrite decide_False.
Qed.

Lemma Forall2_fmap_eq {A B C} (f : A -> C) (g : B -> C) l k :
  Forall2 (fun x y => g y = f x) l k -> g <$> k = f <$> l.
Proof.
  induction 1 as [|x y l k Hxy _ IH]; [done|]. rewrite !fmap_cons. by rewrite Hxy, IH.
Qed.

(** On a typed mapping table the keys the join uses are pairwise distinct
    as soon as the keys in the table are. *)
Lemma mapping_keys_typed backup_df keys :
  mapping_keys backup_df = Ok keys ->
  typed_mapping backup_df ->
  NoDup (raw_keys backup_df) -> NoDup keys.
Proof.
  unfold mapping_keys, prepare_backup. intros Hkeys [Hact Hgame] Hnd.
  destruct (astype "game_id" to_str backup_df) as [b1|] eqn:H1; simpl in Hkeys; [|done].
  destruct (astype "action_number" to_int64 b1) as [b2|] eqn:H2; simpl in Hkeys; [|done].
  destruct (select backup_columns b2) as [right|] eqn:H3; simpl in Hkeys; [|done].
  injection Hkeys as <-.
  apply select_Ok in H3 as [_ ->]. apply astype_Ok in H1 as [_ H1], H2 as [_ H2].
  assert (Hkey : key_of ["game_id"; "action_number"] <$> (reindex backup_columns <$> rows b2)
                 = coerced_key <$> raw_keys backup_df).
  { unfold raw_keys. rewrite <- !list_fmap_compose.
    apply Forall2_fmap_eq.
    assert (HF : Forall2 (fun r r2 : Series =>
                   r ∈ rows backup_df /\
                   exists r1, Forall2 (fun p q => convert_cell "game_id" to_str p = Ok q) r r1
                           /\ Forall2 (fun p q => convert_cell "action_number" to_int64 p = Ok q) r1 r2)
                 (rows backup_df) (rows b2)).
    { clear -H1 H2. revert H2. generalize (rows b2).
      induction H1 as [|r r1 rs rs1 Hr _ IH]; intros rs2 H2;
        inversion H2 as [|? r2 ? rs2' Hr2 Hrs2]; subst; constructor.
      - split; [left|eauto].
      - eapply Forall2_impl; [by apply IH|]. intros ?? [? ?]. split; [by right|done]. }
    eapply Forall2_impl; [exact HF|]. intros r r2 (Hr & r1 & Hr1 & Hr2). simpl.
    assert (Hg := convert_lookup _ _ _ _ "game_id" Hr1).
    assert (Ha := convert_lookup _ _ _ _ "action_number" Hr1).
    assert (Hg2 := convert_lookup _ _ _ _ "game_id" Hr2).
    assert (Ha2 := convert_lookup _ _ _ _ "action_number" Hr2).
    destruct (Hact r Hr) as [a Hra]. rewrite Hra in Ha |- *.
    destruct Ha as (a1 & Ha1 & ->). rewrite Ha1 in Ha2.
    destruct Ha2 as (a2 & -> & Hconv). simpl in Hconv. unfold to_int64 in Hconv.
    simpl in Hconv. case_bool_decide; [|done]. injection Hconv as <-.
    assert (exists g, lookup_label "game_id" r = Some g) as [g Hrg].
    { destruct Hgame as [Hgame|Hgame]; destruct (Hgame r Hr) as [g ->]; eauto. }
    rewrite Hrg in Hg |- *. destruct Hg as (g1 & Hg1 & Hconv). simpl in Hconv.
    injection Hconv as <-. rewrite Hg1 in Hg2. destruct Hg2 as (g2 & -> & ->). done. }
  rewrite Hkey. apply NoDup_fmap_2_strong; [|done].
  intros k1 k2 (r1 & -> & Hr1)%list_elem_of_fmap (r2 & -> & Hr2)%list_elem_of_fmap.
  unfold key_of. simpl.
  destruct (Hact r1 Hr1) as [a1 ->], (Hact r2 Hr2) as [a2 ->].
  destruct Hgame as [Hgame|Hgame];
    destruct (Hgame r1 Hr1) as [g1 ->], (Hgame r2 Hr2) as [g2 ->]; simpl;
    intros [= Hg ->]; [apply dec_inj in Hg|]; by subst.
Qed.

End Merge.




(** The scenario of the specification: the shot with token [abc] gets the
    URL built from 2021, 3, 4, 9999 and event 5; the shot with the
    sentinel gets none. *)
Example scenario_video_urls :
  column "video_url" Scenario.merged
  = Ok [Str "https://videos.nba.com/nba/pbp/media/2021/3/4/9999/5/abc_1280x720.mp4";
        NaN;
        Str "https://videos.nba.com/nba/pbp/media/2021/3/2/9999/1/def_1280x720.mp4"].
Proof. vm_compute. reflexivity. Qed.

Lemma prepare_shots_len t shots : prepare_shots t = Ok shots -> len shots = len t.
Proof.
  unfold prepare_shots. intros H.
  destruct (if has_column "year" t then drop ["year"] t else Ok t) as [t0|] eqn:H0;
    simpl in H; [|done].
  destruct (astype "GAME_ID" to_str t0) as [t1|] eqn:H1; simpl in H; [|done].
  apply astype_len in H, H1. rewrite H, H1.
  destruct (has_column "year" t); [by eapply drop_len|congruence].
Qed.

(** C2.  The table [merge_with_uuid_data] returns never has fewer rows than
    the shot table it was given, and when no (game identifier, action
    number) key occurs twice in the mapping table it has exactly as many:
    the left join neither drops nor repeats a shot. *)
Theorem merge_preserves_row_count env backup_file_path w merged_df w' backup_df keys :
  merge_with_uuid_data env backup_file_path w = (Ok merged_df, w') ->
  read_csv env backup_file_path = Ok backup_df ->
  mapping_keys backup_df = Ok keys ->
  (len (table w) <= len merged_df)%nat /\
  (NoDup keys -> len merged_df = len (table w)).
Proof.
  intros Hrun Hread Hkeys.
  apply merge_with_uuid_data_Ok in Hrun
    as (backup' & shots & right & joined & trimmed & urls
        & Hread' & Hshots & Hright & Hjoin & Hdrop & Hurls & -> & _).
  assert (backup' = backup_df) as -> by congruence.
  unfold mapping_keys in Hkeys. rewrite Hright in Hkeys. injection Hkeys as <-.
  rewrite (assign_apply_length _ _ _ _ Hurls), (drop_len _ _ _ Hdrop).
  rewrite <- (prepare_shots_len _ _ Hshots).
  by apply merge_left_len in Hjoin.
Qed.

Lemma merge_preserves_row_count_witness :
  merge_with_uuid_data Scenario.env Scenario.backup_path Scenario.world
    = (Ok Scenario.merged, Scenario.after_merge) /\
  read_csv Scenario.env Scenario.backup_path = Ok Scenario.backup /\
  mapping_keys Scenario.backup = Ok Scenario.keys /\
  (len (table Scenario.world) <= len Scenario.merged)%nat /\
  (NoDup Scenario.keys -> len Scenario.merged = len (table Scenario.world)).
Proof.
  assert (Hrun : merge_with_uuid_data Scenario.env Scenario.backup_path Scenario.world
                 = (Ok Scenario.merged, Scenario.after_merge)) by (vm_compute; reflexivity).
  assert (Hread : read_csv Scenario.env Scenario.backup_path = Ok Scenario.backup)
    by (vm_compute; reflexivity).
  assert (Hkeys : mapping_keys Scenario.backup = Ok Scenario.keys)
    by (vm_compute; reflexivity).
  split; [exact Hrun|]. split; [exact Hread|]. split; [exact Hkeys|].
  exact (merge_preserves_row_count _ _ _ _ _ _ _ Hrun Hread Hkeys).
Defined.

(** In the scenario no key occurs twice and the three shots come out as
    three rows. *)
Example scenario_row_count :
  NoDup Scenario.keys /\ len Scenario.merged = len Scenario.shots.
Proof. split; [apply (bool_decide_unpack _); vm_compute; exact I | reflexivity]. Qed.

(** Without the uniqueness of the mapping keys the join repeats a shot:
    with a second mapping row for game 101, action 5, the three shots come
    out as four rows. *)
Example repeated_mapping_key_repeats_shot :
  let backup := {| columns := backup_columns;
                   rows := rows Scenario.backup ++ [Scenario.mapping 101 5 4 "xyz"] |} in
  let env := {| read_csv := fun _ => Ok backup;
                isdir := fun _ => false; glob_csv := fun _ => [] |} in
  len <$> (merge_with_uuid_data env Scenario.backup_path Scenario.world).1 = Ok 4%nat.
Proof. vm_compute. reflexivity. Qed.

(** A shot without a mapping row keeps its place with missing values; the
    numeric mapping columns are then float64, which shows in the
    substituted [api_game_id]. *)
Example unmatched_shot_has_no_url :
  let backup := {| columns := backup_columns;
                   rows := firstn 1 (rows Scenario.backup) |} in
  let env := {| read_csv := fun _ => Ok backup;
                isdir := fun _ => false; glob_csv := fun _ => [] |} in
  (merge_with_uuid_data env Scenario.backup_path Scenario.world).1 ≫= column "video_url"
  = Ok [Str "https://videos.nba.com/nba/pbp/media/2021/3/4/9999.0/5/abc_1280x720.mp4";
        NaN; NaN].
Proof. vm_compute. reflexivity. Qed.

Lemma prepare_shots_Ok t shots :
  prepare_shots t = Ok shots ->
  has_column "year" shots = false /\
  (forall r v, r ∈ rows shots -> ("GAME_ID"%string, v) ∈ r -> is_str v = true) /\
  (forall r v, r ∈ rows shots -> ("GAME_EVENT_ID"%string, v) ∈ r -> is_int v = true).
Proof.
  unfold prepare_shots. intros H.
  destruct (if has_column "year" t then drop ["year"] t else Ok t) as [t0|] eqn:H0;
    simpl in H; [|done].
  destruct (astype "GAME_ID" to_str t0) as [t1|] eqn:H1; simpl in H; [|done].
  split; [|split].
  - destruct (astype_Ok _ _ _ _ H) as [Hc2 _], (astype_Ok _ _ _ _ H1) as [Hc1 _].
    unfold has_column. rewrite Hc2, Hc1. apply bool_decide_eq_false.
    destruct (has_column "year" t) eqn:Hy.
    + apply drop_Ok in H0 as [-> _]. intros [Hn _]%list_elem_of_filter.
      apply Hn. left.
    + injection H0 as <-. by apply bool_decide_eq_false in Hy.
  - intros r v Hr Hv.
    destruct (astype_cells _ _ _ _ _ _ _ H Hr Hv) as (r1 & v1 & Hr1 & Hv1 & Hc).
    rewrite decide_False in Hc by done. subst v1.
    destruct (astype_cells _ _ _ _ _ _ _ H1 Hr1 Hv1) as (r0 & v0 & _ & _ & Hc).
    rewrite decide_True in Hc by done. by eapply to_str_is_str.
  - intros r v Hr Hv.
    destruct (astype_cells _ _ _ _ _ _ _ H Hr Hv) as (r1 & v1 & _ & _ & Hc).
    rewrite decide_True in Hc by done. by eapply to_int64_is_int.
Qed.

(** C9.  [merge_with_uuid_data] changes the table object it is given: after
    the call the caller's table has no [year] column, its [GAME_ID] cells
    are strings and its [GAME_EVENT_ID] cells are integers.  So whenever
    the table had a [year] column, a [GAME_ID] that was not a string or a
    [GAME_EVENT_ID] that was not an integer, the caller's table after the
    call differs from the one before. *)
Theorem merge_mutates_caller_table env backup_file_path w merged_df w' :
  merge_with_uuid_data env backup_file_path w = (Ok merged_df, w') ->
  prepare_shots (table w) = Ok (table w') /\
  has_column "year" (table w') = false /\
  (forall r v, r ∈ rows (table w') -> ("GAME_ID"%string, v) ∈ r -> is_str v = true) /\
  (forall r v, r ∈ rows (table w') -> ("GAME_EVENT_ID"%string, v) ∈ r -> is_int v = true) /\
  (has_column "year" (table w) = true
   \/ (exists r v, r ∈ rows (table w) /\ ("GAME_ID"%string, v) ∈ r /\ is_str v = false)
   \/ (exists r v, r ∈ rows (table w) /\ ("GAME_EVENT_ID"%string, v) ∈ r /\ is_int v = false)
   -> table w' <> table w).
Proof.
  intros Hrun.
  apply merge_with_uuid_data_Ok in Hrun
    as (backup_df & shots & right & joined & trimmed & urls
        & _ & Hshots & _ & _ & _ & _ & _ & ->).
  destruct (prepare_shots_Ok _ _ Hshots) as (Hyear & Hgame & Hevent).
  do 4 (split; [done|]).
  intros [Hy | [(r & v & Hr & Hv & Hs) | (r & v & Hr & Hv & Hi)]] Heq; subst shots.
  - congruence.
  - rewrite (Hgame r v Hr Hv) in Hs. done.
  - rewrite (Hevent r v Hr Hv) in Hi. done.
Qed.

Lemma merge_mutates_caller_table_witness :
  merge_with_uuid_data Scenario.env Scenario.backup_path Scenario.world
    = (Ok Scenario.merged, Scenario.after_merge) /\
  prepare_shots (table Scenario.world) = Ok (table Scenario.after_merge) /\
  has_column "year" (table Scenario.after_merge) = false /\
  (forall r v, r ∈ rows (table Scenario.after_merge) ->
     ("GAME_ID"%string, v) ∈ r -> is_str v = true) /\
  (forall r v, r ∈ rows (table Scenario.after_merge) ->
     ("GAME_EVENT_ID"%string, v) ∈ r -> is_int v = true) /\
  (has_column "year" (table Scenario.world) = true
   \/ (exists r v, r ∈ rows (table Scenario.world)
                   /\ ("GAME_ID"%string, v) ∈ r /\ is_str v = false)
   \/ (exists r v, r ∈ rows (table Scenario.world)
                   /\ ("GAME_EVENT_ID"%string, v) ∈ r /\ is_int v = false)
   -> table Scenario.after_merge <> table Scenario.world).
Proof.
  assert (Hrun : merge_with_uuid_data Scenario.env Scenario.backup_path Scenario.world
                 = (Ok Scenario.merged, Scenario.after_merge)) by (vm_compute; reflexivity).
  split; [exact Hrun|].
  exact (merge_mutates_caller_table _ _ _ _ _ Hrun).
Defined.

(** In the scenario the caller's table had a [year] column and integer
    game identifiers, so the call changed it. *)
Example scenario_table_changed : table Scenario.after_merge <> table Scenario.world.
Proof. vm_compute. discriminate. Qed.

(** ** The stable sort *)

Section Sort.
Context {A : Type} (leb : A -> A -> bool).

Lemma insert_sorted_perm x l : insert_sorted leb x l ≡ₚ x :: l.
Proof.
  induction l as [|y l IH]; simpl; [done|].
  destruct (leb x y); [done|]. rewrite IH. apply Permutation_swap.
Qed.

Lemma stable_sort_perm l : stable_sort leb l ≡ₚ l.
Proof.
  induction l as [|x l IH]; simpl; [done|].
  rewrite insert_sorted_perm. by f_equiv.
Qed.

Hypothesis leb_total : forall x y, leb x y = false -> leb y x = true.

Lemma insert_sorted_Sorted x l :
  Sorted (fun a b => leb a b = true) l ->
  Sorted (fun a b => leb a b = true) (insert_sorted leb x l).
Proof.
  induction 1 as [|y l Hl IH Hhd]; simpl.
  - repeat constructor.
  - destruct (leb x y) eqn:Hxy.
    + constructor; [by constructor|]. by constructor.
    + constructor; [done|].
      destruct l as [|z l]; simpl.
      * constructor. by apply leb_total.
      * destruct (leb x z); constructor; [by apply leb_total|].
        by inversion Hhd.
Qed.

Lemma stable_sort_Sorted l : Sorted (fun a b => leb a b = true) (stable_sort leb l).
Proof.
  induction l as [|x l IH]; simpl; [constructor|]. by apply insert_sorted_Sorted.
Qed.

(** Stability: elements that the order does not tell apart keep their
    relative order. *)
Lemma insert_sorted_filter (P : A -> Prop) `{forall x, Decision (P x)} x l :
  (forall y, P x -> P y -> leb x y = true) ->
  filter P (insert_sorted leb x l) = filter P (x :: l).
Proof.
  intros HP. induction l as [|y l IH]; simpl; [done|].
  destruct (leb x y) eqn:Hxy; [done|].
  rewrite filter_cons, IH, !(filter_cons _ x), (filter_cons _ y).
  destruct (decide (P y)) as [Hy|]; [|done].
  destruct (decide (P x)) as [Hx|]; [|done].
  rewrite HP in Hxy; done.
Qed.

Lemma stable_sort_filter (P : A -> Prop) `{forall x, Decision (P x)} l :
  (forall x y, P x -> P y -> leb x y = true) ->
  filter P (stable_sort leb l) = filter P l.
Proof.
  intros HP. induction l as [|x l IH]; simpl; [done|].
  rewrite insert_sorted_filter by auto. by rewrite !filter_cons, IH.
Qed.

End Sort.

(** ** Paths of the partition files *)

Section Paths.










End Paths.

(** * shot_collect.py: the partition writer *)

Section Partition.

Lemma save_group_run base g w :
  exists ds,
    save_group base g w =
    match group_frame g with
    | Ok g' => (Ok tt, write_file (file_of base g').1 (file_of base g').2 (add_dirs ds w))
    | Raise e => (Raise e, add_dirs ds w)
    end.
Proof.
  destruct g as [[year team_id] group_df]. unfold save_group, group_frame, file_of.
  eexists. rewrite bind_run. unfold makedirs at 1. rewrite bind_run. unfold lift at 1.
  simpl. destruct (select (final_columns group_df) group_df); simpl; done.
Qed.

Lemma for_each_save_group base gs w :
  let r := for_each gs (save_group base) w in
  table r.2 = table w /\ stdout r.2 = stdout w /\
  files r.2 = apply_writes (loop_writes base gs) (files w) /\
  (r.1 = Ok tt <-> exists gs', traverse group_frame gs = Ok gs') /\
  (forall gs', traverse group_frame gs = Ok gs' ->
     loop_writes base gs = file_of base <$> gs').
Proof.
  revert w. induction gs as [|g gs IH]; intros w; simpl.
  { repeat split; eauto. by intros gs' [= <-]. }
  rewrite bind_run. destruct (save_group_run base g w) as [ds ->].
  destruct (group_frame g) as [g'|e] eqn:Hg; simpl.
  - specialize (IH (write_file (file_of base g').1 (file_of base g').2 (add_dirs ds w))).
    simpl in IH. destruct IH as (Ht & Hs & Hf & Hr & Hw).
    split; [done|]. split; [done|]. split; [done|]. split.
    + rewrite Hr. split.
      * intros [gs' ->]. eauto.
      * intros [gs' H]. destruct (traverse group_frame gs); [eauto|done].
    + intros gs' H. destruct (traverse group_frame gs) as [gs''|]; [|done].
      injection H as <-. simpl. f_equal. by apply Hw.
  - repeat split; try done.
    + by intros [gs' ?].
Qed.

Lemma save_run base w :
  save_data_by_year_and_team base w =
  let w0 := add_stdout (SavingInto base) w in
  if lacks_key_columns (table w) then (Ok tt, add_stdout ErrorMissingColumns w0)
  else
    match astype "year_source" to_int64 (table w) with
    | Raise e => (Raise e, w0)
    | Ok t1 =>
        match astype "team_id" to_int64 t1 with
        | Raise e => (Raise e, set_table t1 w0)
        | Ok t2 =>
            let gs := groupby "year_source" "team_id" t2 in
            let r := for_each gs (save_group base) (set_table t2 w0) in
            match r.1 with
            | Ok _ => (Ok tt, add_stdout (SavedShots (len t2) (length gs)) r.2)
            | Raise e => (Raise e, r.2)
            end
        end
    end.
Proof.
  unfold save_data_by_year_and_team, lacks_key_columns.
  rewrite bind_run. unfold print at 1. rewrite bind_run. unfold get_table at 1.
  simpl. destruct (negb _ || negb _)%bool; [done|].
  rewrite bind_run. unfold update_table at 1. simpl.
  destruct (astype "year_source" to_int64 (table w)) as [t1|]; [|done].
  rewrite bind_run. unfold update_table at 1. simpl.
  destruct (astype "team_id" to_int64 t1) as [t2|]; [|done].
  rewrite bind_run. unfold get_table at 1. simpl. rewrite bind_run.
  change (set_table t2 (set_table t1 (add_stdout (SavingInto base) w)))
    with (set_table t2 (add_stdout (SavingInto base) w)).
  destruct (for_each _ _ _) as [[[]|e] w1]; done.
Qed.

Lemma save_effect base w :
  table (save_data_by_year_and_team base w).2 = saved_table (table w) /\
  files (save_data_by_year_and_team base w).2
    = apply_writes (saved_writes base (table w)) (files w).
Proof.
  rewrite save_run. unfold saved_table, saved_writes, coerce_keys. simpl.
  destruct (lacks_key_columns (table w)); [done|].
  destruct (astype "year_source" to_int64 (table w)) as [t1|]; [|done]. simpl.
  destruct (astype "team_id" to_int64 t1) as [t2|]; [|done].
  destruct (for_each_save_group base (groupby "year_source" "team_id" t2)
              (set_table t2 (add_stdout (SavingInto base) w))) as (Ht & _ & Hf & _).
  destruct (for_each _ _ _) as [[[]|e] w1]; simpl in *; done.
Qed.


Lemma apply_writes_lookup ws f p :
  apply_writes ws f !! p = from_option Some (f !! p) (last_write p ws).
Proof.
  revert f. induction ws as [|q ws IH]; intros f; simpl; [done|].
  unfold apply_writes in *. simpl. rewrite IH.
  destruct (last_write p ws); simpl; [done|].
  rewrite lookup_insert. destruct (decide (q.1 = p)); done.
Qed.

Lemma apply_writes_idem ws f : apply_writes ws (apply_writes ws f) = apply_writes ws f.
Proof.
  apply map_eq. intros p. rewrite !apply_writes_lookup.
  destruct (last_write p ws); done.
Qed.



Lemma coerce_keys_fixed t t2 : coerce_keys t = Ok t2 -> coerce_keys t2 = Ok t2.
Proof.
  unfold coerce_keys. intros H.
  destruct (astype "year_source" to_int64 t) as [t1|] eqn:H1; simpl in H; [|done].
  assert (Hy : has_column "year_source" t = true).
  { unfold astype in H1. by destruct (has_column "year_source" t). }
  assert (Ht : has_column "team_id" t1 = true).
  { unfold astype in H. by destruct (has_column "team_id" t1). }
  rewrite astype_fixed; simpl.
  - apply astype_fixed.
    + by rewrite (astype_has_column _ _ _ _ _ H).
    + intros r v Hr Hv.
      destruct (astype_cells _ _ _ _ _ _ _ H Hr Hv) as (r1 & v1 & _ & _ & Hc).
      rewrite decide_True in Hc by done. by eapply to_int64_fixed.
  - by rewrite (astype_has_column _ _ _ _ _ H), (astype_has_column _ _ _ _ _ H1).
  - intros r v Hr Hv.
    destruct (astype_cells _ _ _ _ _ _ _ H Hr Hv) as (r1 & v1 & Hr1 & Hv1 & Hc).
    rewrite decide_False in Hc by done. subst v1.
    destruct (astype_cells _ _ _ _ _ _ _ H1 Hr1 Hv1) as (r0 & v0 & _ & _ & Hc).
    rewrite decide_True in Hc by done. by eapply to_int64_fixed.
Qed.

Lemma saved_writes_saved_table base t :
  saved_writes base (saved_table t) = saved_writes base t.
Proof.
  unfold saved_table. destruct (lacks_key_columns t) eqn:Hl; [done|].
  destruct (astype "year_source" to_int64 t) as [t1|] eqn:H1; [|done].
  destruct (astype "team_id" to_int64 t1) as [t2|] eqn:H2.
  - assert (Hco : coerce_keys t = Ok t2) by (unfold coerce_keys; by rewrite H1).
    unfold saved_writes. rewrite Hl, Hco, (coerce_keys_fixed _ _ Hco).
    unfold lacks_key_columns in *.
    by rewrite !(astype_has_column _ _ _ _ _ H2), !(astype_has_column _ _ _ _ _ H1), Hl.
  - unfold saved_writes, coerce_keys. rewrite Hl, H1. simpl. rewrite H2.
    unfold lacks_key_columns in *. rewrite !(astype_has_column _ _ _ _ _ H1), Hl.
    rewrite astype_fixed; simpl; [by rewrite H2| |].
    + rewrite (astype_has_column _ _ _ _ _ H1).
      unfold astype in H1. by destruct (has_column "year_source" t).
    + intros r v Hr Hv.
      destruct (astype_cells _ _ _ _ _ _ _ H1 Hr Hv) as (r0 & v0 & _ & _ & Hc).
      rewrite decide_True in Hc by done. by eapply to_int64_fixed.
Qed.

End Partition.

Section Groups.

Lemma bind_ext_in {A B} (g h : A -> list B) (l : list A) :
  (forall x, x ∈ l -> g x = h x) -> l ≫= g = l ≫= h.
Proof.
  induction l as [|x l IH]; intros H; [done|].
  rewrite !bind_cons, (H x) by left. f_equal. apply IH. intros y Hy. apply H. by right.
Qed.



End Groups.

Section Written.









End Written.

(** C7.  A table without the [year_source] column or without the [team_id]
    column: the call prints the error message and returns; no file and no
    directory is created or changed, and the table is left alone. *)
Theorem save_without_key_columns base_output_dir w :
  has_column "year_source" (table w) = false \/ has_column "team_id" (table w) = false ->
  exists w',
    save_data_by_year_and_team base_output_dir w = (Ok tt, w') /\
    files w' = files w /\ dirs w' = dirs w /\ table w' = table w /\
    stdout w' = stdout w ++ [SavingInto base_output_dir; ErrorMissingColumns].
Proof.
  intros H. rewrite save_run. simpl.
  assert (lacks_key_columns (table w) = true) as ->.
  { unfold lacks_key_columns. destruct H as [-> | ->]; [done|]. apply orb_true_r. }
  eexists. split; [done|]. simpl. by rewrite <- app_assoc.
Qed.

Lemma save_without_key_columns_witness :
  (has_column "year_source" (table (set_table Scenario.backup Scenario.world)) = false
   \/ has_column "team_id" (table (set_table Scenario.backup Scenario.world)) = false) /\
  exists w',
    save_data_by_year_and_team Scenario.base_output_dir
      (set_table Scenario.backup Scenario.world) = (Ok tt, w') /\
    files w' = files (set_table Scenario.backup Scenario.world) /\
    dirs w' = dirs (set_table Scenario.backup Scenario.world) /\
    table w' = table (set_table Scenario.backup Scenario.world) /\
    stdout w' = stdout (set_table Scenario.backup Scenario.world)
                ++ [SavingInto Scenario.base_output_dir; ErrorMissingColumns].
Proof.
  assert (H : has_column "year_source" (table (set_table Scenario.backup Scenario.world)) = false
              \/ has_column "team_id" (table (set_table Scenario.backup Scenario.world)) = false)
    by (left; vm_compute; reflexivity).
  split; [exact H|].
  exact (save_without_key_columns _ _ H).
Defined.

(** C6.  A second run of [save_data_by_year_and_team] with the same output
    directory leaves every file as the first run left it, whether it is
    given the table object the first run was given (which the first run
    coerced in place) or the table as it was before: a write replaces the
    file, it does not add to it. *)
Theorem save_twice_same_files base_output_dir w :
  let w1 := (save_data_by_year_and_team base_output_dir w).2 in
  files (save_data_by_year_and_team base_output_dir w1).2 = files w1 /\
  files (save_data_by_year_and_team base_output_dir (set_table (table w) w1)).2 = files w1.
Proof.
  simpl.
  destruct (save_effect base_output_dir w) as [Ht Hf].
  split.
  - destruct (save_effect base_output_dir (save_data_by_year_and_team base_output_dir w).2)
      as [_ Hf'].
    rewrite Hf', Ht, saved_writes_saved_table, Hf. apply apply_writes_idem.
  - destruct (save_effect base_output_dir
                (set_table (table w) (save_data_by_year_and_team base_output_dir w).2))
      as [_ Hf'].
    rewrite Hf'. simpl. rewrite Hf. apply apply_writes_idem.
Qed.



(** The two files of the scenario. *)
Example scenario_partition_files :
  map_to_list
    (files (save_data_by_year_and_team Scenario.base_output_dir Scenario.enriched_world).2)
  = [("shot_data_with_urls/2021/7.csv"%string,
      to_csv {| columns := final_columns Scenario.merged;
                rows := reindex (final_columns Scenario.merged)
                          <$> firstn 2 (rows Scenario.merged) |});
     ("shot_data_with_urls/2021/8.csv"%string,
      to_csv {| columns := final_columns Scenario.merged;
                rows := reindex (final_columns Scenario.merged)
                          <$> skipn 2 (rows Scenario.merged) |})].
Proof. vm_compute. reflexivity. Qed.



Lemma bind_length_sum {A B} (f : A -> list B) (l : list A) :
  length (l ≫= f) = sum_list ((fun x => length (f x)) <$> l).
Proof.
  induction l as [|x l IH]; [done|]. rewrite bind_cons, length_app, IH. done.
Qed.



(** * collect_data.py: the combiner *)

Section SortOrder.

Lemma string_compare_refl s : String.compare s s = Eq.
Proof.
  induction s as [|c s IH]; simpl; [done|].
  unfold Ascii.compare. by rewrite N.compare_refl.
Qed.

Lemma string_compare_trans s1 s2 s3 :
  String.compare s1 s2 = Lt -> String.compare s2 s3 = Lt -> String.compare s1 s3 = Lt.
Proof.
  intros H12 H23.
  assert (Hle : String.le s1 s3).
  { transitivity s2; unfold String.le, String.leb; [by rewrite H12|by rewrite H23]. }
  unfold String.le, String.leb in Hle.
  destruct (String.compare s1 s3) eqn:H13; [|done|done].
  apply String.compare_eq_iff in H13 as ->.
  rewrite String.compare_antisym, H23 in H12. done.
Qed.

Lemma skey_compare_refl a : skey_compare a a = Eq.
Proof. destruct a; simpl; [apply Z.compare_refl|apply string_compare_refl|done]. Qed.

Lemma skey_compare_eq a b : skey_compare a b = Eq -> a = b.
Proof.
  destruct a, b; simpl; try done.
  - by intros ->%Z.compare_eq.
  - by intros ->%String.compare_eq_iff.
Qed.

Lemma skey_compare_antisym a b : skey_compare a b = CompOpp (skey_compare b a).
Proof.
  destruct a, b; simpl; try done.
  - apply Z.compare_antisym.
  - apply String.compare_antisym.
Qed.

Lemma skey_compare_trans a b c :
  skey_compare a b = Lt -> skey_compare b c = Lt -> skey_compare a c = Lt.
Proof.
  destruct a, b, c; simpl; try done.
  - rewrite !Z.compare_lt_iff. lia.
  - apply string_compare_trans.
Qed.

Lemma lex_compare_refl a : lex_compare a a = Eq.
Proof. induction a as [|x a IH]; simpl; [done|]. by rewrite skey_compare_refl. Qed.

Lemma lex_compare_eq a b : lex_compare a b = Eq -> a = b.
Proof.
  revert b. induction a as [|x a IH]; intros [|y b]; simpl; try done.
  destruct (skey_compare x y) eqn:Hxy; try done.
  apply skey_compare_eq in Hxy as ->. by intros ->%IH.
Qed.

Lemma lex_compare_antisym a b : lex_compare a b = CompOpp (lex_compare b a).
Proof.
  revert b. induction a as [|x a IH]; intros [|y b]; simpl; try done.
  rewrite (skey_compare_antisym x y). destruct (skey_compare y x); simpl; auto.
Qed.

Lemma lex_compare_trans a b c :
  lex_compare a b = Lt -> lex_compare b c = Lt -> lex_compare a c = Lt.
Proof.
  revert b c. induction a as [|x a IH]; intros [|y b] [|z c]; simpl; try done.
  destruct (skey_compare x y) eqn:Hxy; try done.
  - apply skey_compare_eq in Hxy as ->.
    destruct (skey_compare y z); try done. apply IH.
  - destruct (skey_compare y z) eqn:Hyz; try done.
    + apply skey_compare_eq in Hyz as ->. by rewrite Hxy.
    + by rewrite (skey_compare_trans _ _ _ Hxy Hyz).
Qed.

Lemma row_leb_total by_ r1 r2 : row_leb by_ r1 r2 = false -> row_leb by_ r2 r1 = true.
Proof.
  unfold row_leb. rewrite (lex_compare_antisym (row_key by_ r2)).
  by destruct (lex_compare (row_key by_ r1) (row_key by_ r2)).
Qed.

Lemma row_leb_same_key by_ r1 r2 :
  row_key by_ r1 = row_key by_ r2 -> row_leb by_ r1 r2 = true.
Proof. unfold row_leb. intros ->. by rewrite lex_compare_refl. Qed.

Lemma row_leb_trans by_ :
  Transitive (fun r1 r2 => row_leb by_ r1 r2 = true).
Proof.
  intros r1 r2 r3. unfold row_leb.
  destruct (lex_compare (row_key by_ r1) (row_key by_ r2)) eqn:H12; [| |done].
  - apply lex_compare_eq in H12 as ->. done.
  - destruct (lex_compare (row_key by_ r2) (row_key by_ r3)) eqn:H23; [| |done].
    + apply lex_compare_eq in H23 as <-. by rewrite H12.
    + by rewrite (lex_compare_trans _ _ _ H12 H23).
Qed.

(** What [sort_values] returns when it returns. *)
Lemma sort_values_Ok by_ df sorted :
  sort_values by_ df = Ok sorted ->
  columns sorted = columns df /\
  StronglySorted (fun r1 r2 => row_leb by_ r1 r2 = true) (rows sorted) /\
  rows sorted ≡ₚ rows df /\
  forall k, filter (fun r => row_key by_ r = k) (rows sorted)
            = filter (fun r => row_key by_ r = k) (rows df).
Proof.
  unfold sort_values. destruct (filter _ by_); [|done].
  destruct (existsb _ by_); [done|]. intros [= <-]. simpl.
  split; [done|]. split; [|split].
  - apply Sorted_StronglySorted; [apply row_leb_trans|].
    apply stable_sort_Sorted, row_leb_total.
  - apply stable_sort_perm.
  - intros k. apply stable_sort_filter. intros r1 r2 H1 H2.
    apply row_leb_same_key. congruence.
Qed.


End SortOrder.

Section Combine.

Lemma read_all_run env fs acc w :
  read_all env fs acc w = (Ok (acc ++ loaded env fs), add_stdouts (read_errors env fs) w).
Proof.
  revert acc w. induction fs as [|f fs IH]; intros acc w; simpl.
  - unfold add_stdouts. rewrite !app_nil_r. by destruct w.
  - unfold loaded, read_errors. simpl. destruct (read_csv env f) as [df|e]; simpl.
    + rewrite IH. by rewrite <- app_assoc.
    + rewrite bind_run. unfold print at 1. rewrite IH. unfold add_stdouts, add_stdout.
      simpl. by rewrite <- app_assoc.
Qed.


(** The run when the directory exists and at least one file was read. *)
Lemma combine_run_loaded env base_dir output_file w :
  isdir env base_dir = true ->
  loaded env (glob_csv env base_dir) <> [] ->
  let fs := glob_csv env base_dir in
  let w1 := add_stdouts (FoundCsv (length fs) :: read_errors env fs ++ [Combining]) w in
  combine_shot_data env base_dir output_file w =
  match sort_values sort_columns (concat (loaded env fs)) with
  | Ok combined_df =>
      (Ok tt,
       add_stdouts [ProcessComplete; TotalShots (len combined_df); SavedTo output_file]
         (write_file output_file (to_csv combined_df)
            (add_stdouts [SavingCombined output_file] w1)))
  | Raise e => (Raise e, w1)
  end.
Proof.
  intros Hdir Hload. simpl. unfold combine_shot_data. rewrite Hdir. simpl.
  case_bool_decide as Hfs.
  { rewrite Hfs in Hload. done. }
  rewrite bind_run. unfold print at 1. rewrite bind_run, read_all_run. simpl.
  rewrite bool_decide_false by done.
  rewrite bind_run. unfold print at 1. rewrite bind_run. unfold lift at 1.
  assert (Hw : forall ms1 ms2 w0, add_stdouts ms2 (add_stdouts ms1 w0) = add_stdouts (ms1 ++ ms2) w0).
  { intros. unfold add_stdouts. simpl. by rewrite <- app_assoc. }
  destruct (sort_values sort_columns _) as [combined|e].
  - repeat (rewrite bind_run; unfold print, to_csv_file; simpl).
    unfold add_stdouts, add_stdout, write_file. simpl.
    rewrite <- !app_assoc. simpl. rewrite <- !app_assoc. done.
  - unfold add_stdouts, add_stdout. simpl. rewrite <- !app_assoc. done.
Qed.


End Combine.



(** The combined file of the scenario: the row of the second file comes
    first, and the two rows with the same key keep their order. *)
Example scenario_combined_rows :
  (fun df : DataFrame => (fun r : Series => r.*2) <$> rows df)
    <$> sort_values sort_columns
          (concat (loaded Scenario.env (glob_csv Scenario.env Scenario.base_output_dir)))
  = Ok [[Int 3; Int 2021; Int 3; Int 2];
        [Int 1; Int 2021; Int 3; Int 4];
        [Int 1; Int 2021; Int 3; Int 4];
        [Int 2; Int 2021; Int 3; Int 4]].
Proof. vm_compute. reflexivity. Qed.





(** * More about the join *)

Section JoinRows.

Lemma lookup_label_None c (r : Series) : c ∉ r.*1 -> lookup_label c r = None.
Proof.
  induction r as [|[k v] r IH]; simpl; [done|].
  intros [Hk Hr]%not_elem_of_cons. rewrite decide_False by done. auto.
Qed.

Lemma lookup_label_app c (r1 r2 : Series) :
  lookup_label c (r1 ++ r2)
  = match lookup_label c r1 with
    | Some v => Some v
    | None => lookup_label c r2
    end.
Proof.
  induction r1 as [|[k v] r1 IH]; simpl; [done|]. by destruct (decide (k = c)).
Qed.

Lemma lookup_label_filter c (cs : list string) (r : list (string * value)) :
  c ∉ cs -> lookup_label c (filter (fun p : string * value => p.1 ∉ cs) r) = lookup_label c r.
Proof.
  intros Hc. induction r as [|[k v] r IH]; [done|].
  rewrite filter_cons. simpl. destruct (decide (k ∉ cs)) as [Hk|Hk]; simpl.
  - destruct (decide (k = c)); done.
  - rewrite IH. destruct (decide (k = c)) as [->|]; [|done]. by destruct Hk.
Qed.

Lemma filter_labels (cs : list string) (r : list (string * value)) :
  (filter (fun p : string * value => p.1 ∉ cs) r).*1 = filter (fun c => c ∉ cs) r.*1.
Proof.
  induction r as [|[k v] r IH]; [done|]. rewrite fmap_cons, !filter_cons.
  change ((k, v).1) with k. destruct (decide (k ∉ cs)); [|done].
  by rewrite fmap_cons, IH.
Qed.

Lemma relabel_nil sfx (r : Series) : relabel (suffixed [] sfx) r = r.
Proof.
  unfold relabel. induction r as [|[k v] r IH]; [done|]. rewrite fmap_cons, IH.
  unfold suffixed, prod_map. simpl. done.
Qed.

Lemma fmap_suffixed_nil sfx (cs : list string) : suffixed [] sfx <$> cs = cs.
Proof.
  induction cs as [|c cs IH]; [done|]. rewrite fmap_cons, IH.
  unfold suffixed. rewrite decide_False; [done|]. apply not_elem_of_nil.
Qed.

(** A cell of the mapping table as it arrives in the joined table: as it
    was, or turned into a float. *)
Lemma widened_cells (b : bool) (f : string -> bool) (m : Series) :
  Forall2 (fun p q : string * value => q.1 = p.1 /\ (q.2 = p.2 \/ q.2 = to_float p.2))
    m ((fun p : string * value => if (b && f p.1)%bool then (p.1, to_float p.2) else p) <$> m).
Proof.
  induction m as [|p m IH]; [constructor|]. rewrite fmap_cons. constructor; [|done].
  destruct (b && f p.1)%bool; simpl; auto.
Qed.

(** The rows of a left join between tables that share no label. *)
Lemma merge_left_rows left right left_on right_on joined :
  merge_left left right left_on right_on = Ok joined ->
  Forall (fun c => c ∉ columns right) (columns left) ->
  columns joined = columns left ++ columns right /\
  forall row, row ∈ rows joined ->
    exists l, l ∈ rows left /\
      ((matches left_on right_on l right = []
        /\ row = l ++ ((fun c => (c, NaN)) <$> columns right))
       \/ (exists m m', m ∈ rows right
             /\ key_of right_on m = key_of left_on l
             /\ row = l ++ m'
             /\ Forall2 (fun p q : string * value =>
                           q.1 = p.1 /\ (q.2 = p.2 \/ q.2 = to_float p.2)) m m')).
Proof.
  unfold merge_left. intros Hm Hdis.
  destruct (filter _ left_on); [|done]. destruct (filter _ right_on); [|done].
  assert (Hov : filter (fun c => c ∈ columns right) (columns left) = []).
  { apply filter_none. eapply Forall_impl; [exact Hdis|]. by intros c Hc Hn. }
  rewrite Hov in Hm. injection Hm as <-. simpl. rewrite !fmap_suffixed_nil.
  split; [done|]. intros row (l & Hrow & Hl)%list_elem_of_bind.
  exists l. split; [done|]. rewrite relabel_nil in Hrow.
  apply list_elem_of_fmap in Hrow as (rpart & -> & Hr).
  destruct (decide (matches left_on right_on l right = [])) as [He|Hne].
  - left. split; [done|]. rewrite He in Hr. by apply list_elem_of_singleton in Hr as ->.
  - right.
    assert (Hr' : exists m, m ∈ matches left_on right_on l right /\
              rpart = relabel (suffixed [] "_y")
                ((fun p : string * value =>
                    if (existsb (fun l : Series =>
                                   bool_decide (matches left_on right_on l right = []))
                          (rows left) && int64_column p.1 right)%bool
                    then (p.1, to_float p.2) else p) <$> m)).
    { destruct (matches left_on right_on l right) as [|m0 ms]; [done|].
      apply elem_of_cons in Hr as [->|Hr].
      - exists m0. split; [left|done].
      - apply list_elem_of_fmap in Hr as (m & -> & Hm). exists m. split; [by right|done]. }
    destruct Hr' as (m & Hin & ->).
    apply list_elem_of_filter in Hin as [Hkey Hin].
    eexists m, _. split; [done|]. split; [done|]. split; [by rewrite relabel_nil|].
    apply (widened_cells _ (fun c => int64_column c right)).
Qed.

End JoinRows.

Section MergedRows.

Lemma Forall2_cells_lookup (R : value -> value -> Prop) c (m m' : Series) :
  Forall2 (fun p q : string * value => q.1 = p.1 /\ R p.2 q.2) m m' ->
  match lookup_label c m with
  | Some v => exists v', lookup_label c m' = Some v' /\ R v v'
  | None => lookup_label c m' = None
  end.
Proof.
  induction 1 as [|[k v] [k' v'] m m' [Hk HR] _ IH]; simpl in *; [done|].
  subst k'. destruct (decide (k = c)); [eauto|done].
Qed.

Lemma Forall2_cells_labels (R : value -> value -> Prop) (m m' : Series) :
  Forall2 (fun p q : string * value => q.1 = p.1 /\ R p.2 q.2) m m' -> m'.*1 = m.*1.
Proof.
  induction 1 as [|p q m m' [Hk _] _ IH]; [done|]. rewrite !fmap_cons. congruence.
Qed.

(** Every row of the merged table, taken apart: a row of the prepared
    shot table, the cells the join put behind it, and the URL. *)
Lemma merged_rows env backup_file_path w merged_df w' :
  merge_with_uuid_data env backup_file_path w = (Ok merged_df, w') ->
  no_label_clash (table w') ->
  exists backup_df right,
    read_csv env backup_file_path = Ok backup_df /\
    prepare_backup backup_df = Ok right /\
    columns merged_df
      = with_video_url (columns (table w') ++ mapping_fields) /\
    forall row, row ∈ rows merged_df ->
      exists shot rpart url,
        shot ∈ rows (table w') /\
        row = set_cell "video_url" url
                (filter (fun p : string * value => p.1 ∉ ["game_id"; "action_number"])
                        (shot ++ rpart)) /\
        generate_video_url
          (filter (fun p : string * value => p.1 ∉ ["game_id"; "action_number"])
                  (shot ++ rpart)) = Ok url /\
        rpart.*1 = backup_columns /\
        ((matches ["GAME_ID"; "GAME_EVENT_ID"] ["game_id"; "action_number"] shot right = []
          /\ rpart = (fun c => (c, NaN)) <$> backup_columns)
         \/ (exists m, m ∈ rows right /\ mapping_key m = shot_key shot
               /\ Forall2 (fun p q : string * value =>
                             q.1 = p.1 /\ (q.2 = p.2 \/ q.2 = to_float p.2)) m rpart)).
Proof.
  intros Hrun Hclash.
  apply merge_with_uuid_data_Ok in Hrun
    as (backup_df & shots & right & joined & trimmed & urls
        & Hread & _ & Hright & Hjoin & Hdrop & Hurls & -> & Ht).
  rewrite Ht in *. clear Ht.
  exists backup_df, right. split; [done|]. split; [done|].
  assert (Hr : columns right = backup_columns /\
               forall m, m ∈ rows right -> m.*1 = backup_columns).
  { unfold prepare_backup in Hright.
    destruct (astype "game_id" to_str backup_df) as [b1|]; simpl in Hright; [|done].
    destruct (astype "action_number" to_int64 b1) as [b2|]; simpl in Hright; [|done].
    apply select_Ok in Hright as [Hc Hrows]. split; [done|].
    intros m Hm. rewrite Hrows in Hm.
    apply list_elem_of_fmap in Hm as (m0 & -> & _). apply reindex_labels. }
  destruct Hr as [Hrc Hrl].
  assert (Hdis : Forall (fun c => c ∉ columns right) (columns shots))
    by (rewrite Hrc; exact Hclash).
  destruct (merge_left_rows _ _ _ _ _ Hjoin Hdis) as [Hjc Hjr].
  apply drop_Ok in Hdrop as [Htc Htr].
  assert (Hcols : columns trimmed = columns shots ++ mapping_fields).
  { rewrite Htc, Hjc, filter_app, Hrc. f_equal.
    clear -Hclash. unfold no_label_clash in Hclash.
    induction Hclash as [|c cs Hc _ IH]; [done|].
    rewrite filter_cons_True, IH; [done|].
    intros Hin. apply Hc. unfold backup_columns.
    apply elem_of_cons in Hin as [->|Hin]; [left|].
    apply list_elem_of_singleton in Hin as ->. right. left. }
  split.
  { simpl. unfold with_video_url, has_column. rewrite Hcols.
    by destruct (decide ("video_url"%string ∈ columns shots ++ mapping_fields));
      [rewrite bool_decide_true|rewrite bool_decide_false]. }
  intros row Hrow.
  destruct (assign_apply_rows _ _ _ _ _ Hurls Hrow) as (r & url & Hr & Hurl & ->).
  rewrite Htr in Hr. apply list_elem_of_fmap in Hr as (jr & -> & Hjrow).
  destruct (Hjr jr Hjrow) as (shot & Hshot & Hshape).
  destruct Hshape as [[Hnone ->] | (m & m' & Hm & Hkey & -> & Hcells)].
  - exists shot, ((fun c => (c, NaN)) <$> columns right), url.
    split; [done|]. split; [done|]. split; [done|]. split.
    { rewrite <- list_fmap_compose. rewrite <- Hrc. apply list_fmap_id. }
    left. by rewrite Hrc.
  - exists shot, m', url. split; [done|]. split; [done|]. split; [done|]. split.
    { rewrite (Forall2_cells_labels (fun v v' => v' = v \/ v' = to_float v) _ _ Hcells).
      by apply Hrl. }
    right. eauto.
Qed.

End MergedRows.

Section MergedFields.

Lemma mapping_field_facts c :
  c ∈ mapping_fields ->
  c ∈ backup_columns /\ c ∉ ["game_id"; "action_number"] /\ c <> "video_url"%string.
Proof.
  unfold mapping_fields. intros H.
  repeat (apply elem_of_cons in H as [->|H]); try (by apply elem_of_nil in H);
    apply (bool_decide_unpack _); vm_compute; exact I.
Qed.

Lemma lookup_const_row c (cs : list string) v :
  c ∈ cs -> lookup_label c ((fun k => (k, v)) <$> cs) = Some v.
Proof.
  induction cs as [|k cs IH]; [by intros ?%elem_of_nil|]. rewrite fmap_cons. simpl.
  destruct (decide (k = c)); [done|]. intros [?|?]%elem_of_cons; [congruence|auto].
Qed.

Lemma set_cell_labels c v (r : Series) :
  (set_cell c v r).*1 = if decide (c ∈ r.*1) then r.*1 else r.*1 ++ [c].
Proof.
  unfold set_cell. destruct (decide (c ∈ r.*1)) as [Hin|Hnin].
  - destruct (lookup_label_is_Some _ _ Hin) as [x ->].
    clear. induction r as [|[k y] r IH]; [done|]. rewrite !fmap_cons, IH. simpl.
    by destruct (decide (k = c)).
  - rewrite (lookup_label_None _ _ Hnin). by rewrite fmap_app.
Qed.

(** A cell of a merged row under a label that is neither a mapping column
    nor [video_url] is the cell of the shot row. *)
Lemma merged_shot_cell c url (shot rpart : Series) :
  c ∉ backup_columns -> c <> "video_url"%string -> rpart.*1 = backup_columns ->
  lookup_label c
    (set_cell "video_url" url
       (filter (fun p : string * value => p.1 ∉ ["game_id"; "action_number"])
               (shot ++ rpart)))
  = lookup_label c shot.
Proof.
  intros Hc Hne Hl. rewrite lookup_set_cell_ne by done.
  rewrite lookup_label_filter.
  2:{ intros Hin. apply Hc. unfold backup_columns.
      apply elem_of_cons in Hin as [->|Hin]; [left|].
      apply list_elem_of_singleton in Hin as ->. right. left. }
  rewrite lookup_label_app. destruct (lookup_label c shot); [done|].
  apply lookup_label_None. by rewrite Hl.
Qed.

(** A cell of a merged row under a mapping column is the cell the join
    put there, when the shot row has no cell of that name. *)
Lemma merged_mapping_cell c url (shot rpart : Series) :
  c ∈ mapping_fields -> c ∉ shot.*1 ->
  lookup_label c
    (set_cell "video_url" url
       (filter (fun p : string * value => p.1 ∉ ["game_id"; "action_number"])
               (shot ++ rpart)))
  = lookup_label c rpart.
Proof.
  intros (_ & Hd & Hne)%mapping_field_facts Hs.
  rewrite lookup_set_cell_ne by done. rewrite lookup_label_filter by done.
  by rewrite lookup_label_app, (lookup_label_None _ _ Hs).
Qed.

End MergedFields.

(** X1.  When no column of the shot table bears the name of a mapping
    column, the join passes the shot's own fields through: every row of
    the merged table agrees with a row of the (prepared) shot table on
    every label that is neither a mapping column nor [video_url]. *)
Theorem merge_passes_shot_fields_through env backup_file_path w merged_df w' :
  merge_with_uuid_data env backup_file_path w = (Ok merged_df, w') ->
  no_label_clash (table w') ->
  forall row, row ∈ rows merged_df ->
    exists shot, shot ∈ rows (table w') /\
      forall c, c ∉ backup_columns -> c <> "video_url"%string ->
        lookup_label c row = lookup_label c shot.
Proof.
  intros Hrun Hclash row Hrow.
  destruct (merged_rows _ _ _ _ _ Hrun Hclash) as (b & right & _ & _ & _ & Hrows).
  destruct (Hrows row Hrow) as (shot & rpart & url & Hshot & -> & _ & Hl & _).
  exists shot. split; [done|]. intros c Hc Hne. by apply merged_shot_cell.
Qed.

Lemma merge_passes_shot_fields_through_witness :
  merge_with_uuid_data Scenario.env Scenario.backup_path Scenario.world
    = (Ok Scenario.merged, Scenario.after_merge) /\
  no_label_clash (table Scenario.after_merge) /\
  Scenario.first_row ∈ rows Scenario.merged /\
  exists shot, shot ∈ rows (table Scenario.after_merge) /\
    forall c, c ∉ backup_columns -> c <> "video_url"%string ->
      lookup_label c Scenario.first_row = lookup_label c shot.
Proof.
  assert (Hrun : merge_with_uuid_data Scenario.env Scenario.backup_path Scenario.world
                 = (Ok Scenario.merged, Scenario.after_merge)) by (vm_compute; reflexivity).
  assert (Hclash : no_label_clash (table Scenario.after_merge)).
  { apply (bool_decide_unpack _). vm_compute. exact I. }
  assert (Hrow : Scenario.first_row ∈ rows Scenario.merged) by (vm_compute; left).
  split; [exact Hrun|]. split; [exact Hclash|]. split; [exact Hrow|].
  exact (merge_passes_shot_fields_through _ _ _ _ _ Hrun Hclash _ Hrow).
Defined.

(** X2.  When no column of the shot table bears the name of a mapping
    column and the shot table is well formed, each merged row is a shot
    with the mapping row of its key, or with missing values: if no
    mapping row has the shot's (game, event) key, the five mapping fields
    and [video_url] are missing; otherwise a mapping row with that key
    supplies the five fields, each as it stands in the mapping table or
    as the float of that integer. *)
Theorem merge_row_provenance env backup_file_path w merged_df w' backup_df right :
  merge_with_uuid_data env backup_file_path w = (Ok merged_df, w') ->
  read_csv env backup_file_path = Ok backup_df ->
  prepare_backup backup_df = Ok right ->
  no_label_clash (table w') -> wf (table w') ->
  forall row, row ∈ rows merged_df ->
    exists shot, shot ∈ rows (table w') /\
      ((forall m, m ∈ rows right -> mapping_key m <> shot_key shot)
       /\ (forall c, c ∈ mapping_fields ++ ["video_url"%string] ->
             lookup_label c row = Some NaN)
       \/ exists m, m ∈ rows right /\ mapping_key m = shot_key shot /\
            forall c, c ∈ mapping_fields ->
              exists v, lookup_label c m = Some v /\
                (lookup_label c row = Some v \/ lookup_label c row = Some (to_float v))).
Proof.
  intros Hrun Hread Hright Hclash Hwf row Hrow.
  destruct (merged_rows _ _ _ _ _ Hrun Hclash)
    as (b' & right' & Hread' & Hright' & _ & Hrows).
  assert (b' = backup_df) as -> by congruence.
  assert (right' = right) as -> by congruence.
  destruct (Hrows row Hrow) as (shot & rpart & url & Hshot & -> & Hurl & Hl & Hcase).
  exists shot. split; [done|].
  assert (Hnolabel : forall c, c ∈ backup_columns -> c ∉ shot.*1).
  { intros c Hc. rewrite (proj1 (Forall_forall _ _) Hwf shot Hshot).
    intros Hin. by apply (proj1 (Forall_forall _ _) Hclash c Hin). }
  destruct Hcase as [[Hnone ->] | (m & Hm & Hkey & Hcells)].
  - left. split.
    { intros m Hm Hkey. eapply filter_nil_not_elem_of; [exact Hnone| |exact Hm]. done. }
    assert (Huuid : url = NaN).
    { unfold generate_video_url, get in Hurl.
      rewrite lookup_label_filter in Hurl
        by (apply (bool_decide_unpack _); vm_compute; exact I).
      rewrite lookup_label_app in Hurl.
      rewrite (lookup_label_None "uuid" shot) in Hurl
        by (apply Hnolabel; apply (bool_decide_unpack _); vm_compute; exact I).
      rewrite lookup_const_row in Hurl by (apply (bool_decide_unpack _); vm_compute; exact I).
      simpl in Hurl. congruence. }
    subst url. intros c [Hc|Hc]%elem_of_app.
    + rewrite merged_mapping_cell; [|done|apply Hnolabel; by apply mapping_field_facts].
      apply lookup_const_row. by apply mapping_field_facts.
    + apply list_elem_of_singleton in Hc as ->. apply lookup_set_cell_eq.
  - right. exists m. split; [done|]. split; [done|]. intros c Hc.
    rewrite merged_mapping_cell; [|done|apply Hnolabel; by apply mapping_field_facts].
    assert (Hlk := Forall2_cells_lookup (fun v v' => v' = v \/ v' = to_float v) c _ _ Hcells).
    destruct (lookup_label c m) as [v|] eqn:Hv.
    + destruct Hlk as (v' & -> & [->| ->]); eauto.
    + exfalso. assert (Hin : c ∈ m.*1).
      { rewrite <- (Forall2_cells_labels (fun v v' => v' = v \/ v' = to_float v) _ _ Hcells), Hl.
        by apply mapping_field_facts. }
      apply lookup_label_is_Some in Hin as [? ?]. congruence.
Qed.

Lemma merge_row_provenance_witness :
  merge_with_uuid_data Season.env Scenario.backup_path Season.loaded_world
    = (Ok Season.merged, Season.after_merge) /\
  read_csv Season.env Scenario.backup_path = Ok Scenario.backup /\
  prepare_backup Scenario.backup = Ok Season.mapping_table /\
  no_label_clash (table Season.after_merge) /\ wf (table Season.after_merge) /\
  Season.unmatched_row ∈ rows Season.merged /\
  exists shot, shot ∈ rows (table Season.after_merge) /\
    ((forall m, m ∈ rows Season.mapping_table -> mapping_key m <> shot_key shot)
     /\ (forall c, c ∈ mapping_fields ++ ["video_url"%string] ->
           lookup_label c Season.unmatched_row = Some NaN)
     \/ exists m, m ∈ rows Season.mapping_table /\ mapping_key m = shot_key shot /\
          forall c, c ∈ mapping_fields ->
            exists v, lookup_label c m = Some v /\
              (lookup_label c Season.unmatched_row = Some v
               \/ lookup_label c Season.unmatched_row = Some (to_float v))).
Proof.
  assert (Hrun : merge_with_uuid_data Season.env Scenario.backup_path Season.loaded_world
                 = (Ok Season.merged, Season.after_merge)) by (vm_compute; reflexivity).
  assert (Hread : read_csv Season.env Scenario.backup_path = Ok Scenario.backup)
    by (vm_compute; reflexivity).
  assert (Hright : prepare_backup Scenario.backup = Ok Season.mapping_table)
    by (vm_compute; reflexivity).
  assert (Hclash : no_label_clash (table Season.after_merge)).
  { apply (bool_decide_unpack _). vm_compute. exact I. }
  assert (Hwf : wf (table Season.after_merge)).
  { apply (bool_decide_unpack _). vm_compute. exact I. }
  assert (Hrow : Season.unmatched_row ∈ rows Season.merged).
  { vm_compute. right. right. left. }
  repeat (split; [assumption|]).
  exact (merge_row_provenance _ _ _ _ _ _ _ Hrun Hread Hright Hclash Hwf _ Hrow).
Defined.

(** X3.  Whenever the merge returns, the two join keys of the mapping
    table are not among the columns of the result, and [video_url] is. *)
Theorem merge_output_columns env backup_file_path w merged_df w' :
  merge_with_uuid_data env backup_file_path w = (Ok merged_df, w') ->
  "game_id"%string ∉ columns merged_df /\
  "action_number"%string ∉ columns merged_df /\
  "video_url"%string ∈ columns merged_df.
Proof.
  intros Hrun.
  apply merge_with_uuid_data_Ok in Hrun
    as (backup_df & shots & right & joined & trimmed & urls
        & _ & _ & _ & _ & Hdrop & _ & -> & _).
  apply drop_Ok in Hdrop as [Htc _].
  assert (Hnot : forall c, c ∈ ["game_id"; "action_number"] -> c <> "video_url"%string ->
                   c ∉ columns (assign "video_url" urls trimmed)).
  { intros c Hc Hne. simpl. destruct (has_column "video_url" trimmed).
    - rewrite Htc. by intros [? _]%list_elem_of_filter.
    - rewrite Htc. intros [[? _]%list_elem_of_filter | ?%list_elem_of_singleton]%elem_of_app; done. }
  split; [apply Hnot; [left|done]|]. split; [apply Hnot; [right; left|done]|].
  simpl. unfold has_column. case_bool_decide; [done|].
  apply elem_of_app. right. left.
Qed.

Lemma merge_output_columns_witness :
  merge_with_uuid_data Scenario.env Scenario.backup_path Scenario.world
    = (Ok Scenario.merged, Scenario.after_merge) /\
  "game_id"%string ∉ columns Scenario.merged /\
  "action_number"%string ∉ columns Scenario.merged /\
  "video_url"%string ∈ columns Scenario.merged.
Proof.
  assert (Hrun : merge_with_uuid_data Scenario.env Scenario.backup_path Scenario.world
                 = (Ok Scenario.merged, Scenario.after_merge)) by (vm_compute; reflexivity).
  split; [exact Hrun|]. exact (merge_output_columns _ _ _ _ _ Hrun).
Defined.

(** The columns and the shape of the rows of the merged table. *)
Lemma merged_schema env backup_file_path w merged_df w' :
  merge_with_uuid_data env backup_file_path w = (Ok merged_df, w') ->
  no_label_clash (table w') -> wf (table w') ->
  columns merged_df = with_video_url (columns (table w') ++ mapping_fields) /\
  wf merged_df.
Proof.
  intros Hrun Hclash Hwf.
  destruct (merged_rows _ _ _ _ _ Hrun Hclash) as (b & right & _ & _ & Hcols & Hrows).
  split; [done|]. apply Forall_forall. intros row Hrow.
  destruct (Hrows row Hrow) as (shot & rpart & url & Hshot & -> & _ & Hl & _).
  rewrite Hcols, set_cell_labels, filter_labels, fmap_app, Hl.
  rewrite (proj1 (Forall_forall _ _) Hwf shot Hshot).
  assert (Hf : filter (fun c : string => c ∉ ["game_id"; "action_number"])
                 (columns (table w') ++ backup_columns)
               = columns (table w') ++ mapping_fields).
  { rewrite filter_app. f_equal. clear -Hclash. unfold no_label_clash in Hclash.
    induction Hclash as [|c cs Hc _ IH]; [done|].
    rewrite filter_cons_True, IH; [done|].
    intros Hin. apply Hc. unfold backup_columns.
    apply elem_of_cons in Hin as [->|Hin]; [left|].
    apply list_elem_of_singleton in Hin as ->. right. left. }
  rewrite Hf. unfold with_video_url.
  by destruct (decide ("video_url"%string ∈ columns (table w') ++ mapping_fields)).
Qed.

(** X4.  When no column of the (prepared) shot table bears the name of a
    mapping column and every row of it carries the table's labels, the
    merged table has the shot table's columns, then year, month, day,
    api_game_id and uuid, then [video_url], and every merged row carries
    exactly these labels in this order. *)
Theorem merge_output_schema env backup_file_path w merged_df w' :
  merge_with_uuid_data env backup_file_path w = (Ok merged_df, w') ->
  no_label_clash (table w') -> wf (table w') ->
  columns merged_df = with_video_url (columns (table w') ++ mapping_fields) /\
  wf merged_df.
Proof.
  intros Hrun Hclash Hwf.
  destruct (merged_schema _ _ _ _ _ Hrun Hclash Hwf) as [Hcols Hrows].
  split; [exact Hcols|exact Hrows].
Qed.

Lemma merge_output_schema_witness :
  merge_with_uuid_data Season.env Scenario.backup_path Season.loaded_world
    = (Ok Season.merged, Season.after_merge) /\
  no_label_clash (table Season.after_merge) /\ wf (table Season.after_merge) /\
  columns Season.merged
    = with_video_url (columns (table Season.after_merge) ++ mapping_fields) /\
  wf Season.merged.
Proof.
  assert (Hrun : merge_with_uuid_data Season.env Scenario.backup_path Season.loaded_world
                 = (Ok Season.merged, Season.after_merge)) by (vm_compute; reflexivity).
  assert (Hclash : no_label_clash (table Season.after_merge)).
  { apply (bool_decide_unpack _). vm_compute. exact I. }
  assert (Hwf : wf (table Season.after_merge)).
  { apply (bool_decide_unpack _). vm_compute. exact I. }
  repeat (split; [assumption|]).
  exact (merge_output_schema _ _ _ _ _ Hrun Hclash Hwf).
Defined.

(** * What the merge prints and what it leaves alone *)

Section MergeTrace.

Lemma quiet_ret {A} (a : A) : quiet (mret a).
Proof. by intros w r w' [= <- <-]. Qed.

Lemma quiet_lift {A} (r : result A) : quiet (lift r).
Proof. by intros w r' w' [= <- <-]. Qed.

Lemma quiet_print m : quiet (print m).
Proof. by intros w r w' [= <- <-]. Qed.

Lemma quiet_get_table : quiet get_table.
Proof. by intros w r w' [= <- <-]. Qed.

Lemma quiet_bind {A B} (m : M A) (f : A -> M B) :
  quiet m -> (forall a, quiet (f a)) -> quiet (m ≫= f).
Proof.
  intros Hm Hf w r w'. rewrite bind_run.
  destruct (m w) as [[a|e] w1] eqn:Hrun; intros H.
  - destruct (Hm _ _ _ Hrun) as (Ht & Hd & Hfs).
    destruct (Hf a _ _ _ H) as (Ht' & Hd' & Hfs'). by rewrite Ht', Hd', Hfs'.
  - injection H as <- <-. by eapply Hm.
Qed.



End MergeTrace.



(** * A merge that fails *)

Section MergeFailure.

Lemma update_table_bind {B} f (k : unit -> M B) w r w' :
  (update_table f ≫= k) w = (r, w') ->
  (exists e, f (table w) = Raise e /\ r = Raise e /\ w' = w)
  \/ (exists df, f (table w) = Ok df /\ k tt (set_table df w) = (r, w')).
Proof.
  rewrite bind_run. unfold update_table.
  destruct (f (table w)) as [df|e]; [right|left]; [eauto|].
  injection H as <- <-. eauto.
Qed.

Lemma merge_outcome env backup_file_path w r w' :
  merge_with_uuid_data env backup_file_path w = (r, w') ->
  dirs w' = dirs w /\ files w' = files w /\
  (forall e, read_csv env backup_file_path = Raise e -> r = Raise e /\ table w' = table w) /\
  (forall backup_df shots,
     read_csv env backup_file_path = Ok backup_df ->
     prepare_shots (table w) = Ok shots -> table w' = shots).
Proof.
  unfold merge_with_uuid_data. rewrite bind_run.
  change (print LoadingUuidBackup w) with (Ok tt, add_stdout LoadingUuidBackup w).
  cbv beta iota. rewrite bind_run. unfold lift at 1.
  destruct (read_csv env backup_file_path) as [b|e] eqn:Hread.
  2:{ intros [= <- <-]. split; [done|]. split; [done|]. split; [|done].
      by intros e' [= <-]. }
  rewrite bind_run. unfold get_table at 1. cbv beta iota.
  change (table (add_stdout LoadingUuidBackup w)) with (table w).
  set (w0 := add_stdout LoadingUuidBackup w).
  intros Hrun.
  assert (Hgoal : dirs w' = dirs w /\ files w' = files w /\
           forall shots, prepare_shots (table w) = Ok shots -> table w' = shots).
  2:{ destruct Hgoal as (? & ? & Hs). split; [done|]. split; [done|]. split; [done|].
      intros b' shots _. apply Hs. }
  unfold prepare_shots.
  match type of Hrun with (_ ≫= ?K) _ = _ => set (k := K) in Hrun end.
  assert (Hyear : (exists e, drop ["year"] (table w) = Raise e
                     /\ has_column "year" (table w) = true /\ r = Raise e /\ w' = w0)
                  \/ (exists t0, (if has_column "year" (table w) then drop ["year"] (table w)
                                  else Ok (table w)) = Ok t0
                        /\ k tt (set_table t0 w0) = (r, w'))).
  { destruct (has_column "year" (table w)).
    - apply update_table_bind in Hrun as [(e & He & -> & ->) | (t0 & Ht0 & Hrun)].
      + left. eauto.
      + right. eauto.
    - right. exists (table w). split; [done|]. exact Hrun. }
  clear Hrun. destruct Hyear as [(e & He & Hy & -> & ->) | (t0 & Ht0 & Hrun)].
  { split; [done|]. split; [done|]. intros shots. by rewrite Hy, He. }
  rewrite Ht0. subst k. cbv beta in Hrun.
  apply update_table_bind in Hrun as [(e & He & -> & ->) | (t1 & Ht1 & Hrun)].
  { split; [done|]. split; [done|]. intros shots. simpl in He. simpl. by rewrite He. }
  apply update_table_bind in Hrun as [(e & He & -> & ->) | (t2 & Ht2 & Hrun)].
  { split; [done|]. split; [done|]. intros shots. simpl in *. rewrite Ht1. simpl.
    by rewrite He. }
  simpl in Ht1, Ht2.
  match type of Hrun with ?m _ = _ => assert (Hq : quiet m) end.
  { repeat (apply quiet_bind;
            [first [apply quiet_lift | apply quiet_print | apply quiet_get_table]|intros ?]).
    apply quiet_ret. }
  destruct (Hq _ _ _ Hrun) as (-> & -> & ->).
  split; [done|]. split; [done|]. intros shots. simpl. rewrite Ht1. simpl. rewrite Ht2.
  by intros [= <-].
Qed.

End MergeFailure.

(** X6.  A merge that raises after the mapping file was read and the
    shot table prepared leaves the caller's table prepared: the column
    [year] dropped and the two key columns cast, not as it was handed in.
    No file and no directory has been touched. *)
Theorem merge_failure_keeps_preparation env backup_file_path w e w' backup_df shots :
  merge_with_uuid_data env backup_file_path w = (Raise e, w') ->
  read_csv env backup_file_path = Ok backup_df ->
  prepare_shots (table w) = Ok shots ->
  table w' = shots /\ dirs w' = dirs w /\ files w' = files w.
Proof.
  intros Hrun Hread Hprep.
  destruct (merge_outcome _ _ _ _ _ Hrun) as (Hd & Hf & _ & Ht).
  split; [by eapply Ht|done].
Qed.

Lemma merge_failure_keeps_preparation_witness :
  merge_with_uuid_data Season.env_without_uuid Scenario.backup_path Scenario.world
    = (Raise (KeyError "uuid"), Season.failed_merge.2) /\
  read_csv Season.env_without_uuid Scenario.backup_path = Ok Season.backup_without_uuid /\
  prepare_shots (table Scenario.world) = Ok (table Scenario.after_merge) /\
  table Season.failed_merge.2 = table Scenario.after_merge /\
  dirs Season.failed_merge.2 = dirs Scenario.world /\
  files Season.failed_merge.2 = files Scenario.world.
Proof.
  assert (Hrun : merge_with_uuid_data Season.env_without_uuid Scenario.backup_path
                   Scenario.world
                 = (Raise (KeyError "uuid"), Season.failed_merge.2))
    by (vm_compute; reflexivity).
  assert (Hread : read_csv Season.env_without_uuid Scenario.backup_path
                  = Ok Season.backup_without_uuid) by (vm_compute; reflexivity).
  assert (Hprep : prepare_shots (table Scenario.world) = Ok (table Scenario.after_merge))
    by (vm_compute; reflexivity).
  split; [exact Hrun|]. split; [exact Hread|]. split; [exact Hprep|].
  exact (merge_failure_keeps_preparation _ _ _ _ _ _ _ Hrun Hread Hprep).
Defined.

(** * No shot is lost *)

Section Covering.

Lemma merge_left_covers left right left_on right_on joined l :
  merge_left left right left_on right_on = Ok joined ->
  Forall (fun c => c ∉ columns right) (columns left) ->
  l ∈ rows left ->
  exists rpart, l ++ rpart ∈ rows joined /\
    (rpart = (fun c => (c, NaN)) <$> columns right
     \/ exists m, m ∈ rows right /\
          Forall2 (fun p q : string * value =>
                     q.1 = p.1 /\ (q.2 = p.2 \/ q.2 = to_float p.2)) m rpart).
Proof.
  unfold merge_left. intros Hm Hdis Hl.
  destruct (filter _ left_on); [|done]. destruct (filter _ right_on); [|done].
  assert (Hov : filter (fun c => c ∈ columns right) (columns left) = []).
  { apply filter_none. eapply Forall_impl; [exact Hdis|]. by intros c Hc Hn. }
  rewrite Hov in Hm. injection Hm as <-. simpl.
  destruct (matches left_on right_on l right) as [|m0 ms] eqn:Hms.
  - exists ((fun c => (c, NaN)) <$> columns right). split; [|by left].
    apply list_elem_of_bind. exists l. split; [|done].
    rewrite relabel_nil, Hms. apply list_elem_of_fmap. eexists. split; [done|]. left.
  - eexists. split.
    + apply list_elem_of_bind. exists l. split; [|done].
      rewrite relabel_nil, Hms. apply list_elem_of_fmap. eexists. split; [done|].
      apply elem_of_cons. by left.
    + right. exists m0. split.
      * assert (Hin : m0 ∈ matches left_on right_on l right) by (rewrite Hms; left).
        by apply list_elem_of_filter in Hin as [_ ?].
      * rewrite relabel_nil. apply (widened_cells _ (fun c => int64_column c right)).
Qed.

Lemma assign_apply_covers f c df vals r :
  apply f df = Ok vals -> r ∈ rows df ->
  exists v, f r = Ok v /\ set_cell c v r ∈ rows (assign c vals df).
Proof.
  unfold apply, assign. simpl. intros H%traverse_Forall2.
  induction H as [|r0 v rs vs Hf _ IH]; simpl.
  - by intros ?%elem_of_nil.
  - intros [->|Hin]%elem_of_cons.
    + exists v. split; [done|left].
    + destruct (IH Hin) as (v' & ? & ?). exists v'. split; [done|by right].
Qed.

End Covering.

(** Every shot has a row in the merged table. *)
Lemma merged_covers env backup_file_path w merged_df w' :
  merge_with_uuid_data env backup_file_path w = (Ok merged_df, w') ->
  no_label_clash (table w') ->
  forall shot, shot ∈ rows (table w') ->
    exists row, row ∈ rows merged_df /\
      forall c, c ∉ backup_columns -> c <> "video_url"%string ->
        lookup_label c row = lookup_label c shot.
Proof.
  intros Hrun Hclash shot Hshot.
  apply merge_with_uuid_data_Ok in Hrun
    as (backup_df & shots & right & joined & trimmed & urls
        & Hread & _ & Hright & Hjoin & Hdrop & Hurls & -> & Ht).
  rewrite Ht in *. clear Ht.
  assert (Hr : columns right = backup_columns /\
               forall m, m ∈ rows right -> m.*1 = backup_columns).
  { unfold prepare_backup in Hright.
    destruct (astype "game_id" to_str backup_df) as [b1|]; simpl in Hright; [|done].
    destruct (astype "action_number" to_int64 b1) as [b2|]; simpl in Hright; [|done].
    apply select_Ok in Hright as [Hc Hrows]. split; [done|].
    intros m Hm. rewrite Hrows in Hm.
    apply list_elem_of_fmap in Hm as (m0 & -> & _). apply reindex_labels. }
  destruct Hr as [Hrc Hrl].
  assert (Hdis : Forall (fun c => c ∉ columns right) (columns shots))
    by (rewrite Hrc; exact Hclash).
  destruct (merge_left_covers _ _ _ _ _ _ Hjoin Hdis Hshot) as (rpart & Hj & Hshape).
  assert (Hl : rpart.*1 = backup_columns).
  { destruct Hshape as [->|(m & Hm & Hcells)].
    - rewrite <- list_fmap_compose. rewrite <- Hrc. apply list_fmap_id.
    - rewrite (Forall2_cells_labels (fun v v' => v' = v \/ v' = to_float v) _ _ Hcells).
      by apply Hrl. }
  apply drop_Ok in Hdrop as [_ Htr].
  assert (Hin : filter (fun p : string * value => p.1 ∉ ["game_id"; "action_number"])
                  (shot ++ rpart) ∈ rows trimmed).
  { rewrite Htr. apply list_elem_of_fmap. eexists. split; [done|exact Hj]. }
  destruct (assign_apply_covers _ "video_url" _ _ _ Hurls Hin) as (url & _ & Hrow).
  eexists. split; [exact Hrow|]. intros c Hc Hne. by apply merged_shot_cell.
Qed.

(** X7.  When no column of the shot table bears the name of a mapping
    column, no shot is lost in the join, whether it has a mapping row or
    not: every row of the (prepared) shot table has a row of the merged
    table that agrees with it on every label that is neither a mapping
    column nor [video_url]. *)
Theorem merge_keeps_every_shot env backup_file_path w merged_df w' :
  merge_with_uuid_data env backup_file_path w = (Ok merged_df, w') ->
  no_label_clash (table w') ->
  forall shot, shot ∈ rows (table w') ->
    exists row, row ∈ rows merged_df /\
      forall c, c ∉ backup_columns -> c <> "video_url"%string ->
        lookup_label c row = lookup_label c shot.
Proof.
  intros Hrun Hclash shot Hshot.
  destruct (merged_covers _ _ _ _ _ Hrun Hclash shot Hshot) as (row & Hrow & Hcells).
  by exists row.
Qed.

Lemma merge_keeps_every_shot_witness :
  merge_with_uuid_data Season.env Scenario.backup_path Season.loaded_world
    = (Ok Season.merged, Season.after_merge) /\
  no_label_clash (table Season.after_merge) /\
  Season.raw_shot_prepared ∈ rows (table Season.after_merge) /\
  exists row, row ∈ rows Season.merged /\
    forall c, c ∉ backup_columns -> c <> "video_url"%string ->
      lookup_label c row = lookup_label c Season.raw_shot_prepared.
Proof.
  assert (Hrun : merge_with_uuid_data Season.env Scenario.backup_path Season.loaded_world
                 = (Ok Season.merged, Season.after_merge)) by (vm_compute; reflexivity).
  assert (Hclash : no_label_clash (table Season.after_merge)).
  { apply (bool_decide_unpack _). vm_compute. exact I. }
  assert (Hshot : Season.raw_shot_prepared ∈ rows (table Season.after_merge)).
  { vm_compute. right. right. left. }
  split; [exact Hrun|]. split; [exact Hclash|]. split; [exact Hshot|].
  exact (merge_keeps_every_shot _ _ _ _ _ Hrun Hclash _ Hshot).
Defined.

(** * More about the partition writer *)

Section SaveMore.










End SaveMore.





Section SaveFrame.




End SaveFrame.





(** * More about the combiner *)

Section CombineMore.

Lemma union_columns_acc acc dfs c :
  c ∈ foldl (fun acc df => acc ++ filter (fun c => c ∉ acc) (columns df)) acc dfs
  <-> c ∈ acc \/ exists df, df ∈ dfs /\ c ∈ columns df.
Proof.
  revert acc. induction dfs as [|df dfs IH]; intros acc; simpl.
  - split; [auto|]. intros [?|(df & ?%elem_of_nil & _)]; done.
  - rewrite IH, elem_of_app, list_elem_of_filter. split.
    + intros [[?|[_ ?]]|(df' & ? & ?)]; [by left|right|right].
      * exists df. split; [left|done].
      * exists df'. split; [by right|done].
    + intros [?|(df' & [->|?]%elem_of_cons & ?)]; [by left; left| |right; eauto].
      left. destruct (decide (c ∈ acc)); [by left|by right].
Qed.

Lemma union_columns_elem dfs c :
  c ∈ union_columns dfs <-> exists df, df ∈ dfs /\ c ∈ columns df.
Proof.
  unfold union_columns. rewrite union_columns_acc. split; [|auto].
  by intros [?%elem_of_nil|?].
Qed.

Lemma concat_len dfs : len (concat dfs) = sum_list (len <$> dfs).
Proof.
  unfold len, concat. simpl. rewrite !length_fmap. apply bind_length_sum.
Qed.


Lemma combine_run_none env base_dir output_file w :
  isdir env base_dir = true ->
  loaded env (glob_csv env base_dir) = [] ->
  exists ms, combine_shot_data env base_dir output_file w = (Ok tt, add_stdouts ms w).
Proof.
  intros Hdir Hnone. unfold combine_shot_data. rewrite Hdir. simpl.
  case_bool_decide as Hfs.
  { by exists [NoCsvFound base_dir]. }
  rewrite bind_run. unfold print at 1. rewrite bind_run, read_all_run. simpl.
  rewrite Hnone. simpl.
  exists (FoundCsv (length (glob_csv env base_dir))
            :: read_errors env (glob_csv env base_dir) ++ [NoDataLoaded]).
  unfold print, add_stdouts, add_stdout. simpl. by rewrite <- !app_assoc.
Qed.

End CombineMore.

(** X12.  Whatever the outcome, the combiner leaves the table and the
    directories alone, and the files too, except that it may have
    replaced the output file by the CSV text of one table. *)
Theorem combine_touches_only_output env base_dir output_file w :
  let w' := (combine_shot_data env base_dir output_file w).2 in
  table w' = table w /\ dirs w' = dirs w /\
  (files w' = files w
   \/ exists combined_df, files w' = <[output_file := to_csv combined_df]> (files w)).
Proof.
  simpl. destruct (isdir env base_dir) eqn:Hdir.
  2:{ unfold combine_shot_data. rewrite Hdir. simpl. auto. }
  destruct (decide (loaded env (glob_csv env base_dir) = [])) as [Hnone|Hsome].
  - destruct (combine_run_none env base_dir output_file w Hdir Hnone) as [ms ->]. simpl. auto.
  - rewrite (combine_run_loaded _ _ _ _ Hdir Hsome).
    destruct (sort_values sort_columns _) as [combined|e]; simpl; eauto.
Qed.

(** X13.  When the directory exists and at least one file was read but
    one of the sort columns year, month, day, SHOT_ID is in none of the
    files read, the combiner raises a [KeyError] for the first such
    column after it has printed [Combining]; nothing is written. *)
Theorem combine_missing_sort_column env base_dir output_file w c :
  isdir env base_dir = true ->
  loaded env (glob_csv env base_dir) <> [] ->
  head (filter (fun c => Forall (fun df => c ∉ columns df)
                           (loaded env (glob_csv env base_dir)))
          sort_columns) = Some c ->
  exists w',
    combine_shot_data env base_dir output_file w = (Raise (KeyError c), w') /\
    files w' = files w /\
    stdout w' = stdout w ++ FoundCsv (length (glob_csv env base_dir))
                  :: read_errors env (glob_csv env base_dir) ++ [Combining].
Proof.
  intros Hdir Hsome Hc. rewrite (combine_run_loaded _ _ _ _ Hdir Hsome).
  unfold sort_values.
  assert (Hf : filter (fun c => c ∉ columns (concat (loaded env (glob_csv env base_dir))))
                 sort_columns
               = filter (fun c => Forall (fun df => c ∉ columns df)
                                    (loaded env (glob_csv env base_dir))) sort_columns).
  { apply list_filter_iff. intros c'. simpl. rewrite union_columns_elem, Forall_forall.
    split.
    - intros Hn df Hdf Hin. apply Hn. eauto.
    - intros Hn (df & Hdf & Hin). by apply (Hn df). }
  rewrite Hf. destruct (filter _ sort_columns) as [|c' cs]; [done|].
  injection Hc as ->. eexists. split; [done|]. by split.
Qed.

Lemma combine_missing_sort_column_witness :
  isdir Season.env_without_month Scenario.base_output_dir = true /\
  loaded Season.env_without_month
    (glob_csv Season.env_without_month Scenario.base_output_dir) <> [] /\
  head (filter (fun c => Forall (fun df => c ∉ columns df)
                           (loaded Season.env_without_month
                              (glob_csv Season.env_without_month Scenario.base_output_dir)))
          sort_columns) = Some "month"%string /\
  exists w',
    combine_shot_data Season.env_without_month Scenario.base_output_dir
      Scenario.output_file Scenario.world = (Raise (KeyError "month"), w') /\
    files w' = files Scenario.world /\
    stdout w' = stdout Scenario.world
                ++ FoundCsv (length (glob_csv Season.env_without_month
                                       Scenario.base_output_dir))
                  :: read_errors Season.env_without_month
                       (glob_csv Season.env_without_month Scenario.base_output_dir)
                  ++ [Combining].
Proof.
  assert (Hdir : isdir Season.env_without_month Scenario.base_output_dir = true)
    by reflexivity.
  assert (Hsome : loaded Season.env_without_month
                    (glob_csv Season.env_without_month Scenario.base_output_dir) <> [])
    by (vm_compute; discriminate).
  assert (Hc : head (filter (fun c => Forall (fun df => c ∉ columns df)
                               (loaded Season.env_without_month
                                  (glob_csv Season.env_without_month
                                     Scenario.base_output_dir)))
                       sort_columns) = Some "month"%string)
    by (vm_compute; reflexivity).
  split; [exact Hdir|]. split; [exact Hsome|]. split; [exact Hc|].
  exact (combine_missing_sort_column _ _ _ _ _ Hdir Hsome Hc).
Defined.

Lemma loaded_or_reported env fs :
  (length (loaded env fs) + length (read_errors env fs) = length fs)%nat.
Proof.
  unfold loaded, read_errors. induction fs as [|f fs IH]; [done|].
  simpl. unfold omap in IH. destruct (read_csv env f); simpl; lia.
Qed.

(** X14.  A run of the combiner that writes accounts for every file the
    search found: each is either among the tables read or reported as
    unreadable, and the total it prints is the sum of the row counts of
    the tables read. *)
Theorem combine_accounts_for_every_file env base_dir output_file w w' :
  isdir env base_dir = true ->
  loaded env (glob_csv env base_dir) <> [] ->
  combine_shot_data env base_dir output_file w = (Ok tt, w') ->
  let fs := glob_csv env base_dir in
  (length (loaded env fs) + length (read_errors env fs) = length fs)%nat /\
  stdout w' = stdout w ++ FoundCsv (length fs) :: read_errors env fs
                ++ [Combining; SavingCombined output_file; ProcessComplete;
                    TotalShots (sum_list (len <$> loaded env fs)); SavedTo output_file].
Proof.
  intros Hdir Hsome Hrun. simpl. split; [apply loaded_or_reported|].
  rewrite (combine_run_loaded _ _ _ _ Hdir Hsome) in Hrun.
  destruct (sort_values sort_columns _) as [combined|e] eqn:Hsort; [|done].
  injection Hrun as <-. apply sort_values_Ok in Hsort as (_ & _ & Hperm & _).
  assert (Hlen : len combined = sum_list (len <$> loaded env (glob_csv env base_dir))).
  { rewrite <- concat_len. unfold len. by rewrite Hperm. }
  simpl. rewrite Hlen. rewrite <- !app_assoc. simpl. by rewrite <- !app_assoc.
Qed.

Lemma combine_accounts_for_every_file_witness :
  isdir Scenario.env Scenario.base_output_dir = true /\
  loaded Scenario.env (glob_csv Scenario.env Scenario.base_output_dir) <> [] /\
  combine_shot_data Scenario.env Scenario.base_output_dir Scenario.output_file
    Scenario.world
  = (Ok tt, (combine_shot_data Scenario.env Scenario.base_output_dir Scenario.output_file
               Scenario.world).2) /\
  let w' := (combine_shot_data Scenario.env Scenario.base_output_dir Scenario.output_file
               Scenario.world).2 in
  let fs := glob_csv Scenario.env Scenario.base_output_dir in
  (length (loaded Scenario.env fs) + length (read_errors Scenario.env fs) = length fs)%nat /\
  stdout w' = stdout Scenario.world ++ FoundCsv (length fs) :: read_errors Scenario.env fs
                ++ [Combining; SavingCombined Scenario.output_file; ProcessComplete;
                    TotalShots (sum_list (len <$> loaded Scenario.env fs));
                    SavedTo Scenario.output_file].
Proof.
  assert (Hdir : isdir Scenario.env Scenario.base_output_dir = true) by reflexivity.
  assert (Hsome : loaded Scenario.env (glob_csv Scenario.env Scenario.base_output_dir) <> [])
    by (vm_compute; discriminate).
  assert (Hrun : combine_shot_data Scenario.env Scenario.base_output_dir
                   Scenario.output_file Scenario.world
                 = (Ok tt, (combine_shot_data Scenario.env Scenario.base_output_dir
                              Scenario.output_file Scenario.world).2))
    by (vm_compute; reflexivity).
  split; [exact Hdir|]. split; [exact Hsome|]. split; [exact Hrun|].
  exact (combine_accounts_for_every_file _ _ _ _ _ Hdir Hsome Hrun).
Defined.



(** * shot_collect.py: the loaders *)

Section LoaderFacts.
Import Loader.

Lemma lookup_fmap_label (g : string -> value) c (cs : list string) :
  c ∈ cs -> lookup_label c ((fun k => (k, g k)) <$> cs) = Some (g c).
Proof.
  induction cs as [|k cs IH]; [by intros ?%elem_of_nil|]. rewrite fmap_cons. simpl.
  destruct (decide (k = c)) as [->|]; [done|]. intros [?|?]%elem_of_cons; [congruence|auto].
Qed.

Lemma lookup_widen_reindex (f : string * value -> bool) (cols : list string) r c :
  c ∈ cols ->
  lookup_label c
    ((fun p : string * value => if f p then (p.1, to_float p.2) else p) <$> reindex cols r)
  = Some (if f (c, default NaN (lookup_label c r))
          then to_float (default NaN (lookup_label c r))
          else default NaN (lookup_label c r)).
Proof.
  intros Hc. unfold reindex. rewrite <- list_fmap_compose.
  etrans; [|apply (lookup_fmap_label
                     (fun k => if f (k, default NaN (lookup_label k r))
                               then to_float (default NaN (lookup_label k r))
                               else default NaN (lookup_label k r)) c _ Hc)].
  f_equal. apply list_fmap_ext. intros _ k _. simpl.
  by destruct (f (k, default NaN (lookup_label k r))).
Qed.

(** A row of the concatenation, cell by cell: a column that holds
    integers in every frame is not touched. *)
Lemma concat_row_cells dfs row :
  row ∈ rows (concat dfs) ->
  exists df r, df ∈ dfs /\ r ∈ rows df /\
    forall c, c ∈ columns (concat dfs) ->
      (lookup_label c row = Some (default NaN (lookup_label c r)) \/
       lookup_label c row = Some (to_float (default NaN (lookup_label c r)))) /\
      ((forall df' r', df' ∈ dfs -> r' ∈ rows df' ->
          is_int (default NaN (lookup_label c r')) = true) ->
       lookup_label c row = Some (default NaN (lookup_label c r))).
Proof.
  unfold concat. simpl.
  intros (filled & -> & (r & -> & (df & Hr & Hdf)%list_elem_of_bind)%list_elem_of_fmap)
    %list_elem_of_fmap.
  exists df, r. split; [done|]. split; [done|]. intros c Hc.
  rewrite (lookup_widen_reindex _ _ _ _ Hc). simpl. split.
  - match goal with |- context [if ?b then _ else _] => destruct b end; auto.
  - intros Hint.
    assert (Hall : forallb is_int
              ((fun r0 => default NaN (lookup_label c r0))
                 <$> (reindex (union_columns dfs) <$> (dfs ≫= rows))) = true).
    { apply forallb_forall. intros v Hv. apply list_elem_of_In in Hv.
      apply list_elem_of_fmap in Hv as (r1 & -> & Hr1).
      apply list_elem_of_fmap in Hr1 as (r2 & -> & Hr2).
      apply list_elem_of_bind in Hr2 as (df2 & Hr2 & Hdf2).
      rewrite lookup_reindex by done. simpl. by apply (Hint df2 r2). }
    rewrite Hall. by rewrite andb_false_r.
Qed.

Lemma assign_scalar_rows c v df :
  rows (assign_scalar c v df) = set_cell c v <$> rows df.
Proof.
  unfold assign_scalar, assign, len. simpl.
  induction (rows df) as [|r rs IH]; [done|]. simpl. by rewrite IH.
Qed.

Lemma assign_scalar_column c v df : c ∈ columns (assign_scalar c v df).
Proof.
  unfold assign_scalar, assign, has_column. simpl.
  case_bool_decide; [done|]. apply elem_of_app. right. left.
Qed.

Lemma assign_scalar_columns_mono c v df c' :
  c' ∈ columns df -> c' ∈ columns (assign_scalar c v df).
Proof.
  unfold assign_scalar, assign. simpl. intros Hin.
  destruct (has_column c df); [done|]. apply elem_of_app. by left.
Qed.

Lemma assign_scalar_len c v df : len (assign_scalar c v df) = len df.
Proof. unfold len. by rewrite assign_scalar_rows, length_fmap. Qed.

Lemma read_season_Ok env path label acc l :
  read_season env path label acc = Ok l ->
  found_or_absent env path /\
  l = acc ++ match read_csv env path with
             | Ok df => [assign_scalar "season_type" (Str label) df]
             | Raise _ => []
             end.
Proof.
  unfold read_season, found_or_absent.
  destruct (read_csv env path) as [df|[]]; try done.
  - by intros [= <-].
  - intros [= <-]. by rewrite app_nil_r.
Qed.

Lemma read_season_total env path label acc :
  found_or_absent env path ->
  read_season env path label acc
  = Ok (acc ++ match read_csv env path with
               | Ok df => [assign_scalar "season_type" (Str label) df]
               | Raise _ => []
               end).
Proof.
  unfold read_season, found_or_absent.
  destruct (read_csv env path) as [df|[]]; try done. intros _. by rewrite app_nil_r.
Qed.

Lemma load_teams_total env year base_path teams acc :
  Forall (found_or_absent env) (year_paths base_path year teams) ->
  load_teams env year base_path teams acc
  = Ok (acc ++ omap (team_frame env base_path year) teams).
Proof.
  revert acc. induction teams as [|team teams IH]; intros acc Hall.
  { simpl. by rewrite app_nil_r. }
  unfold year_paths in Hall. rewrite bind_cons in Hall.
  apply Forall_app in Hall as [Hteam Hall].
  apply Forall_cons in Hteam as [Hreg Hteam]. apply Forall_cons in Hteam as [Hpost _].
  simpl in Hreg, Hpost. simpl.
  rewrite (read_season_total _ _ _ _ Hreg), (read_season_total _ _ _ _ Hpost).
  unfold team_frame, season_frames. simpl.
  destruct (read_csv env (reg_season_path base_path year team)) as [reg|];
    destruct (read_csv env (post_season_path base_path year team)) as [post|]; simpl;
    rewrite (IH _ Hall); try done; by rewrite <- app_assoc.
Qed.

Lemma load_teams_Ok env year base_path teams acc l :
  load_teams env year base_path teams acc = Ok l ->
  Forall (found_or_absent env) (year_paths base_path year teams).
Proof.
  revert acc. induction teams as [|team teams IH]; intros acc; [constructor|].
  intros Hrest. simpl in Hrest.
  destruct (read_season env (reg_season_path base_path year team) "REG" [])
    as [l1|] eqn:H1; [|done].
  destruct (read_season env (post_season_path base_path year team) "PS" l1)
    as [l2|] eqn:H2; [|done].
  apply read_season_Ok in H1 as [Hreg _]. apply read_season_Ok in H2 as [Hpost _].
  unfold year_paths. rewrite bind_cons. apply Forall_app. split.
  { simpl. by repeat constructor. }
  destruct l2; by eapply IH.
Qed.

End LoaderFacts.

Section YearLoader.
Import Loader.

Lemma load_year_total env GAME_DATES year base_path team_ids :
  column "TEAM_ID" GAME_DATES = Ok team_ids ->
  Forall (found_or_absent env) (year_paths base_path year (drop_duplicates team_ids)) ->
  load_all_shot_data_for_year env GAME_DATES year base_path
  = Ok (year_frame env base_path year (drop_duplicates team_ids)).
Proof.
  intros Hids Hall. unfold load_all_shot_data_for_year, year_frame.
  rewrite Hids, (load_teams_total _ _ _ _ _ Hall). simpl.
  by destruct (omap _ _).
Qed.

Lemma load_year_Ok env GAME_DATES year base_path df :
  load_all_shot_data_for_year env GAME_DATES year base_path = Ok df ->
  exists team_ids,
    column "TEAM_ID" GAME_DATES = Ok team_ids /\
    Forall (found_or_absent env) (year_paths base_path year (drop_duplicates team_ids)) /\
    df = year_frame env base_path year (drop_duplicates team_ids).
Proof.
  intros Hrun. unfold load_all_shot_data_for_year in Hrun.
  destruct (column "TEAM_ID" GAME_DATES) as [team_ids|] eqn:Hids; [|done].
  destruct (load_teams env year base_path (drop_duplicates team_ids) []) as [l|] eqn:Hl;
    [|done].
  assert (Hall := load_teams_Ok _ _ _ _ _ _ Hl).
  exists team_ids. split; [done|]. split; [done|].
  rewrite (load_teams_total _ _ _ _ _ Hall) in Hl. simpl in Hl. injection Hl as <-.
  unfold year_frame. destruct (omap _ _); congruence.
Qed.

Lemma drop_duplicates_seen_spec seen l :
  (forall x, x ∈ drop_duplicates_seen seen l <-> x ∈ l /\ x ∉ seen) /\
  NoDup (drop_duplicates_seen seen l).
Proof.
  revert seen. induction l as [|y l IH]; intros seen; simpl.
  { split; [|constructor]. intros x. split; [by intros ?%elem_of_nil|].
    by intros [?%elem_of_nil _]. }
  destruct (decide (y ∈ seen)) as [Hy|Hy].
  - destruct (IH seen) as [Hin Hnd]. split; [|done]. intros x. rewrite Hin, elem_of_cons.
    split; [by intros [? ?]; auto|]. intros [[->|?] ?]; done.
  - destruct (IH (y :: seen)) as [Hin Hnd]. split.
    + intros x. rewrite elem_of_cons, Hin, !elem_of_cons. split.
      * intros [->|[? Hn]]; [auto|]. split; [auto|]. intros ?. apply Hn. by right.
      * intros [[->|?] Hn]; [by left|]. destruct (decide (x = y)) as [->|]; [by left|].
        right. split; [done|]. by intros [?|?].
    + constructor; [|done]. rewrite Hin. intros [_ Hn]. apply Hn. left.
Qed.

Lemma drop_duplicates_elem l x : x ∈ drop_duplicates l <-> x ∈ l.
Proof.
  unfold drop_duplicates. destruct (drop_duplicates_seen_spec [] l) as [-> _].
  split; [by intros [? _]|]. intros ?. split; [done|]. by intros ?%elem_of_nil.
Qed.

Lemma drop_duplicates_NoDup l : NoDup (drop_duplicates l).
Proof. apply drop_duplicates_seen_spec. Qed.

End YearLoader.

Section LoaderErrors.
Import Loader.

Lemma read_season_Raise env path label acc e :
  read_season env path label acc = Raise e ->
  read_csv env path = Raise e /\ forall q, e <> FileNotFoundError q.
Proof.
  unfold read_season. destruct (read_csv env path) as [df|[]]; try done;
    by intros [= <-].
Qed.

Lemma load_teams_Raise env year base_path teams acc e :
  load_teams env year base_path teams acc = Raise e ->
  exists p, p ∈ year_paths base_path year teams /\
    read_csv env p = Raise e /\ forall q, e <> FileNotFoundError q.
Proof.
  revert acc. induction teams as [|team teams IH]; intros acc; [done|].
  intros Hrun. simpl in Hrun. unfold year_paths. rewrite bind_cons.
  destruct (read_season env (reg_season_path base_path year team) "REG" [])
    as [l1|e1] eqn:H1.
  2:{ injection Hrun as ->. apply read_season_Raise in H1 as [? ?].
      eexists. split; [|done]. apply elem_of_app. left. left. }
  destruct (read_season env (post_season_path base_path year team) "PS" l1)
    as [l2|e2] eqn:H2.
  2:{ injection Hrun as ->. apply read_season_Raise in H2 as [? ?].
      eexists. split; [|done]. apply elem_of_app. left. right. left. }
  assert (Hrest : exists acc', load_teams env year base_path teams acc' = Raise e)
    by (destruct l2; eauto).
  destruct Hrest as [acc' Hrest]. destruct (IH _ Hrest) as (p & Hp & ?).
  exists p. split; [|done]. apply elem_of_app. by right.
Qed.

End LoaderErrors.

(** X16.  The loader of a year passes over a team file that is not there
    and nothing else: it returns exactly when each of the two files of
    every team of the registry is read or raises [FileNotFoundError];
    otherwise it raises what [pd.read_csv] raised for one of these files,
    which is not a [FileNotFoundError]. *)
Theorem load_year_passes_over_absent_files env GAME_DATES year base_path team_ids :
  column "TEAM_ID" GAME_DATES = Ok team_ids ->
  let paths := year_paths base_path year (Loader.drop_duplicates team_ids) in
  ((exists df, Loader.load_all_shot_data_for_year env GAME_DATES year base_path = Ok df)
   <-> Forall (found_or_absent env) paths) /\
  (forall e, Loader.load_all_shot_data_for_year env GAME_DATES year base_path = Raise e ->
     exists p, p ∈ paths /\ read_csv env p = Raise e /\ forall q, e <> FileNotFoundError q).
Proof.
  intros Hids. simpl. split; [split|].
  - intros [df Hrun]. apply load_year_Ok in Hrun as (ids & Hids' & Hall & _).
    by assert (ids = team_ids) as -> by congruence.
  - intros Hall. eexists. by apply load_year_total.
  - intros e Hrun. unfold Loader.load_all_shot_data_for_year in Hrun. rewrite Hids in Hrun.
    destruct (Loader.load_teams env year base_path (Loader.drop_duplicates team_ids) [])
      as [l|e'] eqn:Hl.
    + by destruct l.
    + injection Hrun as ->. by eapply load_teams_Raise.
Qed.

Lemma load_year_passes_over_absent_files_witness :
  column "TEAM_ID" Season.game_dates = Ok [Int 7; Int 8; Int 7] /\
  let paths := year_paths Season.base_path 2020 (Loader.drop_duplicates [Int 7; Int 8; Int 7]) in
  ((exists df, Loader.load_all_shot_data_for_year Season.env_broken Season.game_dates 2020
                 Season.base_path = Ok df)
   <-> Forall (found_or_absent Season.env_broken) paths) /\
  (forall e, Loader.load_all_shot_data_for_year Season.env_broken Season.game_dates 2020
               Season.base_path = Raise e ->
     exists p, p ∈ paths /\ read_csv Season.env_broken p = Raise e
               /\ forall q, e <> FileNotFoundError q).
Proof.
  assert (Hids : column "TEAM_ID" Season.game_dates = Ok [Int 7; Int 8; Int 7])
    by (vm_compute; reflexivity).
  split; [exact Hids|].
  exact (load_year_passes_over_absent_files Season.env_broken _ 2020 Season.base_path _ Hids).
Defined.

Section LoaderRows.
Import Loader.

Lemma to_float_idem v : to_float (to_float v) = to_float v.
Proof. by destruct v. Qed.

Lemma season_frames_elem env base_path year team df1 :
  df1 ∈ season_frames env base_path year team ->
  exists path label file,
    (path, label) ∈ season_paths base_path year team /\
    read_csv env path = Ok file /\
    df1 = assign_scalar "season_type" (Str label) file.
Proof.
  unfold season_frames. intros ([path label] & Hin & Hdf)%list_elem_of_omap.
  simpl in Hdf. destruct (read_csv env path) as [file|] eqn:Hread; [|done].
  injection Hdf as <-. by exists path, label, file.
Qed.

(** A row of the table of a team. *)
Lemma team_frame_rows env base_path year team tf r3 :
  team_frame env base_path year team = Some tf -> r3 ∈ rows tf ->
  lookup_label "year_source" r3 = Some (Int year) /\
  lookup_label "team_id" r3 = Some team /\
  exists path label file r,
    (path, label) ∈ season_paths base_path year team /\
    read_csv env path = Ok file /\ r ∈ rows file /\
    lookup_label "season_type" r3 = Some (Str label) /\
    forall c, c ∈ columns file -> c ∉ tag_columns ->
      lookup_label c r3 = Some (default NaN (lookup_label c r)) \/
      lookup_label c r3 = Some (to_float (default NaN (lookup_label c r))).
Proof.
  unfold team_frame. intros Htf Hr3.
  assert (Htf' : tf = assign_scalar "team_id" team
                        (assign_scalar "year_source" (Int year)
                           (concat (season_frames env base_path year team)))).
  { destruct (season_frames env base_path year team); [done|]. by injection Htf as <-. }
  clear Htf. subst tf. rewrite !assign_scalar_rows in Hr3.
  apply list_elem_of_fmap in Hr3 as (r2' & -> & Hr2').
  apply list_elem_of_fmap in Hr2' as (row2 & -> & Hrow2).
  split; [by rewrite lookup_set_cell_ne, lookup_set_cell_eq|].
  split; [by rewrite lookup_set_cell_eq|].
  destruct (concat_row_cells _ _ Hrow2) as (df1 & r1 & Hdf1 & Hr1 & Hcells).
  destruct (season_frames_elem _ _ _ _ _ Hdf1) as (path & label & file & Hin & Hread & ->).
  rewrite assign_scalar_rows in Hr1. apply list_elem_of_fmap in Hr1 as (r & -> & Hr).
  exists path, label, file, r. split; [done|]. split; [done|]. split; [done|].
  assert (Hunion : forall c, c ∈ columns (assign_scalar "season_type" (Str label) file) ->
                     c ∈ columns (concat (season_frames env base_path year team))).
  { intros c Hc. simpl. apply union_columns_elem. eauto. }
  split.
  - rewrite !lookup_set_cell_ne by done.
    destruct (Hcells "season_type"%string) as [[Hc|Hc] _];
      [apply Hunion, assign_scalar_column|..];
      rewrite Hc, lookup_set_cell_eq; done.
  - intros c Hc Htag.
    assert (Hne : c <> "season_type"%string /\ c <> "year_source"%string
                  /\ c <> "team_id"%string).
    { unfold tag_columns in Htag. repeat split; intros ->; apply Htag.
      - left.
      - right. left.
      - right. right. left. }
    destruct Hne as (Hn1 & Hn2 & Hn3).
    rewrite !lookup_set_cell_ne by done.
    destruct (Hcells c) as [Hcell _]; [by apply Hunion, assign_scalar_columns_mono|].
    by rewrite lookup_set_cell_ne in Hcell by done.
Qed.

Lemma team_frame_columns env base_path year team tf :
  team_frame env base_path year team = Some tf ->
  Forall (fun c => c ∈ columns tf) tag_columns /\
  forall path label file,
    (path, label) ∈ season_paths base_path year team ->
    read_csv env path = Ok file ->
    forall c, c ∈ columns file -> c ∈ columns tf.
Proof.
  unfold team_frame. intros Htf.
  destruct (season_frames env base_path year team) as [|df0 dfs] eqn:Hdfs; [done|].
  injection Htf as <-. rewrite <- Hdfs.
  assert (Hseason : forall c df1, df1 ∈ season_frames env base_path year team ->
                      c ∈ columns df1 ->
                      c ∈ columns (assign_scalar "team_id" team
                                     (assign_scalar "year_source" (Int year)
                                        (concat (season_frames env base_path year team))))).
  { intros c df1 Hdf1 Hc. do 2 apply assign_scalar_columns_mono.
    simpl. apply union_columns_elem. eauto. }
  split.
  - unfold tag_columns. repeat constructor.
    + assert (Hdf0 : df0 ∈ season_frames env base_path year team) by (rewrite Hdfs; left).
      destruct (season_frames_elem _ _ _ _ _ Hdf0) as (path & label & file & _ & _ & Heq).
      apply (Hseason _ df0 Hdf0). rewrite Heq. apply assign_scalar_column.
    + apply assign_scalar_columns_mono, assign_scalar_column.
    + apply assign_scalar_column.
  - intros path label file Hin Hread c Hc.
    apply (Hseason c (assign_scalar "season_type" (Str label) file)).
    + unfold season_frames. apply list_elem_of_omap. exists (path, label).
      split; [done|]. simpl. by rewrite Hread.
    + by apply assign_scalar_columns_mono.
Qed.

(** A row of the table of a year. *)
Lemma year_frame_rows env base_path year teams row :
  row ∈ rows (year_frame env base_path year teams) ->
  exists team path label file r,
    team ∈ teams /\ (path, label) ∈ season_paths base_path year team /\
    read_csv env path = Ok file /\ r ∈ rows file /\
    lookup_label "season_type" row = Some (Str label) /\
    lookup_label "year_source" row = Some (Int year) /\
    (lookup_label "team_id" row = Some team
     \/ lookup_label "team_id" row = Some (to_float team)) /\
    forall c, c ∈ columns file -> c ∉ tag_columns ->
      lookup_label c row = Some (default NaN (lookup_label c r)) \/
      lookup_label c row = Some (to_float (default NaN (lookup_label c r))).
Proof.
  unfold year_frame. intros Hrow.
  assert (Hrow' : row ∈ rows (concat (omap (team_frame env base_path year) teams))).
  { destruct (omap _ teams); [by apply elem_of_nil in Hrow|done]. }
  clear Hrow. destruct (concat_row_cells _ _ Hrow') as (tf & r3 & Htf & Hr3 & Hcells).
  apply list_elem_of_omap in Htf as (team & Hteam & Htf).
  destruct (team_frame_rows _ _ _ _ _ _ Htf Hr3)
    as (Hys & Htid & path & label & file & r & Hin & Hread & Hr & Hst & Hraw).
  destruct (team_frame_columns _ _ _ _ _ Htf) as [Htags Hfile].
  assert (Hunion : forall c, c ∈ columns tf ->
                     c ∈ columns (concat (omap (team_frame env base_path year) teams))).
  { intros c Hc. simpl. apply union_columns_elem. exists tf. split; [|done].
    apply list_elem_of_omap. eauto. }
  apply Forall_cons in Htags as [Hc1 Htags]. apply Forall_cons in Htags as [Hc2 Htags].
  apply Forall_cons in Htags as [Hc3 _].
  exists team, path, label, file, r.
  split; [done|]. split; [done|]. split; [done|]. split; [done|]. split; [|split; [|split]].
  - destruct (Hcells _ (Hunion _ Hc1)) as [[Hc|Hc] _]; by rewrite Hc, Hst.
  - destruct (Hcells _ (Hunion _ Hc2)) as [_ Hexact]. rewrite Hexact, Hys; [done|].
    intros tf' r' Htf' Hr'. apply list_elem_of_omap in Htf' as (team' & _ & Htf').
    destruct (team_frame_rows _ _ _ _ _ _ Htf' Hr') as (-> & _). done.
  - destruct (Hcells _ (Hunion _ Hc3)) as [[Hc|Hc] _]; rewrite Hc, Htid; auto.
  - intros c Hc Htag.
    destruct (Hcells _ (Hunion _ (Hfile _ _ _ Hin Hread c Hc))) as [[Hcell|Hcell] _];
      destruct (Hraw c Hc Htag) as [Hr3c|Hr3c]; rewrite Hcell, Hr3c; simpl;
      rewrite ?to_float_idem; auto.
Qed.

End LoaderRows.

(** X17.  Where a loaded row comes from: every row of the table the
    loader of a year returns is a row of the regular-season or the
    postseason file of a team of the registry, tagged [REG] or [PS]
    accordingly, with the year in [year_source] and the team in
    [team_id] (as a float when the column became float64); under every
    other column of that file it has the cell of that row, as it was or
    as a float. *)
Theorem loaded_row_provenance env GAME_DATES year base_path df team_ids :
  Loader.load_all_shot_data_for_year env GAME_DATES year base_path = Ok df ->
  column "TEAM_ID" GAME_DATES = Ok team_ids ->
  forall row, row ∈ rows df ->
    exists team path label file r,
      team ∈ team_ids /\ (path, label) ∈ season_paths base_path year team /\
      read_csv env path = Ok file /\ r ∈ rows file /\
      lookup_label "season_type" row = Some (Str label) /\
      lookup_label "year_source" row = Some (Int year) /\
      (lookup_label "team_id" row = Some team
       \/ lookup_label "team_id" row = Some (to_float team)) /\
      forall c, c ∈ columns file -> c ∉ tag_columns ->
        lookup_label c row = Some (default NaN (lookup_label c r)) \/
        lookup_label c row = Some (to_float (default NaN (lookup_label c r))).
Proof.
  intros Hrun Hids row Hrow.
  apply load_year_Ok in Hrun as (ids & Hids' & _ & ->).
  assert (ids = team_ids) as -> by congruence.
  destruct (year_frame_rows _ _ _ _ _ Hrow)
    as (team & path & label & file & r & Hteam & Hrest).
  exists team, path, label, file, r. split; [|done]. by apply drop_duplicates_elem.
Qed.

Lemma loaded_row_provenance_witness :
  Loader.load_all_shot_data_for_year Season.env Season.game_dates 2021 Season.base_path
    = Ok Season.year_2021 /\
  column "TEAM_ID" Season.game_dates = Ok [Int 7; Int 8; Int 7] /\
  forall row, row ∈ rows Season.year_2021 ->
    exists team path label file r,
      team ∈ [Int 7; Int 8; Int 7] /\
      (path, label) ∈ season_paths Season.base_path 2021 team /\
      read_csv Season.env path = Ok file /\ r ∈ rows file /\
      lookup_label "season_type" row = Some (Str label) /\
      lookup_label "year_source" row = Some (Int 2021) /\
      (lookup_label "team_id" row = Some team
       \/ lookup_label "team_id" row = Some (to_float team)) /\
      forall c, c ∈ columns file -> c ∉ tag_columns ->
        lookup_label c row = Some (default NaN (lookup_label c r)) \/
        lookup_label c row = Some (to_float (default NaN (lookup_label c r))).
Proof.
  assert (Hrun : Loader.load_all_shot_data_for_year Season.env Season.game_dates 2021
                   Season.base_path = Ok Season.year_2021) by (vm_compute; reflexivity).
  assert (Hids : column "TEAM_ID" Season.game_dates = Ok [Int 7; Int 8; Int 7])
    by (vm_compute; reflexivity).
  split; [exact Hrun|]. split; [exact Hids|].
  exact (loaded_row_provenance _ _ _ _ _ _ Hrun Hids).
Defined.

Section LoaderCounts.
Import Loader.

Lemma loaded_app env fs1 fs2 : loaded env (fs1 ++ fs2) = loaded env fs1 ++ loaded env fs2.
Proof. unfold loaded. apply omap_app. Qed.

Lemma team_frame_len env base_path year team :
  from_option len 0%nat (team_frame env base_path year team)
  = sum_list (len <$> loaded env (season_paths base_path year team).*1).
Proof.
  unfold team_frame, season_frames, loaded. simpl.
  destruct (read_csv env (reg_season_path base_path year team)) as [reg|];
    destruct (read_csv env (post_season_path base_path year team)) as [post|]; simpl;
    rewrite ?assign_scalar_len, ?concat_len; simpl; rewrite ?assign_scalar_len; lia.
Qed.

Lemma year_frame_len env base_path year teams :
  len (year_frame env base_path year teams)
  = sum_list (len <$> loaded env (year_paths base_path year teams)).
Proof.
  assert (Hsum : sum_list (len <$> omap (team_frame env base_path year) teams)
                 = sum_list (len <$> loaded env (year_paths base_path year teams))).
  { unfold year_paths. induction teams as [|team teams IH]; [done|].
    rewrite bind_cons, loaded_app, fmap_app, sum_list_with_app, <- IH, <- team_frame_len.
    simpl. unfold omap. simpl. destruct (team_frame env base_path year team); done. }
  unfold year_frame. rewrite <- Hsum.
  destruct (omap _ teams) as [|tf tfs] eqn:Hfs; [done|]. by rewrite concat_len.
Qed.

End LoaderCounts.

(** X18.  The loader of a year reads the files of each team of the
    registry once, however often the registry lists the team, and the
    table it returns has as many rows as the files it found have
    together. *)
Theorem loaded_row_count env GAME_DATES year base_path df team_ids :
  Loader.load_all_shot_data_for_year env GAME_DATES year base_path = Ok df ->
  column "TEAM_ID" GAME_DATES = Ok team_ids ->
  exists teams,
    NoDup teams /\ (forall team, team ∈ teams <-> team ∈ team_ids) /\
    len df = sum_list (len <$> loaded env (year_paths base_path year teams)).
Proof.
  intros Hrun Hids. apply load_year_Ok in Hrun as (ids & Hids' & _ & ->).
  assert (ids = team_ids) as -> by congruence.
  exists (Loader.drop_duplicates team_ids).
  split; [apply drop_duplicates_NoDup|]. split; [apply drop_duplicates_elem|].
  apply year_frame_len.
Qed.

Lemma loaded_row_count_witness :
  Loader.load_all_shot_data_for_year Season.env Season.game_dates 2021 Season.base_path
    = Ok Season.year_2021 /\
  column "TEAM_ID" Season.game_dates = Ok [Int 7; Int 8; Int 7] /\
  exists teams,
    NoDup teams /\ (forall team, team ∈ teams <-> team ∈ [Int 7; Int 8; Int 7]) /\
    len Season.year_2021
    = sum_list (len <$> loaded Season.env (year_paths Season.base_path 2021 teams)).
Proof.
  assert (Hrun : Loader.load_all_shot_data_for_year Season.env Season.game_dates 2021
                   Season.base_path = Ok Season.year_2021) by (vm_compute; reflexivity).
  assert (Hids : column "TEAM_ID" Season.game_dates = Ok [Int 7; Int 8; Int 7])
    by (vm_compute; reflexivity).
  split; [exact Hrun|]. split; [exact Hids|].
  exact (loaded_row_count _ _ _ _ _ _ Hrun Hids).
Defined.

Section AllYears.
Import Loader.

Lemma year_frame_columns env base_path year teams :
  rows (year_frame env base_path year teams) <> [] ->
  Forall (fun c => c ∈ columns (year_frame env base_path year teams)) tag_columns.
Proof.
  unfold year_frame. intros Hrows.
  destruct (omap (team_frame env base_path year) teams) as [|tf0 tfs] eqn:Hfs; [done|].
  rewrite <- Hfs in *.
  destruct (rows (concat (omap (team_frame env base_path year) teams)))
    as [|row rest] eqn:Hr; [done|].
  assert (Hrow : row ∈ rows (concat (omap (team_frame env base_path year) teams)))
    by (rewrite Hr; left).
  destruct (concat_row_cells _ _ Hrow) as (tf & _ & Htf & _).
  assert (Htf' := Htf). apply list_elem_of_omap in Htf' as (team & _ & Hteam).
  destruct (team_frame_columns _ _ _ _ _ Hteam) as [Htags _].
  eapply Forall_impl; [exact Htags|]. intros c Hc. simpl.
  apply union_columns_elem. eauto.
Qed.

Lemma year_frame_is_empty env base_path year teams :
  is_empty (year_frame env base_path year teams)
  = bool_decide (rows (year_frame env base_path year teams) = []).
Proof.
  unfold is_empty. case_bool_decide as Hrows; [done|]. simpl.
  apply bool_decide_eq_false. intros Hcols.
  apply year_frame_columns in Hrows. apply Forall_cons in Hrows as [Hc _].
  rewrite Hcols in Hc. by apply elem_of_nil in Hc.
Qed.

Lemma season_counts (rs : list Series) :
  (forall r, r ∈ rs -> lookup_label "season_type" r = Some (Str "REG")
                       \/ lookup_label "season_type" r = Some (Str "PS")) ->
  exists col, traverse (fun r => get r "season_type") rs = Ok col /\
    (length (List.filter (fun v => eq_str v "REG") col)
     + length (List.filter (fun v => eq_str v "PS") col) = length rs)%nat.
Proof.
  induction rs as [|r rs IH]; intros Hall; [by exists []|].
  destruct IH as (col & Hcol & Hlen); [intros r' Hr'; apply Hall; by right|].
  simpl. unfold get at 1. rewrite Hcol.
  destruct (Hall r) as [-> | ->]; [left|..]; eexists; (split; [done|]); simpl; lia.
Qed.

Lemma year_frame_season_column env base_path year teams :
  rows (year_frame env base_path year teams) <> [] ->
  exists col, column "season_type" (year_frame env base_path year teams) = Ok col /\
    (length (List.filter (fun v => eq_str v "REG") col)
     + length (List.filter (fun v => eq_str v "PS") col)
     = len (year_frame env base_path year teams))%nat.
Proof.
  intros Hrows. unfold column, has_column.
  assert (Hc := year_frame_columns _ _ _ _ Hrows). apply Forall_cons in Hc as [Hc _].
  rewrite bool_decide_true by done. apply season_counts. intros r Hr.
  destruct (year_frame_rows _ _ _ _ _ Hr)
    as (team & path & label & file & r0 & _ & Hin & _ & _ & -> & _).
  unfold season_paths in Hin.
  apply elem_of_cons in Hin as [[= _ ->]|Hin]; [by left|].
  apply list_elem_of_singleton in Hin as [= _ ->]. by right.
Qed.

Lemma processed_years_app out1 out2 :
  processed_years (out1 ++ out2) = processed_years out1 ++ processed_years out2.
Proof. unfold processed_years. apply omap_app. Qed.

Lemma reported_shots_app out1 out2 :
  reported_shots (out1 ++ out2) = (reported_shots out1 + reported_shots out2)%nat.
Proof. unfold reported_shots. by rewrite omap_app, sum_list_with_app. Qed.

(** The loop over the years, whichever way it ends. *)
Lemma load_years_run env GAME_DATES base_path years acc out :
  match load_years env GAME_DATES base_path years acc out with
  | (Ok l, out') =>
      exists frames,
        Forall2 (fun year f =>
                   load_all_shot_data_for_year env GAME_DATES year base_path = Ok f)
          years frames /\
        l = acc ++ filter (fun f => rows f <> []) frames /\
        processed_years out' = processed_years out ++ years /\
        reported_shots out' = (reported_shots out + sum_list (len <$> frames))%nat /\
        exists more, out' = out ++ more
  | (Raise e, out') =>
      exists year, year ∈ years /\
        load_all_shot_data_for_year env GAME_DATES year base_path = Raise e /\
        last out' = Some (Processing year)
  end.
Proof.
  revert acc out. induction years as [|year years IH]; intros acc out; simpl.
  { exists []. split; [constructor|]. rewrite !app_nil_r. repeat split; try done.
    exists []. by rewrite app_nil_r. }
  destruct (load_all_shot_data_for_year env GAME_DATES year base_path) as [f|e] eqn:Hyear.
  2:{ exists year. split; [left|]. split; [done|]. by rewrite last_snoc. }
  destruct (load_year_Ok _ _ _ _ _ Hyear) as (ids & _ & _ & Hf).
  assert (Hempty : is_empty f = bool_decide (rows f = []))
    by (rewrite Hf; apply year_frame_is_empty).
  rewrite Hempty. case_bool_decide as Hrows.
  - specialize (IH acc ((out ++ [Processing year]) ++ [NoDataFound])).
    destruct (load_years _ _ _ _ _ _) as [[l|e] out'].
    + destruct IH as (frames & Hall & -> & Hproc & Hrep & more & ->).
      exists (f :: frames). split; [by constructor|].
      rewrite filter_cons_False by (by intros ?). split; [done|].
      split. { rewrite Hproc, !processed_years_app. simpl. by rewrite app_nil_r, <- app_assoc. }
      split. { assert (Hlenf : len f = 0%nat) by (unfold len; by rewrite Hrows).
               rewrite Hrep, !reported_shots_app, fmap_cons.
               change (reported_shots [Processing year]) with 0%nat.
               change (reported_shots [NoDataFound]) with 0%nat.
               change (sum_list (len f :: (len <$> frames)))
                 with (len f + sum_list (len <$> frames))%nat.
               rewrite Hlenf. lia. }
      eexists. by rewrite <- !app_assoc.
    + destruct IH as (y & Hy & ? & ?). exists y. split; [by right|done].
  - assert (Hcol : exists col, column "season_type" f = Ok col /\
              (length (List.filter (fun v => eq_str v "REG") col)
               + length (List.filter (fun v => eq_str v "PS") col) = len f)%nat).
    { rewrite Hf in *. by apply year_frame_season_column. }
    destruct Hcol as (col & -> & Hlen).
    match goal with
    | |- context [load_years _ _ _ _ ?a ?o] => specialize (IH a o)
    end.
    destruct (load_years _ _ _ _ _ _) as [[l|e] out'].
    + destruct IH as (frames & Hall & -> & Hproc & Hrep & more & ->).
      exists (f :: frames). split; [by constructor|].
      rewrite filter_cons_True by done. split; [by rewrite <- app_assoc|].
      split. { rewrite Hproc, !processed_years_app. simpl. by rewrite app_nil_r, <- app_assoc. }
      split. { rewrite Hrep, !reported_shots_app, fmap_cons.
               change (reported_shots [Processing year]) with 0%nat.
               match goal with
               | |- context [reported_shots [Complete ?a ?b]] =>
                   change (reported_shots [Complete a b]) with (a + b + 0)%nat
               end.
               change (sum_list (len f :: (len <$> frames)))
                 with (len f + sum_list (len <$> frames))%nat.
               rewrite Hlen. lia. }
      eexists. by rewrite <- !app_assoc.
    + destruct IH as (y & Hy & ? & ?). exists y. split; [by right|done].
Qed.

Lemma concat_nonempty dfs df :
  df ∈ dfs -> rows df <> [] -> rows (concat dfs) <> [].
Proof.
  intros Hdf Hrows. unfold concat. simpl.
  destruct (rows df) as [|r rs] eqn:Hr; [done|].
  assert (Hin : r ∈ dfs ≫= rows).
  { apply list_elem_of_bind. exists df. rewrite Hr. split; [left|done]. }
  destruct (dfs ≫= rows); [by apply elem_of_nil in Hin|done].
Qed.

Lemma sum_len_filter (frames : list DataFrame) :
  sum_list (len <$> filter (fun f => rows f <> []) frames) = sum_list (len <$> frames).
Proof.
  induction frames as [|f frames IH]; [done|].
  destruct (decide (rows f <> [])) as [Hne|He].
  - rewrite filter_cons_True by done. rewrite !fmap_cons.
    change (sum_list (len f :: (len <$> filter (fun f => rows f <> []) frames)))
      with (len f + sum_list (len <$> filter (fun f => rows f <> []) frames))%nat.
    by rewrite IH.
  - rewrite filter_cons_False by done. rewrite fmap_cons, IH.
    change (sum_list (len f :: (len <$> frames)))
      with (len f + sum_list (len <$> frames))%nat.
    apply dec_stable in He. unfold len at 2. by rewrite He.
Qed.

End AllYears.

Section AllYearsRun.
Import Loader.

(** A run of the loader that returns. *)
Lemma load_all_Ok env GAME_DATES years base_path df out :
  load_all_shot_data env GAME_DATES years base_path = (Ok df, out) ->
  exists frames more,
    Forall2 (fun year f =>
               load_all_shot_data_for_year env GAME_DATES year base_path = Ok f)
      years frames /\
    processed_years (LoadingYears years :: more) = years /\
    reported_shots (LoadingYears years :: more) = sum_list (len <$> frames) /\
    ((filter (fun f => rows f <> []) frames = [] /\ df = empty_frame
      /\ out = LoadingYears years :: more ++ [NoDataLoadedForAnyYear])
     \/ (filter (fun f => rows f <> []) frames <> []
         /\ df = concat (filter (fun f => rows f <> []) frames)
         /\ out = LoadingYears years :: more
                    ++ [TotalShotsLoaded (len df) (length years)])).
Proof.
  unfold load_all_shot_data.
  assert (Hrun := load_years_run env GAME_DATES base_path years [] [LoadingYears years]).
  destruct (load_years _ _ _ _ _ _) as [[l|e] out']; [|by intros ?].
  destruct Hrun as (frames & Hall & -> & Hproc & Hrep & more & ->).
  intros Hres. exists frames, more. split; [done|]. split; [done|]. split; [done|].
  simpl in Hres. destruct (filter (fun f => rows f <> []) frames) as [|f0 fs] eqn:Hl.
  - left. by injection Hres as <- <-.
  - right. split; [done|]. by injection Hres as <- <-.
Qed.

End AllYearsRun.

(** X19.  What the loader of all years prints adds up: the log starts
    with the list of years, has one [Processing] line per year in order,
    the regular-season and postseason counts it reports for the years sum
    to the number of rows of the table returned, which is the sum of the
    rows of the years' tables, and the last line is the total, or the
    notice that nothing was loaded when the table has no rows. *)
Theorem load_report_adds_up env GAME_DATES years base_path df out :
  Loader.load_all_shot_data env GAME_DATES years base_path = (Ok df, out) ->
  head out = Some (Loader.LoadingYears years) /\
  processed_years out = years /\
  reported_shots out = len df /\
  last out = Some (if bool_decide (rows df = []) then Loader.NoDataLoadedForAnyYear
                   else Loader.TotalShotsLoaded (len df) (length years)) /\
  exists frames,
    Forall2 (fun year f =>
               Loader.load_all_shot_data_for_year env GAME_DATES year base_path = Ok f)
      years frames /\
    len df = sum_list (len <$> frames).
Proof.
  intros Hrun.
  destruct (load_all_Ok _ _ _ _ _ _ Hrun) as (frames & more & Hall & Hproc & Hrep & Hcase).
  assert (Hsum := sum_len_filter frames).
  destruct Hcase as [(Hnil & -> & ->) | (Hne & Hdf & ->)].
  - rewrite Hnil in Hsum. split; [done|].
    split. { rewrite app_comm_cons, processed_years_app, Hproc. simpl. by rewrite app_nil_r. }
    split. { rewrite app_comm_cons, reported_shots_app, Hrep, <- Hsum. done. }
    split. { by rewrite app_comm_cons, last_snoc. }
    exists frames. split; [done|]. by rewrite <- Hsum.
  - assert (Hlen : len df = sum_list (len <$> frames)).
    { rewrite Hdf, concat_len. exact Hsum. }
    assert (Hrows : rows df <> []).
    { destruct (filter (fun f => rows f <> []) frames) as [|f0 fs] eqn:Hl; [done|].
      assert (Hf0 : f0 ∈ filter (fun f => rows f <> []) frames) by (rewrite Hl; left).
      apply list_elem_of_filter in Hf0 as [Hf0 _]. rewrite Hdf.
      apply (concat_nonempty _ f0); [left|done]. }
    split; [done|].
    split. { rewrite app_comm_cons, processed_years_app, Hproc. simpl. by rewrite app_nil_r. }
    split. { rewrite app_comm_cons, reported_shots_app, Hrep, Hlen.
             change (reported_shots [Loader.TotalShotsLoaded (sum_list (len <$> frames))
                                       (length years)]) with 0%nat. lia. }
    split. { rewrite app_comm_cons, last_snoc. by rewrite bool_decide_false. }
    by exists frames.
Qed.

Lemma load_report_adds_up_witness :
  Loader.load_all_shot_data Season.env Season.game_dates Season.years Season.base_path
    = (Ok Season.loaded_shots, Season.load_log) /\
  head Season.load_log = Some (Loader.LoadingYears Season.years) /\
  processed_years Season.load_log = Season.years /\
  reported_shots Season.load_log = len Season.loaded_shots /\
  last Season.load_log
    = Some (if bool_decide (rows Season.loaded_shots = [])
            then Loader.NoDataLoadedForAnyYear
            else Loader.TotalShotsLoaded (len Season.loaded_shots) (length Season.years)) /\
  exists frames,
    Forall2 (fun year f =>
               Loader.load_all_shot_data_for_year Season.env Season.game_dates year
                 Season.base_path = Ok f)
      Season.years frames /\
    len Season.loaded_shots = sum_list (len <$> frames).
Proof.
  assert (Hrun : Loader.load_all_shot_data Season.env Season.game_dates Season.years
                   Season.base_path = (Ok Season.loaded_shots, Season.load_log))
    by (vm_compute; reflexivity).
  split; [exact Hrun|].
  exact (load_report_adds_up _ _ _ _ _ _ Hrun).
Defined.

(** X20.  Every row of the table the loader of all years returns is a
    row of the table of one of the years asked for: it has that year in
    [year_source], as an integer, and under every column of that year's
    table the cell of that row, as it was or as a float. *)
Theorem load_all_row_provenance env GAME_DATES years base_path df out :
  Loader.load_all_shot_data env GAME_DATES years base_path = (Ok df, out) ->
  forall row, row ∈ rows df ->
    exists year f r,
      year ∈ years /\
      Loader.load_all_shot_data_for_year env GAME_DATES year base_path = Ok f /\
      r ∈ rows f /\
      lookup_label "year_source" r = Some (Int year) /\
      lookup_label "year_source" row = Some (Int year) /\
      forall c, c ∈ columns f ->
        lookup_label c row = Some (default NaN (lookup_label c r)) \/
        lookup_label c row = Some (to_float (default NaN (lookup_label c r))).
Proof.
  intros Hrun row Hrow.
  destruct (load_all_Ok _ _ _ _ _ _ Hrun) as (frames & more & Hall & _ & _ & Hcase).
  destruct Hcase as [(_ & -> & _) | (_ & -> & _)]; [by apply elem_of_nil in Hrow|].
  assert (Hyear : forall f r, f ∈ filter (fun f => rows f <> []) frames -> r ∈ rows f ->
            exists year, year ∈ years /\
              Loader.load_all_shot_data_for_year env GAME_DATES year base_path = Ok f /\
              lookup_label "year_source" r = Some (Int year) /\
              "year_source"%string ∈ columns f).
  { intros f r [Hne Hf]%list_elem_of_filter Hr.
    destruct (Forall2_elem_of_r _ _ _ _ Hall Hf) as (year & Hy & Hload).
    exists year. split; [done|]. split; [done|].
    destruct (load_year_Ok _ _ _ _ _ Hload) as (ids & _ & _ & ->).
    destruct (year_frame_rows _ _ _ _ _ Hr) as (? & ? & ? & ? & ? & _ & _ & _ & _ & _ & Hys & _).
    split; [done|].
    assert (Hc := year_frame_columns _ _ _ _ Hne).
    apply Forall_cons in Hc as [_ Hc]. by apply Forall_cons in Hc as [Hc _]. }
  destruct (concat_row_cells _ _ Hrow) as (f & r & Hf & Hr & Hcells).
  destruct (Hyear f r Hf Hr) as (year & Hy & Hload & Hys & Hcol).
  assert (Hunion : forall c, c ∈ columns f ->
            c ∈ columns (concat (filter (fun f => rows f <> []) frames))).
  { intros c Hc. simpl. apply union_columns_elem. eauto. }
  exists year, f, r. split; [done|]. split; [done|]. split; [done|]. split; [done|]. split.
  - destruct (Hcells _ (Hunion _ Hcol)) as [_ Hexact]. rewrite Hexact, Hys; [done|].
    intros f' r' Hf' Hr'. by destruct (Hyear f' r' Hf' Hr') as (year' & _ & _ & -> & _).
  - intros c Hc. by destruct (Hcells _ (Hunion _ Hc)) as [? _].
Qed.

Lemma load_all_row_provenance_witness :
  Loader.load_all_shot_data Season.env Season.game_dates Season.years Season.base_path
    = (Ok Season.loaded_shots, Season.load_log) /\
  forall row, row ∈ rows Season.loaded_shots ->
    exists year f r,
      year ∈ Season.years /\
      Loader.load_all_shot_data_for_year Season.env Season.game_dates year Season.base_path
        = Ok f /\
      r ∈ rows f /\
      lookup_label "year_source" r = Some (Int year) /\
      lookup_label "year_source" row = Some (Int year) /\
      forall c, c ∈ columns f ->
        lookup_label c row = Some (default NaN (lookup_label c r)) \/
        lookup_label c row = Some (to_float (default NaN (lookup_label c r))).
Proof.
  assert (Hrun : Loader.load_all_shot_data Season.env Season.game_dates Season.years
                   Season.base_path = (Ok Season.loaded_shots, Season.load_log))
    by (vm_compute; reflexivity).
  split; [exact Hrun|].
  exact (load_all_row_provenance _ _ _ _ _ _ Hrun).
Defined.



(** * The workflow *)

Section Workflow.
Import Loader.

Lemma prepare_shots_columns t shots c :
  prepare_shots t = Ok shots -> c ∈ columns t -> c <> "year"%string -> c ∈ columns shots.
Proof.
  unfold prepare_shots. intros H Hc Hne.
  destruct (if has_column "year" t then drop ["year"] t else Ok t) as [t0|] eqn:H0;
    simpl in H; [|done].
  destruct (astype "GAME_ID" to_str t0) as [t1|] eqn:H1; simpl in H; [|done].
  destruct (astype_Ok _ _ _ _ H) as [-> _], (astype_Ok _ _ _ _ H1) as [-> _].
  destruct (has_column "year" t).
  - apply drop_Ok in H0 as [-> _]. apply list_elem_of_filter. split; [|done].
    by intros ?%list_elem_of_singleton.
  - by injection H0 as <-.
Qed.

Lemma merge_left_keeps_column left right left_on right_on joined c :
  merge_left left right left_on right_on = Ok joined ->
  c ∈ columns left -> c ∉ columns right -> c ∈ columns joined.
Proof.
  unfold merge_left. intros Hm Hc Hn.
  destruct (filter _ left_on); [|done]. destruct (filter _ right_on); [|done].
  injection Hm as <-. simpl. apply elem_of_app. left.
  apply list_elem_of_fmap. exists c. split; [|done].
  unfold suffixed. rewrite decide_False; [done|]. by intros [? _]%list_elem_of_filter.
Qed.

(** A column of the shot table whose name is not the name of a mapping
    column is a column of the merged table. *)
Lemma merge_keeps_column env backup_file_path w merged_df w' c :
  merge_with_uuid_data env backup_file_path w = (Ok merged_df, w') ->
  c ∈ columns (table w) -> c ∉ backup_columns -> c ∈ columns merged_df.
Proof.
  intros Hrun Hc Hn.
  apply merge_with_uuid_data_Ok in Hrun
    as (backup_df & shots & right & joined & trimmed & urls
        & _ & Hprep & Hright & Hjoin & Hdrop & _ & -> & _).
  assert (Hrc : columns right = backup_columns).
  { unfold prepare_backup in Hright.
    destruct (astype "game_id" to_str backup_df) as [b1|]; simpl in Hright; [|done].
    destruct (astype "action_number" to_int64 b1) as [b2|]; simpl in Hright; [|done].
    by apply select_Ok in Hright as [? _]. }
  assert (Hshots : c ∈ columns shots).
  { eapply prepare_shots_columns; [done..|]. intros ->. apply Hn. unfold backup_columns.
    do 2 right. left. }
  assert (Hjoined : c ∈ columns joined).
  { eapply merge_left_keeps_column; [done..|]. by rewrite Hrc. }
  apply drop_Ok in Hdrop as [Htc _].
  assert (Htrimmed : c ∈ columns trimmed).
  { rewrite Htc. apply list_elem_of_filter. split; [|done]. intros Hin. apply Hn.
    unfold backup_columns. apply elem_of_cons in Hin as [->|Hin]; [left|].
    apply list_elem_of_singleton in Hin as ->. right. left. }
  simpl. destruct (has_column "video_url" trimmed); [done|]. apply elem_of_app. by left.
Qed.

(** The table the loader returns, when it has rows, has the three tag
    columns. *)
Lemma load_all_columns env GAME_DATES years base_path df out :
  load_all_shot_data env GAME_DATES years base_path = (Ok df, out) ->
  is_empty df = false ->
  Forall (fun c => c ∈ columns df) tag_columns.
Proof.
  intros Hrun Hne.
  destruct (load_all_Ok _ _ _ _ _ _ Hrun) as (frames & more & Hall & _ & _ & Hcase).
  destruct Hcase as [(_ & -> & _) | (Hl & -> & _)]; [done|].
  destruct (filter (fun f => rows f <> []) frames) as [|f0 fs] eqn:Hfs; [done|].
  assert (Hf0 : f0 ∈ filter (fun f => rows f <> []) frames) by (rewrite Hfs; left).
  rewrite <- Hfs. apply list_elem_of_filter in Hf0 as [Hrows Hf0'].
  destruct (Forall2_elem_of_r _ _ _ _ Hall Hf0') as (year & _ & Hload).
  destruct (load_year_Ok _ _ _ _ _ Hload) as (ids & _ & _ & Heq). subst f0.
  eapply Forall_impl; [exact (year_frame_columns _ _ _ _ Hrows)|].
  intros c Hc. simpl. apply union_columns_elem. eexists. split; [|exact Hc].
  rewrite Hfs. left.
Qed.

Lemma year_frame_absent env base_path year teams :
  Forall (fun p => exists q, read_csv env p = Raise (FileNotFoundError q))
    (year_paths base_path year teams) ->
  year_frame env base_path year teams = empty_frame.
Proof.
  intros Hall. unfold year_frame.
  assert (Hnone : omap (team_frame env base_path year) teams = []).
  { unfold year_paths in Hall. induction teams as [|team teams IH]; [done|].
    rewrite bind_cons in Hall. apply Forall_app in Hall as [Hteam Hall].
    apply Forall_cons in Hteam as [[q1 Hreg] Hteam].
    apply Forall_cons in Hteam as [[q2 Hpost] _]. simpl in Hreg, Hpost.
    unfold omap. simpl. unfold team_frame at 1, season_frames. simpl.
    rewrite Hreg, Hpost. simpl. by apply IH. }
  by rewrite Hnone.
Qed.

End Workflow.

(** X22.  With no shot file on disk (the registry can be read, and every
    file of every team and year asked for raises [FileNotFoundError]) the
    workflow prints that nothing was loaded and ends: the mapping file is
    not read, nothing is merged or saved, and the table, the files, the
    directories and what the later stages print are as they were. *)
Theorem workflow_without_shot_files env years base_path backup_file_path base_output_dir w
    GAME_DATES team_ids :
  read_csv env Loader.game_dates_url = Ok GAME_DATES ->
  column "TEAM_ID" GAME_DATES = Ok team_ids ->
  (forall year, year ∈ years ->
     Forall (fun p => exists q, read_csv env p = Raise (FileNotFoundError q))
       (year_paths base_path year (Loader.drop_duplicates team_ids))) ->
  exists out,
    Loader.workflow env years base_path backup_file_path base_output_dir w
      = ((Ok tt, w), out) /\
    processed_years out = years /\
    last out = Some Loader.NoDataLoadedForAnyYear.
Proof.
  intros Hgd Hids Habsent.
  assert (Hyear : forall year, year ∈ years ->
            Loader.load_all_shot_data_for_year env GAME_DATES year base_path
            = Ok Loader.empty_frame).
  { intros year Hy. rewrite (load_year_total _ _ _ _ _ Hids).
    - by rewrite year_frame_absent by by apply Habsent.
    - eapply Forall_impl; [by apply Habsent|]. intros p [q Hq]. unfold found_or_absent.
      by rewrite Hq. }
  unfold Loader.workflow. rewrite Hgd.
  destruct (Loader.load_all_shot_data env GAME_DATES years base_path) as [[df|e] out] eqn:Hrun.
  - destruct (load_all_Ok _ _ _ _ _ _ Hrun) as (frames & more & Hall & Hproc & _ & Hcase).
    assert (Hnil : filter (fun f : DataFrame => rows f <> []) frames = []).
    { apply filter_none. apply Forall_forall. intros f Hf.
      destruct (Forall2_elem_of_r _ _ _ _ Hall Hf) as (year & Hy & Hload).
      rewrite (Hyear _ Hy) in Hload. injection Hload as <-. by intros ?. }
    destruct Hcase as [(_ & -> & ->) | (Hne & _)]; [|done].
    eexists. split; [done|]. split.
    + rewrite app_comm_cons, processed_years_app, Hproc. simpl. by rewrite app_nil_r.
    + by rewrite app_comm_cons, last_snoc.
  - exfalso. unfold Loader.load_all_shot_data in Hrun.
    assert (Hrun' := load_years_run env GAME_DATES base_path years []
                       [Loader.LoadingYears years]).
    destruct (Loader.load_years _ _ _ _ _ _) as [[l|e'] out'].
    + by destruct l.
    + destruct Hrun' as (year & Hy & Hload & _). by rewrite (Hyear _ Hy) in Hload.
Qed.

Lemma workflow_without_shot_files_witness :
  read_csv Season.env Loader.game_dates_url = Ok Season.game_dates /\
  column "TEAM_ID" Season.game_dates = Ok [Int 7; Int 8; Int 7] /\
  (forall year, year ∈ [2019; 2020] ->
     Forall (fun p => exists q, read_csv Season.env p = Raise (FileNotFoundError q))
       (year_paths Season.base_path year (Loader.drop_duplicates [Int 7; Int 8; Int 7]))) /\
  exists out,
    Loader.workflow Season.env [2019; 2020] Season.base_path Scenario.backup_path
      Scenario.base_output_dir Scenario.world
      = ((Ok tt, Scenario.world), out) /\
    processed_years out = [2019; 2020] /\
    last out = Some Loader.NoDataLoadedForAnyYear.
Proof.
  assert (Hgd : read_csv Season.env Loader.game_dates_url = Ok Season.game_dates)
    by (vm_compute; reflexivity).
  assert (Hids : column "TEAM_ID" Season.game_dates = Ok [Int 7; Int 8; Int 7])
    by (vm_compute; reflexivity).
  assert (Habsent : forall year, year ∈ [2019; 2020] ->
            Forall (fun p => exists q, read_csv Season.env p = Raise (FileNotFoundError q))
              (year_paths Season.base_path year
                 (Loader.drop_duplicates [Int 7; Int 8; Int 7]))).
  { intros year Hy.
    apply elem_of_cons in Hy as [->|Hy];
      [|apply list_elem_of_singleton in Hy as ->];
      vm_compute; repeat constructor; eexists; reflexivity. }
  split; [exact Hgd|]. split; [exact Hids|]. split; [exact Habsent|].
  exact (workflow_without_shot_files _ _ _ _ _ _ _ _ Hgd Hids Habsent).
Defined.

(** X23.  In the workflow the writer's guard never fires: whenever the
    loader returns a table with rows and the merge of that table returns,
    the merged table has the columns [season_type], [year_source] and
    [team_id], and the workflow's outcome is that of the partition writer
    on the merged table. *)
Theorem workflow_reaches_the_writer env years base_path backup_file_path base_output_dir w
    GAME_DATES all_shot_data out merged_df w1 :
  read_csv env Loader.game_dates_url = Ok GAME_DATES ->
  Loader.load_all_shot_data env GAME_DATES years base_path = (Ok all_shot_data, out) ->
  Loader.is_empty all_shot_data = false ->
  merge_with_uuid_data env backup_file_path (set_table all_shot_data w)
    = (Ok merged_df, w1) ->
  Forall (fun c => c ∈ columns merged_df) tag_columns /\
  lacks_key_columns merged_df = false /\
  Loader.workflow env years base_path backup_file_path base_output_dir w
  = (save_data_by_year_and_team base_output_dir (set_table merged_df w1), out).
Proof.
  intros Hgd Hload Hne Hmerge.
  assert (Htags : Forall (fun c => c ∈ columns merged_df) tag_columns).
  { assert (Hcols := load_all_columns _ _ _ _ _ _ Hload Hne).
    apply Forall_cons in Hcols as [Hc1 Hcols]. apply Forall_cons in Hcols as [Hc2 Hcols].
    apply Forall_cons in Hcols as [Hc3 _].
    unfold tag_columns.
    repeat (constructor;
            [eapply merge_keeps_column;
             [exact Hmerge|assumption|apply (bool_decide_unpack _); vm_compute; exact I]|]).
    constructor. }
  split; [done|]. split.
  - unfold lacks_key_columns, has_column.
    apply Forall_cons in Htags as [_ Htags]. apply Forall_cons in Htags as [Hys Htags].
    apply Forall_cons in Htags as [Htid _]. by rewrite !bool_decide_true.
  - unfold Loader.workflow. rewrite Hgd, Hload, Hne. f_equal.
    rewrite bind_run, Hmerge. by rewrite bind_run.
Qed.

Lemma workflow_reaches_the_writer_witness :
  read_csv Season.env Loader.game_dates_url = Ok Season.game_dates /\
  Loader.load_all_shot_data Season.env Season.game_dates Season.years Season.base_path
    = (Ok Season.loaded_shots, Season.load_log) /\
  Loader.is_empty Season.loaded_shots = false /\
  merge_with_uuid_data Season.env Scenario.backup_path
    (set_table Season.loaded_shots Scenario.world)
    = (Ok Season.merged, Season.after_merge) /\
  Forall (fun c => c ∈ columns Season.merged) tag_columns /\
  lacks_key_columns Season.merged = false /\
  Loader.workflow Season.env Season.years Season.base_path Scenario.backup_path
    Scenario.base_output_dir Scenario.world
  = (save_data_by_year_and_team Scenario.base_output_dir
       (set_table Season.merged Season.after_merge), Season.load_log).
Proof.
  assert (Hgd : read_csv Season.env Loader.game_dates_url = Ok Season.game_dates)
    by (vm_compute; reflexivity).
  assert (Hload : Loader.load_all_shot_data Season.env Season.game_dates Season.years
                    Season.base_path = (Ok Season.loaded_shots, Season.load_log))
    by (vm_compute; reflexivity).
  assert (Hne : Loader.is_empty Season.loaded_shots = false) by (vm_compute; reflexivity).
  assert (Hmerge : merge_with_uuid_data Season.env Scenario.backup_path
                     (set_table Season.loaded_shots Scenario.world)
                   = (Ok Season.merged, Season.after_merge)) by (vm_compute; reflexivity).
  split; [exact Hgd|]. split; [exact Hload|]. split; [exact Hne|]. split; [exact Hmerge|].
  exact (workflow_reaches_the_writer _ _ _ _ Scenario.base_output_dir _ _ _ _ _ _
           Hgd Hload Hne Hmerge).
Defined.

(** * The order of the merged rows *)

Section MergeOrder.

(** The left join, block by block: each left row with its right-hand
    parts, in the order of the left table. *)
Lemma merge_left_blocks left right left_on right_on joined :
  merge_left left right left_on right_on = Ok joined ->
  Forall (fun c => c ∉ columns right) (columns left) ->
  exists rs : Series -> list Series,
    rows joined = rows left ≫= (fun l => (fun r => l ++ r) <$> rs l) /\
    forall l, rs l <> [] /\
      forall r, r ∈ rs l ->
        r = (fun c => (c, NaN)) <$> columns right
        \/ exists m, m ∈ rows right /\
             Forall2 (fun p q : string * value =>
                        q.1 = p.1 /\ (q.2 = p.2 \/ q.2 = to_float p.2)) m r.
Proof.
  unfold merge_left. intros Hm Hdis.
  destruct (filter _ left_on); [|done]. destruct (filter _ right_on); [|done].
  assert (Hov : filter (fun c => c ∈ columns right) (columns left) = []).
  { apply filter_none. eapply Forall_impl; [exact Hdis|]. by intros c Hc Hn. }
  rewrite Hov in Hm. injection Hm as <-. simpl.
  exists (fun l =>
            match matches left_on right_on l right with
            | [] => [ (fun c => (suffixed [] "_y" c, NaN)) <$> columns right ]
            | ms => (fun r => relabel (suffixed [] "_y")
                                ((fun p : string * value =>
                                    if (existsb (fun l : Series =>
                                                   bool_decide (matches left_on right_on l right = []))
                                          (rows left) && int64_column p.1 right)%bool
                                    then (p.1, to_float p.2) else p) <$> r)) <$> ms
            end).
  split.
  - apply bind_ext_in. intros l _. by rewrite relabel_nil.
  - intros l. destruct (matches left_on right_on l right) as [|m0 ms] eqn:Hms.
    + split; [done|]. intros r ->%list_elem_of_singleton. by left.
    + split; [done|]. intros r (m & -> & Hin)%list_elem_of_fmap. right. exists m. split.
      * rewrite <- Hms in Hin. by apply list_elem_of_filter in Hin as [_ ?].
      * rewrite relabel_nil. apply (widened_cells _ (fun c => int64_column c right)).
Qed.

(** Zipping a list made of blocks keeps the blocks. *)
Lemma zip_with_blocks {A B U C} (P : B -> U -> Prop) (g : U -> B -> C)
    (blk : A -> list B) (xs : list A) (us : list U) :
  Forall2 P (xs ≫= blk) us ->
  exists blocks : list (list C),
    zip_with g us (xs ≫= blk) = mjoin blocks /\
    Forall2 (fun x block =>
               Forall2 (fun b c => exists u, P b u /\ c = g u b) (blk x) block)
      xs blocks.
Proof.
  revert us. induction xs as [|x xs IH]; intros us.
  { intros ->%Forall2_nil_inv_l. exists []. split; [done|constructor]. }
  rewrite bind_cons. intros (u1 & u2 & H1 & H2 & ->)%Forall2_app_inv_l.
  destruct (IH _ H2) as (blocks & Hzip & Hall).
  exists (zip_with g u1 (blk x) :: blocks). split.
  - rewrite zip_with_app by (symmetry; by eapply Forall2_length). simpl. by rewrite Hzip.
  - constructor; [|done]. clear -H1.
    induction H1 as [|b u bs us' Hbu _ IHb]; simpl; constructor; eauto.
Qed.

Lemma merged_blocks env backup_file_path w merged_df w' :
  merge_with_uuid_data env backup_file_path w = (Ok merged_df, w') ->
  no_label_clash (table w') ->
  exists blocks : list (list Series),
    rows merged_df = mjoin blocks /\
    Forall2 (fun shot block =>
               block <> [] /\
               forall row, row ∈ block ->
                 forall c, c ∉ backup_columns -> c <> "video_url"%string ->
                   lookup_label c row = lookup_label c shot)
      (rows (table w')) blocks.
Proof.
  intros Hrun Hclash.
  apply merge_with_uuid_data_Ok in Hrun
    as (backup_df & shots & right & joined & trimmed & urls
        & Hread & _ & Hright & Hjoin & Hdrop & Hurls & -> & Ht).
  rewrite Ht in *. clear Ht.
  assert (Hr : columns right = backup_columns /\
               forall m, m ∈ rows right -> m.*1 = backup_columns).
  { unfold prepare_backup in Hright.
    destruct (astype "game_id" to_str backup_df) as [b1|]; simpl in Hright; [|done].
    destruct (astype "action_number" to_int64 b1) as [b2|]; simpl in Hright; [|done].
    apply select_Ok in Hright as [Hc Hrows]. split; [done|].
    intros m Hm. rewrite Hrows in Hm.
    apply list_elem_of_fmap in Hm as (m0 & -> & _). apply reindex_labels. }
  destruct Hr as [Hrc Hrl].
  assert (Hdis : Forall (fun c => c ∉ columns right) (columns shots))
    by (rewrite Hrc; exact Hclash).
  destruct (merge_left_blocks _ _ _ _ _ Hjoin Hdis) as (rs & Hjr & Hrs).
  apply drop_Ok in Hdrop as [_ Htr].
  assert (Htrim : rows trimmed
                  = rows shots ≫= (fun l =>
                      (fun r => filter (fun p : string * value =>
                                          p.1 ∉ ["game_id"; "action_number"]) (l ++ r))
                        <$> rs l)).
  { rewrite Htr, Hjr. clear. induction (rows shots) as [|l ls IH]; [done|].
    rewrite !bind_cons, fmap_app, IH. f_equal. by rewrite <- list_fmap_compose. }
  unfold apply in Hurls. apply traverse_Forall2 in Hurls. rewrite Htrim in Hurls.
  destruct (zip_with_blocks _ (set_cell "video_url") _ _ _ Hurls) as (blocks & Hzip & Hall).
  exists blocks. split; [simpl; by rewrite Htrim|].
  eapply Forall2_impl; [exact Hall|]. intros shot block Hblock. simpl in Hblock.
  destruct (Hrs shot) as [Hne Hparts]. split.
  - destruct (rs shot) as [|r0 rest]; [done|]. rewrite fmap_cons in Hblock.
    by inversion Hblock.
  - intros row Hrow c Hc Hvu.
    destruct (Forall2_elem_of_r _ _ _ _ Hblock Hrow) as (b & Hb & url & _ & ->).
    apply list_elem_of_fmap in Hb as (rpart & -> & Hrpart).
    apply merged_shot_cell; [done..|].
    destruct (Hparts _ Hrpart) as [->|(m & Hm & Hcells)].
    + rewrite <- list_fmap_compose. rewrite <- Hrc. apply list_fmap_id.
    + rewrite (Forall2_cells_labels (fun v v' => v' = v \/ v' = to_float v) _ _ Hcells).
      by apply Hrl.
Qed.

End MergeOrder.

(** X24.  The merged table keeps the order of the shots: with no label
    clash, its rows are the rows of the (prepared) shot table in their
    order, each standing as a block of one or more consecutive rows (one
    per matching mapping row, or one with missing values) that agree with
    the shot on every label that is neither a mapping column nor
    [video_url]. *)
Theorem merge_keeps_shot_order env backup_file_path w merged_df w' :
  merge_with_uuid_data env backup_file_path w = (Ok merged_df, w') ->
  no_label_clash (table w') ->
  exists blocks : list (list Series),
    rows merged_df = mjoin blocks /\
    length blocks = len (table w') /\
    Forall2 (fun shot block =>
               block <> [] /\
               forall row, row ∈ block ->
                 forall c, c ∉ backup_columns -> c <> "video_url"%string ->
                   lookup_label c row = lookup_label c shot)
      (rows (table w')) blocks.
Proof.
  intros Hrun Hclash.
  destruct (merged_blocks _ _ _ _ _ Hrun Hclash) as (blocks & Hrows & Hall).
  exists blocks. split; [done|]. split; [|done].
  symmetry. by eapply Forall2_length.
Qed.

Lemma merge_keeps_shot_order_witness :
  merge_with_uuid_data Season.env Scenario.backup_path Season.loaded_world
    = (Ok Season.merged, Season.after_merge) /\
  no_label_clash (table Season.after_merge) /\
  exists blocks : list (list Series),
    rows Season.merged = mjoin blocks /\
    length blocks = len (table Season.after_merge) /\
    Forall2 (fun shot block =>
               block <> [] /\
               forall row, row ∈ block ->
                 forall c, c ∉ backup_columns -> c <> "video_url"%string ->
                   lookup_label c row = lookup_label c shot)
      (rows (table Season.after_merge)) blocks.
Proof.
  assert (Hrun : merge_with_uuid_data Season.env Scenario.backup_path Season.loaded_world
                 = (Ok Season.merged, Season.after_merge)) by (vm_compute; reflexivity).
  assert (Hclash : no_label_clash (table Season.after_merge)).
  { apply (bool_decide_unpack _). vm_compute. exact I. }
  split; [exact Hrun|]. split; [exact Hclash|].
  exact (merge_keeps_shot_order _ _ _ _ _ Hrun Hclash).
Defined.

(** * The order of the loaded rows *)

Section LoaderOrder.
Import Loader.

Lemma concat_rows_eq dfs : rows (concat dfs) = laid_out dfs <$> (dfs ≫= rows).
Proof. unfold concat, laid_out. simpl. by rewrite <- list_fmap_compose. Qed.

Lemma laid_out_cells dfs r c :
  c ∈ union_columns dfs ->
  (lookup_label c (laid_out dfs r) = Some (default NaN (lookup_label c r)) \/
   lookup_label c (laid_out dfs r) = Some (to_float (default NaN (lookup_label c r)))) /\
  ((forall df' r', df' ∈ dfs -> r' ∈ rows df' ->
      is_int (default NaN (lookup_label c r')) = true) ->
   lookup_label c (laid_out dfs r) = Some (default NaN (lookup_label c r))).
Proof.
  intros Hc. unfold laid_out. rewrite (lookup_widen_reindex _ _ _ _ Hc). simpl. split.
  - match goal with |- context [if ?b then _ else _] => destruct b end; auto.
  - intros Hint.
    assert (Hall : forallb is_int
              ((fun r0 => default NaN (lookup_label c r0))
                 <$> (reindex (union_columns dfs) <$> (dfs ≫= rows))) = true).
    { apply forallb_forall. intros v Hv. apply list_elem_of_In in Hv.
      apply list_elem_of_fmap in Hv as (r1 & -> & Hr1).
      apply list_elem_of_fmap in Hr1 as (r2 & -> & Hr2).
      apply list_elem_of_bind in Hr2 as (df2 & Hr2 & Hdf2).
      rewrite lookup_reindex by done. simpl. by apply (Hint df2 r2). }
    rewrite Hall. by rewrite andb_false_r.
Qed.

Lemma team_sources_elem env base_path year team s :
  s ∈ team_sources env base_path year team ->
  s.1.1.1 = team /\
  exists path, (path, s.1.1.2) ∈ season_paths base_path year team /\
    read_csv env path = Ok s.1.2 /\ s.2 ∈ rows s.1.2.
Proof.
  unfold team_sources. intros ([path label] & Hs & Hin)%list_elem_of_bind. simpl in Hs.
  destruct (read_csv env path) as [file|] eqn:Hread; [|by apply elem_of_nil in Hs].
  apply list_elem_of_fmap in Hs as (r & -> & Hr). simpl. split; [done|]. by exists path.
Qed.

Lemma team_frame_rows_eq env base_path year team :
  from_option rows [] (team_frame env base_path year team)
  = (fun r => set_cell "team_id" team
                (set_cell "year_source" (Int year)
                   (laid_out (season_frames env base_path year team) r)))
      <$> (season_frames env base_path year team ≫= rows).
Proof.
  unfold team_frame.
  destruct (season_frames env base_path year team) as [|df dfs]; [done|].
  cbn [from_option].
  by rewrite !assign_scalar_rows, concat_rows_eq, <- !list_fmap_compose.
Qed.

Lemma zip_with_replicate c v (rs : list Series) :
  zip_with (set_cell c) (replicate (length rs) v) rs = set_cell c v <$> rs.
Proof. induction rs as [|r rs IH]; [done|]. simpl. by rewrite IH. Qed.

Lemma season_frames_rows env base_path year team :
  season_frames env base_path year team ≫= rows
  = (fun s : source => set_cell "season_type" (Str s.1.1.2) s.2)
      <$> team_sources env base_path year team.
Proof.
  unfold season_frames, team_sources, season_paths.
  rewrite !bind_cons. unfold omap. simpl.
  destruct (read_csv env (reg_season_path base_path year team)) as [reg|];
    destruct (read_csv env (post_season_path base_path year team)) as [post|]; simpl;
    unfold len; rewrite ?bind_cons, ?app_nil_r, ?fmap_app, ?zip_with_replicate,
      <- ?list_fmap_compose; done.
Qed.

(** The rows of the table of a team are the rows of its files, laid out
    and tagged, in order. *)
Lemma team_rows_eq env base_path year team :
  from_option rows [] (team_frame env base_path year team)
  = team_row env base_path year <$> team_sources env base_path year team.
Proof.
  rewrite team_frame_rows_eq, season_frames_rows, <- list_fmap_compose.
  apply list_fmap_ext. intros i s Hs.
  apply list_elem_of_lookup_2, team_sources_elem in Hs as [Hteam _].
  unfold team_row. simpl. by rewrite Hteam.
Qed.

Lemma omap_bind_rows {A} (f : A -> option DataFrame) (l : list A) :
  omap f l ≫= rows = l ≫= (fun x => from_option rows [] (f x)).
Proof.
  induction l as [|x l IH]; [done|]. rewrite bind_cons, <- IH.
  unfold omap. simpl. by destruct (f x).
Qed.

Lemma fmap_bind {A B C} (h : B -> C) (g : A -> list B) (l : list A) :
  h <$> (l ≫= g) = l ≫= (fun x => h <$> g x).
Proof.
  induction l as [|x l IH]; [done|]. by rewrite !bind_cons, fmap_app, IH.
Qed.

Lemma year_rows_eq env base_path year teams :
  rows (year_frame env base_path year teams)
  = year_row env base_path year teams <$> year_sources env base_path year teams.
Proof.
  assert (Hrows : rows (year_frame env base_path year teams)
                  = rows (concat (omap (team_frame env base_path year) teams))).
  { unfold year_frame. by destruct (omap _ teams). }
  rewrite Hrows, concat_rows_eq, omap_bind_rows. unfold year_sources, year_row.
  rewrite !fmap_bind. apply bind_ext_in. intros team _.
  rewrite team_rows_eq, <- list_fmap_compose. done.
Qed.

(** The cells of a row of a team's table. *)
Lemma team_row_cells env base_path year s team :
  s ∈ team_sources env base_path year team ->
  exists tf, team_frame env base_path year team = Some tf /\
    team_row env base_path year s ∈ rows tf /\
    lookup_label "season_type" (team_row env base_path year s) = Some (Str s.1.1.2) /\
    lookup_label "year_source" (team_row env base_path year s) = Some (Int year) /\
    lookup_label "team_id" (team_row env base_path year s) = Some team /\
    forall c, c ∈ columns s.1.2 -> c ∉ tag_columns ->
      c ∈ columns tf /\
      (lookup_label c (team_row env base_path year s)
         = Some (default NaN (lookup_label c s.2)) \/
       lookup_label c (team_row env base_path year s)
         = Some (to_float (default NaN (lookup_label c s.2)))).
Proof.
  intros Hs. assert (Hin := Hs).
  apply team_sources_elem in Hs as (Hteam & path & Hpath & Hread & Hr).
  destruct s as [[[t label] file] r]. simpl in *. subst t.
  assert (Hdf : assign_scalar "season_type" (Str label) file
                ∈ season_frames env base_path year team).
  { unfold season_frames. apply list_elem_of_omap. exists (path, label).
    split; [done|]. simpl. by rewrite Hread. }
  destruct (team_frame env base_path year team) as [tf|] eqn:Htf.
  2:{ unfold team_frame in Htf.
      destruct (season_frames env base_path year team); [by apply elem_of_nil in Hdf|done]. }
  exists tf. split; [done|].
  assert (Hrow : team_row env base_path year (team, label, file, r) ∈ rows tf).
  { assert (Heq := team_rows_eq env base_path year team). rewrite Htf in Heq. simpl in Heq.
    rewrite Heq. apply list_elem_of_fmap. eauto. }
  split; [done|].
  destruct (team_frame_rows _ _ _ _ _ _ Htf Hrow) as (Hys & Htid & _).
  assert (Hunion : forall c, c ∈ columns (assign_scalar "season_type" (Str label) file) ->
                     c ∈ union_columns (season_frames env base_path year team)).
  { intros c Hc. apply union_columns_elem. eauto. }
  assert (Hstcol : "season_type"%string
                   ∈ union_columns (season_frames env base_path year team))
    by apply Hunion, assign_scalar_column.
  assert (Hfilecol : forall c, c ∈ columns file ->
                       c ∈ union_columns (season_frames env base_path year team))
    by (intros c Hc; by apply Hunion, assign_scalar_columns_mono).
  clear Hunion.
  unfold team_row in *. simpl in *. split; [|split; [done|split; [done|]]].
  - rewrite !lookup_set_cell_ne by done.
    destruct (laid_out_cells (season_frames env base_path year team)
                (set_cell "season_type" (Str label) r) "season_type" Hstcol)
      as [[Hc|Hc] _]; rewrite Hc, lookup_set_cell_eq; done.
  - intros c Hc Htag.
    assert (Hne : c <> "season_type"%string /\ c <> "year_source"%string
                  /\ c <> "team_id"%string).
    { unfold tag_columns in Htag. repeat split; intros ->; apply Htag.
      - left.
      - right. left.
      - right. right. left. }
    destruct Hne as (Hn1 & Hn2 & Hn3). split.
    { destruct (team_frame_columns _ _ _ _ _ Htf) as [_ Hfile]. by eapply Hfile. }
    rewrite !lookup_set_cell_ne by done.
    destruct (laid_out_cells (season_frames env base_path year team)
                (set_cell "season_type" (Str label) r) c (Hfilecol c Hc)) as [Hcell _].
    by rewrite lookup_set_cell_ne in Hcell by done.
Qed.

Lemma year_row_cells env base_path year teams s :
  s ∈ year_sources env base_path year teams ->
  loaded_from year s (year_row env base_path year teams s).
Proof.
  unfold year_sources. intros (team & Hs & Hteam)%list_elem_of_bind.
  destruct (team_row_cells _ _ _ _ _ Hs)
    as (tf & Htf & Hrow & Hst & Hys & Htid & Hraw).
  destruct (team_sources_elem _ _ _ _ _ Hs) as (Hteq & _).
  destruct (team_frame_columns _ _ _ _ _ Htf) as [Htags _].
  assert (Hunion : forall c, c ∈ columns tf ->
                     c ∈ union_columns (omap (team_frame env base_path year) teams)).
  { intros c Hc. apply union_columns_elem. exists tf. split; [|done].
    apply list_elem_of_omap. eauto. }
  apply Forall_cons in Htags as [Hc1 Htags]. apply Forall_cons in Htags as [Hc2 Htags].
  apply Forall_cons in Htags as [Hc3 _].
  unfold loaded_from, year_row. rewrite Hteq. split; [|split; [|split]].
  - destruct (laid_out_cells (omap (team_frame env base_path year) teams)
                (team_row env base_path year s) _ (Hunion _ Hc1)) as [[Hc|Hc] _];
      by rewrite Hc, Hst.
  - destruct (laid_out_cells (omap (team_frame env base_path year) teams)
                (team_row env base_path year s) _ (Hunion _ Hc2)) as [_ Hexact].
    rewrite Hexact, Hys; [done|].
    intros tf' r' Htf' Hr'. apply list_elem_of_omap in Htf' as (team' & _ & Htf').
    destruct (team_frame_rows _ _ _ _ _ _ Htf' Hr') as (-> & _). done.
  - destruct (laid_out_cells (omap (team_frame env base_path year) teams)
                (team_row env base_path year s) _ (Hunion _ Hc3)) as [[Hc|Hc] _];
      rewrite Hc, Htid; auto.
  - intros c Hc Htag. destruct (Hraw c Hc Htag) as [Hctf Hcell].
    destruct (laid_out_cells (omap (team_frame env base_path year) teams)
                (team_row env base_path year s) _ (Hunion _ Hctf)) as [[Hl|Hl] _];
      destruct Hcell as [Hr3|Hr3]; rewrite Hl, Hr3; simpl; rewrite ?to_float_idem; auto.
Qed.

End LoaderOrder.

(** X25.  The loader of a year returns the rows of the files in the
    order it reads them: the teams in the order of their first occurrence
    in the registry, for each team the regular-season file before the
    postseason file, and the rows of a file in the file's order.  Row by
    row, the table returned is these rows, each tagged with its season
    type, the year and its team and with the cells of the file row (as
    they were or as floats). *)
Theorem loaded_rows_in_file_order env GAME_DATES year base_path df team_ids :
  Loader.load_all_shot_data_for_year env GAME_DATES year base_path = Ok df ->
  column "TEAM_ID" GAME_DATES = Ok team_ids ->
  Forall2 (loaded_from year)
    (year_sources env base_path year (Loader.drop_duplicates team_ids)) (rows df).
Proof.
  intros Hrun Hids. apply load_year_Ok in Hrun as (ids & Hids' & _ & ->).
  assert (ids = team_ids) as -> by congruence.
  rewrite year_rows_eq. apply Forall2_fmap_r, Forall_Forall2_diag, Forall_forall.
  intros s Hs. by apply year_row_cells.
Qed.

Lemma loaded_rows_in_file_order_witness :
  Loader.load_all_shot_data_for_year Season.env Season.game_dates 2021 Season.base_path
    = Ok Season.year_2021 /\
  column "TEAM_ID" Season.game_dates = Ok [Int 7; Int 8; Int 7] /\
  Forall2 (loaded_from 2021)
    (year_sources Season.env Season.base_path 2021
       (Loader.drop_duplicates [Int 7; Int 8; Int 7]))
    (rows Season.year_2021).
Proof.
  assert (Hrun : Loader.load_all_shot_data_for_year Season.env Season.game_dates 2021
                   Season.base_path = Ok Season.year_2021) by (vm_compute; reflexivity).
  assert (Hids : column "TEAM_ID" Season.game_dates = Ok [Int 7; Int 8; Int 7])
    by (vm_compute; reflexivity).
  split; [exact Hrun|]. split; [exact Hids|].
  exact (loaded_rows_in_file_order _ _ _ _ _ _ Hrun Hids).
Defined.

(** The sources of the season on disk, in order: the two
    regular-season shots of team 7, its postseason shot, the shot of
    team 8. *)
Example season_sources_in_order :
  (fun s : source => (s.1.1.1, s.1.1.2, s.2))
    <$> year_sources Season.env Season.base_path 2021
          (Loader.drop_duplicates [Int 7; Int 8; Int 7])
  = [ (Int 7, "REG"%string, Season.raw_shot 101 5 1);
      (Int 7, "REG"%string, Season.raw_shot 101 6 2);
      (Int 7, "PS"%string, Season.raw_shot 103 9 4);
      (Int 8, "REG"%string, Season.raw_shot 102 1 3) ].
Proof. vm_compute. reflexivity. Qed.

(** * From the merge to the files *)

Section MergeThenSave.




End MergeThenSave.




(** * Row for row *)

Section RowForRow.

Lemma mjoin_length_ge {A} (blocks : list (list A)) :
  Forall (fun b => b <> []) blocks -> (length blocks <= length (mjoin blocks))%nat.
Proof.
  induction 1 as [|b bs Hb _ IH]; [done|]. simpl. rewrite length_app.
  destruct b; [done|]. simpl. lia.
Qed.

Lemma mjoin_singletons {A B} (R : A -> B -> Prop) (xs : list A) (blocks : list (list B)) :
  Forall2 (fun x b => b <> [] /\ forall y, y ∈ b -> R x y) xs blocks ->
  length (mjoin blocks) = length blocks ->
  Forall2 R xs (mjoin blocks).
Proof.
  induction 1 as [|x b xs bs [Hb Hx] Hrest IH]; [constructor|].
  simpl. rewrite length_app. intros Hlen.
  assert (Hge : (length bs <= length (mjoin bs))%nat).
  { apply mjoin_length_ge. clear -Hrest. induction Hrest as [|???? [? _]]; by constructor. }
  destruct b as [|y [|y' b]]; [done| |simpl in Hlen; lia].
  simpl in *. constructor; [apply Hx; left|]. apply IH. lia.
Qed.

End RowForRow.

(** X27.  When no (game identifier, action number) key occurs twice in
    the mapping table and there is no label clash, the merged table is
    the shot table row for row: row i of the merged table agrees with row
    i of the (prepared) shot table on every label that is neither a
    mapping column nor [video_url]. *)
Theorem merge_rows_align_with_shots env backup_file_path w merged_df w' backup_df keys :
  merge_with_uuid_data env backup_file_path w = (Ok merged_df, w') ->
  read_csv env backup_file_path = Ok backup_df ->
  mapping_keys backup_df = Ok keys ->
  NoDup keys ->
  no_label_clash (table w') ->
  Forall2 (fun shot row =>
             forall c, c ∉ backup_columns -> c <> "video_url"%string ->
               lookup_label c row = lookup_label c shot)
    (rows (table w')) (rows merged_df).
Proof.
  intros Hrun Hread Hkeys Hnd Hclash.
  destruct (merged_blocks _ _ _ _ _ Hrun Hclash) as (blocks & Hrows & Hall).
  assert (Hlen : len merged_df = len (table w')).
  { apply merge_with_uuid_data_Ok in Hrun
      as (backup' & shots & right & joined & trimmed & urls
          & Hread' & _ & Hright & Hjoin & Hdrop & Hurls & -> & ->).
    assert (backup' = backup_df) as -> by congruence.
    unfold mapping_keys in Hkeys. rewrite Hright in Hkeys. injection Hkeys as <-.
    rewrite (assign_apply_length _ _ _ _ Hurls), (drop_len _ _ _ Hdrop).
    by apply merge_left_len in Hjoin as [_ ->]. }
  rewrite Hrows. apply mjoin_singletons; [done|].
  unfold len in Hlen. rewrite <- Hrows, Hlen. by eapply Forall2_length.
Qed.

Lemma merge_rows_align_with_shots_witness :
  merge_with_uuid_data Season.env Scenario.backup_path Season.loaded_world
    = (Ok Season.merged, Season.after_merge) /\
  read_csv Season.env Scenario.backup_path = Ok Scenario.backup /\
  mapping_keys Scenario.backup = Ok Scenario.keys /\
  NoDup Scenario.keys /\
  no_label_clash (table Season.after_merge) /\
  Forall2 (fun shot row =>
             forall c, c ∉ backup_columns -> c <> "video_url"%string ->
               lookup_label c row = lookup_label c shot)
    (rows (table Season.after_merge)) (rows Season.merged).
Proof.
  assert (Hrun : merge_with_uuid_data Season.env Scenario.backup_path Season.loaded_world
                 = (Ok Season.merged, Season.after_merge)) by (vm_compute; reflexivity).
  assert (Hread : read_csv Season.env Scenario.backup_path = Ok Scenario.backup)
    by (vm_compute; reflexivity).
  assert (Hkeys : mapping_keys Scenario.backup = Ok Scenario.keys)
    by (vm_compute; reflexivity).
  assert (Hnd : NoDup Scenario.keys).
  { apply (bool_decide_unpack _). vm_compute. exact I. }
  assert (Hclash : no_label_clash (table Season.after_merge)).
  { apply (bool_decide_unpack _). vm_compute. exact I. }
  repeat (split; [assumption|]).
  exact (merge_rows_align_with_shots _ _ _ _ _ _ _ Hrun Hread Hkeys Hnd Hclash).
Defined.

(** X28.  In the workflow a merge that raises ends the run before the
    writer is called: the workflow raises the same exception, and no file
    and no directory has been touched. *)
Theorem workflow_failed_merge_writes_nothing env years base_path backup_file_path
    base_output_dir w GAME_DATES all_shot_data out e w1 :
  read_csv env Loader.game_dates_url = Ok GAME_DATES ->
  Loader.load_all_shot_data env GAME_DATES years base_path = (Ok all_shot_data, out) ->
  Loader.is_empty all_shot_data = false ->
  merge_with_uuid_data env backup_file_path (set_table all_shot_data w) = (Raise e, w1) ->
  Loader.workflow env years base_path backup_file_path base_output_dir w
    = ((Raise e, w1), out) /\
  files w1 = files w /\ dirs w1 = dirs w.
Proof.
  intros Hgd Hload Hne Hmerge. split.
  - unfold Loader.workflow. rewrite Hgd, Hload, Hne. f_equal.
    by rewrite bind_run, Hmerge.
  - destruct (merge_outcome _ _ _ _ _ Hmerge) as (Hd & Hf & _). by split.
Qed.

Lemma workflow_failed_merge_writes_nothing_witness :
  read_csv Season.env_without_uuid Loader.game_dates_url = Ok Season.game_dates /\
  Loader.load_all_shot_data Season.env_without_uuid Season.game_dates Season.years
    Season.base_path = (Ok Season.loaded_shots, Season.load_log) /\
  Loader.is_empty Season.loaded_shots = false /\
  merge_with_uuid_data Season.env_without_uuid Scenario.backup_path
    (set_table Season.loaded_shots Scenario.world)
    = (Raise (KeyError "uuid"),
       (merge_with_uuid_data Season.env_without_uuid Scenario.backup_path
          (set_table Season.loaded_shots Scenario.world)).2) /\
  Loader.workflow Season.env_without_uuid Season.years Season.base_path
    Scenario.backup_path Scenario.base_output_dir Scenario.world
    = ((Raise (KeyError "uuid"),
        (merge_with_uuid_data Season.env_without_uuid Scenario.backup_path
           (set_table Season.loaded_shots Scenario.world)).2), Season.load_log) /\
  files (merge_with_uuid_data Season.env_without_uuid Scenario.backup_path
           (set_table Season.loaded_shots Scenario.world)).2 = files Scenario.world /\
  dirs (merge_with_uuid_data Season.env_without_uuid Scenario.backup_path
          (set_table Season.loaded_shots Scenario.world)).2 = dirs Scenario.world.
Proof.
  assert (Hgd : read_csv Season.env_without_uuid Loader.game_dates_url
                = Ok Season.game_dates) by (vm_compute; reflexivity).
  assert (Hload : Loader.load_all_shot_data Season.env_without_uuid Season.game_dates
                    Season.years Season.base_path
                  = (Ok Season.loaded_shots, Season.load_log))
    by (vm_compute; reflexivity).
  assert (Hne : Loader.is_empty Season.loaded_shots = false) by (vm_compute; reflexivity).
  assert (Hmerge : merge_with_uuid_data Season.env_without_uuid Scenario.backup_path
                     (set_table Season.loaded_shots Scenario.world)
                   = (Raise (KeyError "uuid"),
                      (merge_with_uuid_data Season.env_without_uuid Scenario.backup_path
                         (set_table Season.loaded_shots Scenario.world)).2))
    by (vm_compute; reflexivity).
  split; [exact Hgd|]. split; [exact Hload|]. split; [exact Hne|]. split; [exact Hmerge|].
  exact (workflow_failed_merge_writes_nothing _ _ _ _ Scenario.base_output_dir _ _ _ _ _ _
           Hgd Hload Hne Hmerge).
Defined.

(** * The workflow, end to end *)

Section EndToEnd.






End EndToEnd.



(** The season on disk, end to end: the workflow leaves the two files
    of team 7 and team 8 for 2021 and nothing else. *)
Example season_files :
  (map_to_list (files Season.after_workflow)).*1
  = ["shot_data_with_urls/2021/7.csv"%string; "shot_data_with_urls/2021/8.csv"%string].
Proof. vm_compute. reflexivity. Qed.
